(** * LLM-Video-Summarizer: the streaming job pipeline

    A shallow embedding of [backend/video_processor.py] and of the
    streaming endpoint of [backend/app.py].

    - Python [str] values are lists of code points.
    - The external collaborators (yt-dlp, the speech model, the Ollama
      model, sqlite, the operating system) are oracles gathered in a record
      [env]; an oracle answers with a value or with the text [str(e)] of the
      exception it raises.
    - Code that raises, catches, mutates the working directory and yields
      frames is written in a monad [M] that threads the store, returns a
      value or an exception, and records in order what was yielded and which
      collaborator was called. *)

From Stdlib Require Import String Ascii.
From Stdlib Require Import List NArith ZArith Bool Arith Lia.
Import ListNotations.

Set Implicit Arguments.

(** ** Python strings *)

Module PyStr.

Definition pystr : Type := list N.

(** An ASCII literal of the source. *)
Definition lit (s : string) : pystr :=
  map N_of_ascii (list_ascii_of_string s).

Definition NL : N := 10%N.
Definition QUOTE : N := 34%N.
Definition BACKSLASH : N := 92%N.

Fixpoint eqb (a b : pystr) : bool :=
  match a, b with
  | [], [] => true
  | x :: a', y :: b' => N.eqb x y && eqb a' b'
  | _, _ => false
  end.

(** [c.isspace()] for a one-character [str]: the code points that
    [str.strip()] without argument removes. *)
Definition isspace (c : N) : bool :=
  ((9 <=? c) && (c <=? 13) || (28 <=? c) && (c <=? 32)
   || (c =? 133) || (c =? 160) || (c =? 5760)
   || (8192 <=? c) && (c <=? 8202)
   || (c =? 8232) || (c =? 8233) || (c =? 8239) || (c =? 8287)
   || (c =? 12288))%N.

Fixpoint lstrip (s : pystr) : pystr :=
  match s with
  | [] => []
  | c :: r => if isspace c then lstrip r else s
  end.

Definition rstrip (s : pystr) : pystr := rev (lstrip (rev s)).

(** [s.strip()] *)
Definition strip (s : pystr) : pystr := rstrip (lstrip s).

(** [s.startswith(p)] *)
Fixpoint startswith (p s : pystr) : bool :=
  match p, s with
  | [], _ => true
  | x :: p', y :: s' => N.eqb x y && startswith p' s'
  | _ :: _, [] => false
  end.

(** [sub in s] *)
Fixpoint contains (sub s : pystr) : bool :=
  startswith sub s ||
  match s with
  | [] => false
  | _ :: r => contains sub r
  end.

(** Truth value of a [str]: [not s] holds for the empty string only. *)
Definition truthy (s : pystr) : bool :=
  match s with [] => false | _ :: _ => true end.

Fixpoint replace_fuel (fuel : nat) (old new s : pystr) : pystr :=
  match fuel with
  | O => s
  | S k =>
      match s with
      | [] => []
      | c :: r =>
          if startswith old s
          then new ++ replace_fuel k old new (skipn (length old) s)
          else c :: replace_fuel k old new r
      end
  end.

(** [s.replace(old, new)] for a non-empty [old]. *)
Definition replace (old new s : pystr) : pystr :=
  replace_fuel (length s) old new s.

Definition mem (x : pystr) (l : list pystr) : bool := existsb (eqb x) l.

Definition remove (x : pystr) (l : list pystr) : list pystr :=
  filter (fun y => negb (eqb x y)) l.

Fixpoint dedup (l : list pystr) : list pystr :=
  match l with
  | [] => []
  | x :: r => x :: remove x (dedup r)
  end.

End PyStr.

Import PyStr.
Arguments lit s%_string.

(** ** The URL utility of video_processor.py *)

Definition WATCH_PREFIX : pystr := lit "https://www.youtube.com/watch?v=".

(** [validate_video_url(video_input)]; the argument is [None] or a [str]. *)
Definition validate_video_url (video_input : option pystr) : option pystr :=
  match video_input with
  | None => None
  | Some s =>
      if negb (truthy s) then None
      else
        let video_input := strip s in
        if contains (lit "youtube.com") video_input
           || contains (lit "youtu.be") video_input
        then Some video_input
        else Some (WATCH_PREFIX ++ video_input)
  end.

(** ** Events and their JSON frames (app.py, the yields of [generate]) *)

(** The dictionary passed to [json.dumps] at each [yield]. *)
Inductive event : Type :=
| Status (message : pystr)
| Transcript (data : pystr)
| SummaryChunk (data : pystr)
| Complete (video_title message : pystr)
| Error (message : pystr).

Definition to_dict (e : event) : list (pystr * pystr) :=
  match e with
  | Status m => [(lit "type", lit "status"); (lit "message", m)]
  | Transcript d => [(lit "type", lit "transcript"); (lit "data", d)]
  | SummaryChunk d => [(lit "type", lit "summary_chunk"); (lit "data", d)]
  | Complete t m =>
      [(lit "type", lit "complete"); (lit "video_title", t); (lit "message", m)]
  | Error m => [(lit "type", lit "error"); (lit "message", m)]
  end.

Definition is_terminal (e : event) : bool :=
  match e with
  | Complete _ _ | Error _ => true
  | _ => false
  end.

Definition is_error (e : event) : bool :=
  match e with Error _ => true | _ => false end.

Definition is_complete (e : event) : bool :=
  match e with Complete _ _ => true | _ => false end.

Module Json.

(** The lower-case hexadecimal digit of [d < 16]. *)
Definition hexdigit (d : N) : N :=
  (if d <? 10 then 48 + d else 87 + d)%N.

(** The four hexadecimal digits that the format {0:04x} prints for
    [n < 0x10000]. *)
Definition hex4 (n : N) : pystr :=
  [hexdigit ((n / 4096) mod 16); hexdigit ((n / 256) mod 16);
   hexdigit ((n / 16) mod 16); hexdigit (n mod 16)]%N.

Definition uescape (n : N) : pystr := lit "\u" ++ hex4 n.

(** The replacement that [json.encoder.encode_basestring_ascii] makes for
    one code point: its regular expression ESCAPE_ASCII selects the
    backslash, the double quote and every code point outside the range from
    the space to the tilde. *)
Definition escape_char (c : N) : pystr :=
  (if c =? BACKSLASH then lit "\\"
   else if c =? QUOTE then [BACKSLASH; QUOTE]
   else if c =? 8 then lit "\b"
   else if c =? 12 then lit "\f"
   else if c =? 10 then lit "\n"
   else if c =? 13 then lit "\r"
   else if c =? 9 then lit "\t"
   else if (32 <=? c) && (c <=? 126) then [c]
   else if c <? 65536 then uescape c
   else
     let n := c - 65536 in
     let s1 := N.lor 55296 (N.land (N.shiftr n 10) 1023) in
     let s2 := N.lor 56320 (N.land n 1023) in
     uescape s1 ++ uescape s2)%N.

Definition encode_string (s : pystr) : pystr :=
  [QUOTE] ++ flat_map escape_char s ++ [QUOTE].

Fixpoint encode_items (d : list (pystr * pystr)) : pystr :=
  match d with
  | [] => []
  | [(k, v)] => encode_string k ++ lit ": " ++ encode_string v
  | (k, v) :: r =>
      encode_string k ++ lit ": " ++ encode_string v ++ lit ", "
      ++ encode_items r
  end.

(** [json.dumps(d)] for a dictionary with string keys and string values,
    with the default separators and [ensure_ascii=True]. *)
Definition dumps (d : list (pystr * pystr)) : pystr :=
  lit "{" ++ encode_items d ++ lit "}".

End Json.

(** The text between ["data: "] and the blank line. *)
Definition frame_body (e : event) : pystr :=
  lit "data: " ++ Json.dumps (to_dict e).

(** [f"data: {json.dumps({...})}\n\n"] *)
Definition frame (e : event) : pystr := frame_body e ++ [NL; NL].

(** ** Collaborators *)

(** [str(e)] of a raised exception. *)
Definition exn : Type := pystr.

(** The dictionary returned by [ydl.extract_info]: a key is absent ([None])
    or holds a string. *)
Record info : Type := mkInfo {
  info_title : option pystr;
  info_id : option pystr
}.

(** A row of [video_jobs]:
    [(user_id, video_url, video_title, transcript, summary)]. *)
Record job : Type := mkJob {
  job_user_id : Z;
  job_video_url : pystr;
  job_video_title : pystr;
  job_transcript : pystr;
  job_summary : pystr
}.

(** How the operating system answers during one phase of a run. *)
Record os_oracle : Type := mkOs {
  listdir_raises : option exn;
  remove_raises : pystr -> option exn
}.

Record env : Type := mkEnv {
  (** [SimpleVideoToText()]: the constructor checks ffmpeg and loads the
      models, and may raise. *)
  init_converter : option exn;
  (** [ydl.extract_info(video_url, download=False)] *)
  extract_info : pystr -> exn + info;
  (** [ydl.download([video_url])]: the files it leaves in the working
      directory, and the exception it raises, if any. *)
  ydl_download : pystr -> list pystr * option exn;
  (** Loading the audio, running the model and [processor.decode]. *)
  decode : pystr -> exn + pystr;
  (** [llm.stream(prompt)]: the chunks produced, then exhaustion ([None])
      or an exception. *)
  llm_stream : pystr -> list pystr * option exn;
  (** [llm.invoke(prompt)] *)
  llm_invoke : pystr -> exn + pystr;
  (** The [with get_db_connection() as conn:] block around the INSERT and
      the commit: the exception that leaves it, if any. *)
  db_insert : job -> option exn;
  (** When that block raises: whether [conn.commit()] had returned before,
      so that the exception is the one of [conn.close()] in the [finally]
      block of [get_db_connection]. *)
  db_committed : job -> bool;
  (** Writing a report file under the given folder. *)
  write_report : pystr -> pystr -> option exn;
  (** The operating system while [download_audio] runs. *)
  download_os : os_oracle;
  (** The operating system while the run cleans up. *)
  cleanup_os : os_oracle;
  (** [get_user_by_token] *)
  get_user_by_token : pystr -> option Z
}.

Inductive action : Type :=
| AInit
| AExtractInfo (video_url : pystr)
| AYdlDownload (video_url : pystr)
| ADecode (audio_file : pystr)
| AStream (prompt : pystr)
| AInvoke (prompt : pystr)
| AInsert (row : job)
| AWriteReport (folder text : pystr)
| AListdir
| ARemove (file : pystr).

(** What an observer of a run sees, in order. *)
Inductive item : Type :=
| Yield (e : event)
| Act (a : action).

(** The working directory, the [video_jobs] table and the local variable
    [audio_file] of [generate]. *)
Record store : Type := mkStore {
  fs : list pystr;
  db : list job;
  audio_file : option pystr
}.

Definition set_fs (f : list pystr) (s : store) : store :=
  mkStore f (db s) (audio_file s).

Definition set_db (d : list job) (s : store) : store :=
  mkStore (fs s) d (audio_file s).

Definition set_audio_file (a : option pystr) (s : store) : store :=
  mkStore (fs s) (db s) a.

(** ** The monad of the pipeline *)

Definition M (A : Type) : Type := store -> (exn + A) * store * list item.

Definition ret {A} (a : A) : M A := fun s => (inr a, s, []).

Definition bind {A B} (m : M A) (k : A -> M B) : M B :=
  fun s =>
    match m s with
    | (inl e, s1, o1) => (inl e, s1, o1)
    | (inr a, s1, o1) =>
        match k a s1 with
        | (r, s2, o2) => (r, s2, o1 ++ o2)
        end
    end.

Definition raise {A} (e : exn) : M A := fun s => (inl e, s, []).

(** [try: m  except Exception as e: h e] *)
Definition try_except {A} (m : M A) (h : exn -> M A) : M A :=
  fun s =>
    match m s with
    | (inl e, s1, o1) =>
        match h e s1 with
        | (r, s2, o2) => (r, s2, o1 ++ o2)
        end
    | (inr a, s1, o1) => (inr a, s1, o1)
    end.

(** [try: m  finally: f] *)
Definition try_finally {A} (m : M A) (f : M unit) : M A :=
  fun s =>
    match m s with
    | (r, s1, o1) =>
        match f s1 with
        | (inl e, s2, o2) => (inl e, s2, o1 ++ o2)
        | (inr _, s2, o2) => (r, s2, o1 ++ o2)
        end
    end.

Definition emit (e : event) : M unit := fun s => (inr tt, s, [Yield e]).

Definition act (a : action) : M unit := fun s => (inr tt, s, [Act a]).

Definition get_store : M store := fun s => (inr s, s, []).

Definition modify (f : store -> store) : M unit := fun s => (inr tt, f s, []).

(** An oracle's answer, raised or returned. *)
Definition lift {A} (r : exn + A) : M A :=
  match r with
  | inl e => raise e
  | inr a => ret a
  end.

Definition raise_if (r : option exn) : M unit :=
  match r with
  | Some e => raise e
  | None => ret tt
  end.

Declare Scope py_scope.
Delimit Scope py_scope with py.
Notation "x <- m ;; k" := (bind m (fun x => k))
  (at level 61, m at next level, right associativity) : py_scope.
Notation "m ;; k" := (bind m (fun _ => k))
  (at level 61, right associativity) : py_scope.
Notation "' pat <- m ;; k" := (bind m (fun x => match x with pat => k end))
  (at level 61, pat pattern, m at next level, right associativity) : py_scope.
Open Scope py_scope.

(** [for x in l: body x] *)
Fixpoint for_each {A} (l : list A) (body : A -> M unit) : M unit :=
  match l with
  | [] => ret tt
  | x :: r => body x ;; for_each r body
  end.

Definition events_of (o : list item) : list event :=
  flat_map (fun i => match i with Yield e => [e] | Act _ => [] end) o.

Definition actions_of (o : list item) : list action :=
  flat_map (fun i => match i with Yield _ => [] | Act a => [a] end) o.

(** ** Prompts *)

(** The f-string [prompt] of [generate], before and after the transcript. *)
Definition STREAM_PROMPT_HEAD : pystr :=
  [NL]
  ++ lit "            Please create a comprehensive summary of the following video transcript. "
  ++ [NL]
  ++ lit "            The summary should be medium to large in length, covering all main points, key insights, and important details discussed in the video."
  ++ [NL]
  ++ lit "            Make it informative and well-structured with clear sections where appropriate."
  ++ [NL]
  ++ lit "            Include any important quotes, statistics, or examples mentioned."
  ++ [NL]
  ++ [NL]
  ++ lit "            Transcript:"
  ++ [NL]
  ++ lit "            ".

Definition STREAM_PROMPT_TAIL : pystr :=
  [NL]
  ++ [NL]
  ++ lit "            Summary:"
  ++ [NL]
  ++ lit "            ".

Definition stream_prompt (transcript : pystr) : pystr :=
  STREAM_PROMPT_HEAD ++ transcript ++ STREAM_PROMPT_TAIL.

(** The f-string [prompt] of [generate_summary], before and after the
    transcript. *)
Definition SUMMARY_PROMPT_HEAD : pystr :=
  [NL]
  ++ lit "        Please create a comprehensive summary of the following video transcript. "
  ++ [NL]
  ++ lit "        The summary should be medium to large in length, covering all main points, key insights, and important details discussed in the video."
  ++ [NL]
  ++ lit "        Make it informative and well-structured with clear sections and bullet points where appropriate."
  ++ [NL]
  ++ lit "        Include any important quotes, statistics, or examples mentioned."
  ++ [NL]
  ++ [NL]
  ++ lit "        Transcript:"
  ++ [NL]
  ++ lit "        ".

Definition SUMMARY_PROMPT_TAIL : pystr :=
  [NL]
  ++ [NL]
  ++ lit "        Summary:"
  ++ [NL]
  ++ lit "        ".

Definition summary_prompt (transcript : pystr) : pystr :=
  SUMMARY_PROMPT_HEAD ++ transcript ++ SUMMARY_PROMPT_TAIL.

(** ** Operating system calls *)

Definition TEMP_AUDIO : pystr := lit "temp_audio".

Definition no_such_file (f : pystr) : exn :=
  lit "[Errno 2] No such file or directory: '" ++ f ++ lit "'".

(** [os.listdir('.')] *)
Definition os_listdir (o : os_oracle) : M (list pystr) :=
  act AListdir ;;
  raise_if (listdir_raises o) ;;
  s <- get_store ;;
  ret (dedup (fs s)).

(** [os.remove(f)] *)
Definition os_remove (o : os_oracle) (f : pystr) : M unit :=
  act (ARemove f) ;;
  s <- get_store ;;
  if mem f (fs s) then
    raise_if (remove_raises o f) ;;
    modify (set_fs (remove f (fs s)))
  else raise (no_such_file f).

(** [os.path.exists(f)] *)
Definition os_path_exists (f : pystr) : M bool :=
  s <- get_store ;;
  ret (mem f (fs s)).

(** [try: os.remove(f)  except: pass] *)
Definition remove_quietly (o : os_oracle) (f : pystr) : M unit :=
  try_except (os_remove o f) (fun _ => ret tt).

(** ** video_processor.py, class SimpleVideoToText *)

Section Converter.

Variable E : env.

(** [SimpleVideoToText()] *)
Definition new_converter : M unit :=
  act AInit ;;
  raise_if (init_converter E).

Definition UNKNOWN_VIDEO : pystr := lit "Unknown_Video".
Definition UNKNOWN_ID : pystr := lit "unknown_id".

(** Membership in the character class of [get_video_info]: the characters
    that are not allowed in a file name. *)
Definition illegal_char (c : N) : bool :=
  existsb (N.eqb c) (lit "<>:/\|?*" ++ [QUOTE]).

Definition UNDERSCORE : N := 95%N.

(** [re.sub(r'[<>:..]', '_', title)] *)
Definition re_sub_illegal (title : pystr) : pystr :=
  map (fun c => if illegal_char c then UNDERSCORE else c) title.

(** The two cleaning statements of [get_video_info]:
    the substitution, then [title[:50]]. *)
Definition clean_title (title : pystr) : pystr :=
  firstn 50 (re_sub_illegal title).

Definition get_default (o : option pystr) (d : pystr) : pystr :=
  match o with
  | Some v => v
  | None => d
  end.

Definition get_video_info (video_url : pystr) : M (pystr * pystr) :=
  try_except
    (act (AExtractInfo video_url) ;;
     i <- lift (extract_info E video_url) ;;
     let title := get_default (info_title i) UNKNOWN_VIDEO in
     let video_id := get_default (info_id i) UNKNOWN_ID in
     let title := re_sub_illegal title in
     let title := firstn 50 title in
     ret (title, video_id))
    (fun _ => ret (UNKNOWN_VIDEO, UNKNOWN_ID)).

Definition AUDIO_FILE : pystr := lit "temp_audio.wav".

Definition download_audio (video_url : pystr) : M pystr :=
  let audio_file := AUDIO_FILE in
  files <- os_listdir (download_os E) ;;
  for_each files (fun file =>
    if startswith TEMP_AUDIO file
    then remove_quietly (download_os E) file
    else ret tt) ;;
  act (AYdlDownload video_url) ;;
  (let '(written, failure) := ydl_download E video_url in
   modify (fun s => set_fs (fs s ++ written) s) ;;
   match failure with
   | Some e => raise (lit "Audio download failed: " ++ e)
   | None => ret tt
   end) ;;
  present <- os_path_exists audio_file ;;
  if negb present
  then raise (lit "Audio file download or conversion failed")
  else ret audio_file.

Definition NO_SPEECH : pystr := lit "No clear speech detected in the audio.".

Definition transcribe_audio (audio_file : pystr) : M pystr :=
  transcript <-
    try_except
      (act (ADecode audio_file) ;;
       transcript <- lift (decode E audio_file) ;;
       ret (strip transcript))
      (fun e => raise (lit "Transcription failed: " ++ e)) ;;
  let transcript :=
    if negb (truthy transcript) || (length transcript <? 3)
    then NO_SPEECH
    else transcript in
  ret transcript.

Definition generate_summary (transcript : pystr) : M pystr :=
  let prompt := summary_prompt transcript in
  act (AInvoke prompt) ;;
  lift (llm_invoke E prompt).

Definition TRANSCRIPTION_DIR : pystr := lit "transcription".
Definition SUMMARIES_DIR : pystr := lit "summaries".

(** [save_transcript] and [save_summary]: [os.makedirs(folder,
    exist_ok=True)], then the report is written under [folder]. *)
Definition save_report (folder text : pystr) : M unit :=
  act (AWriteReport folder text) ;;
  raise_if (write_report E folder text) ;;
  modify (fun s => if mem folder (fs s) then s else set_fs (fs s ++ [folder]) s).

Definition save_transcript (transcript video_title video_id : pystr) : M unit :=
  save_report TRANSCRIPTION_DIR transcript.

Definition save_summary (summary video_title video_id : pystr) : M unit :=
  save_report SUMMARIES_DIR summary.

(** [process_video]: the synchronous pipeline. It returns
    [(transcript, summary)], or [(None, None)] after an exception. *)
Definition process_video (video_url : pystr)
  : M (option pystr * option pystr) :=
  try_except
    ('(video_title, video_id) <- get_video_info video_url ;;
     audio_file <- download_audio video_url ;;
     transcript <- transcribe_audio audio_file ;;
     summary <- generate_summary transcript ;;
     save_transcript transcript video_title video_id ;;
     save_summary summary video_title video_id ;;
     present <- os_path_exists audio_file ;;
     (if present then os_remove (cleanup_os E) audio_file else ret tt) ;;
     ret (Some transcript, Some summary))
    (fun _ =>
       files <- os_listdir (cleanup_os E) ;;
       for_each files (fun file =>
         if startswith TEMP_AUDIO file
         then remove_quietly (cleanup_os E) file
         else ret tt) ;;
       ret (None, None)).

End Converter.

(** ** app.py, the streaming endpoint *)

Section Streaming.

Variable E : env.

(** The [with get_db_connection() as conn:] block of [generate]. When the
    block returns, the row is in the table. When it raises, the row is in
    the table all the same if the commit had gone through, that is when the
    exception is the one of the closing; otherwise nothing is saved. *)
Definition insert_job (row : job) : M unit :=
  act (AInsert row) ;;
  match db_insert E row with
  | None => modify (fun s => set_db (db s ++ [row]) s)
  | Some e =>
      (if db_committed E row
       then modify (fun s => set_db (db s ++ [row]) s)
       else ret tt) ;;
      raise e
  end.

(** The loop [for chunk in converter.llm.stream(prompt)]. *)
Fixpoint stream_loop (chunks : list pystr) (summary : pystr) : M pystr :=
  match chunks with
  | [] => ret summary
  | chunk :: rest =>
      let summary := summary ++ chunk in
      emit (SummaryChunk chunk) ;;
      stream_loop rest summary
  end.

Definition stream_summary (prompt : pystr) : M pystr :=
  act (AStream prompt) ;;
  let '(chunks, failure) := llm_stream E prompt in
  summary <- stream_loop chunks [] ;;
  match failure with
  | Some e => raise e
  | None => ret summary
  end.

Section Generate.

Variable user_id : Z.
Variable video_url : pystr.

(** The [try] block of [generate]. *)
Definition generate_try : M unit :=
  emit (Status (lit "Starting video processing...")) ;;
  new_converter E ;;
  emit (Status (lit "Getting video information...")) ;;
  '(video_title, video_id) <- get_video_info E video_url ;;
  emit (Status (lit "Found video: " ++ video_title)) ;;
  emit (Status (lit "Downloading audio...")) ;;
  file <- download_audio E video_url ;;
  modify (set_audio_file (Some file)) ;;
  emit (Status (lit "Transcribing audio to text...")) ;;
  transcript <- transcribe_audio E file ;;
  emit (Transcript transcript) ;;
  emit (Status (lit "Generating AI summary... (Live typing)")) ;;
  let prompt := stream_prompt transcript in
  summary <-
    try_except
      (stream_summary prompt)
      (fun _ =>
         emit (Status (lit "Streaming failed, generating complete summary...")) ;;
         summary <- generate_summary E transcript ;;
         emit (SummaryChunk summary) ;;
         ret summary) ;;
  emit (Status (lit "Saving to database...")) ;;
  insert_job (mkJob user_id video_url video_title transcript summary) ;;
  emit (Complete video_title (lit "Processing completed successfully!")).

(** The first statement of the [finally] block: the audio file that
    [download_audio] returned is removed if it still exists. *)
Definition release_audio_file : M unit :=
  s <- get_store ;;
  match audio_file s with
  | Some file =>
      if truthy file then
        present <- os_path_exists file ;;
        if present then remove_quietly (cleanup_os E) file else ret tt
      else ret tt
  | None => ret tt
  end.

(** The second statement of the [finally] block: the remaining files whose
    name starts with temp_audio are removed; the first exception ends the
    loop and is dropped. *)
Definition sweep_temp_audio : M unit :=
  try_except
    (files <- os_listdir (cleanup_os E) ;;
     for_each files (fun file =>
       if startswith TEMP_AUDIO file
       then os_remove (cleanup_os E) file
       else ret tt))
    (fun _ => ret tt).

(** The [finally] block of [generate]. *)
Definition generate_finally : M unit :=
  release_audio_file ;;
  sweep_temp_audio.

(** The generator [generate], run to exhaustion. *)
Definition generate : M unit :=
  modify (set_audio_file None) ;;
  try_finally
    (try_except generate_try (fun e => emit (Error e)))
    generate_finally.

End Generate.

(** A JSON value of the request body. *)
Inductive jvalue : Type :=
| JString (s : pystr)
| JNumber (n : Z)
| JBool (b : bool)
| JNull.

Record request : Type := mkRequest {
  (** [request.headers.get('Authorization')] *)
  authorization : option pystr;
  (** [request.get_json()]: [None] or a dictionary. *)
  json : option (list (pystr * jvalue))
}.

Inductive response : Type :=
(** [jsonify(body), status] *)
| JsonResponse (body : list (pystr * pystr)) (status : Z)
(** [Response(generate(), mimetype='text/plain', ...)], with the frames the
    generator yields. *)
| StreamResponse (frames : list pystr)
(** An exception that leaves the view function. *)
| ServerError (e : exn).

Fixpoint dict_get (d : list (pystr * jvalue)) (k : pystr) : option jvalue :=
  match d with
  | [] => None
  | (k', v) :: r => if eqb k k' then Some v else dict_get r k
  end.

Definition json_error (message : string) (status : Z) : response :=
  JsonResponse [(lit "error", lit message)] status.

(** [process_video_stream()]: the response, the store after the request and
    what happened meanwhile, in order. *)
Definition process_video_stream (req : request) (s : store)
  : response * store * list item :=
  match authorization req with
  | None => (json_error "No token provided" 401, s, [])
  | Some token =>
    if negb (truthy token) then (json_error "No token provided" 401, s, [])
    else
    match get_user_by_token E (replace (lit "Bearer ") [] token) with
    | None => (json_error "Invalid or expired token" 401, s, [])
    | Some user_id =>
      if (user_id =? 0)%Z then (json_error "Invalid or expired token" 401, s, [])
      else
      match json req with
      | None => (json_error "No JSON data provided" 400, s, [])
      | Some [] => (json_error "No JSON data provided" 400, s, [])
      | Some data =>
        match
          match dict_get data (lit "video_url") with
          | None => inr []
          | Some (JString u) => inr (strip u)
          | Some _ => inl (lit "object has no attribute 'strip'")
          end
        with
        | inl e => (ServerError e, s, [])
        | inr video_url =>
          if negb (truthy video_url)
          then (json_error "Video URL is required" 400, s, [])
          else
            match generate user_id video_url s with
            | (_, s', o) => (StreamResponse (map frame (events_of o)), s', o)
            end
        end
      end
    end
  end.

End Streaming.

(** ** The generator and its consumer

    [generate] above is the run of the generator for a consumer that reads
    to the end. A consumer may also stop earlier: when the response is
    closed, the generator is closed at the [yield] where it is suspended.
    [GeneratorExit] is raised there, which [except Exception] does not
    catch, so that only the [finally] block still runs. *)

(** What ends a piece of the generator before its last statement. *)
Inductive stop : Type :=
(** an exception that [except Exception] catches *)
| Raised (e : exn)
(** [GeneratorExit] *)
| Closed.

(** The consumer: the number of events that it still takes before it closes
    the generator, or [None] when it reads to the end. *)
Definition budget : Type := option nat.

Definition G (A : Type) : Type :=
  budget -> store -> (stop + A) * budget * store * list item.

Definition gret {A} (a : A) : G A := fun b s => (inr a, b, s, []).

Definition gbind {A B} (m : G A) (k : A -> G B) : G B :=
  fun b s =>
    match m b s with
    | (inl x, b1, s1, o1) => (inl x, b1, s1, o1)
    | (inr a, b1, s1, o1) =>
        match k a b1 s1 with
        | (r, b2, s2, o2) => (r, b2, s2, o1 ++ o2)
        end
    end.

(** A statement without a [yield]. *)
Definition glift {A} (m : M A) : G A :=
  fun b s =>
    match m s with
    | (inl e, s1, o) => (inl (Raised e), b, s1, o)
    | (inr a, s1, o) => (inr a, b, s1, o)
    end.

(** [yield]: the event goes to the consumer; when this is the last event
    that the consumer takes, the generator is closed here. *)
Definition gyield (e : event) : G unit :=
  fun b s =>
    match b with
    | None => (inr tt, None, s, [Yield e])
    | Some 0 => (inl Closed, Some 0, s, [])
    | Some 1 => (inl Closed, Some 0, s, [Yield e])
    | Some (S n) => (inr tt, Some n, s, [Yield e])
    end.

(** [try: m  except Exception as e: h e] *)
Definition gtry_except {A} (m : G A) (h : exn -> G A) : G A :=
  fun b s =>
    match m b s with
    | (inl (Raised e), b1, s1, o1) =>
        match h e b1 s1 with
        | (r, b2, s2, o2) => (r, b2, s2, o1 ++ o2)
        end
    | (r, b1, s1, o1) => (r, b1, s1, o1)
    end.

(** [try: m  finally: f], for a [finally] block without a [yield]. *)
Definition gtry_finally {A} (m : G A) (f : M unit) : G A :=
  fun b s =>
    match m b s with
    | (r, b1, s1, o1) =>
        match f s1 with
        | (inl e, s2, o2) => (inl (Raised e), b1, s2, o1 ++ o2)
        | (inr _, s2, o2) => (r, b1, s2, o1 ++ o2)
        end
    end.

Declare Scope gen_scope.
Delimit Scope gen_scope with gen.
Notation "x <- m ;; k" := (gbind m (fun x => k))
  (at level 61, m at next level, right associativity) : gen_scope.
Notation "m ;; k" := (gbind m (fun _ => k))
  (at level 61, right associativity) : gen_scope.
Notation "' pat <- m ;; k" := (gbind m (fun x => match x with pat => k end))
  (at level 61, pat pattern, m at next level, right associativity)
  : gen_scope.

Module Gen.

Section Generator.

Variable E : env.

(** The loop [for chunk in converter.llm.stream(prompt)]. *)
Fixpoint stream_loop (chunks : list pystr) (summary : pystr) : G pystr :=
  match chunks with
  | [] => gret summary
  | chunk :: rest =>
      let summary := summary ++ chunk in
      (gyield (SummaryChunk chunk) ;;
       stream_loop rest summary)%gen
  end.

Definition stream_summary (prompt : pystr) : G pystr :=
  (glift (act (AStream prompt)) ;;
   let '(chunks, failure) := llm_stream E prompt in
   summary <- stream_loop chunks [] ;;
   match failure with
   | Some e => glift (raise e)
   | None => gret summary
   end)%gen.

Variable user_id : Z.
Variable video_url : pystr.

(** The [try] block of [generate]. *)
Definition generate_try : G unit :=
  (gyield (Status (lit "Starting video processing...")) ;;
   glift (new_converter E) ;;
   gyield (Status (lit "Getting video information...")) ;;
   '(video_title, video_id) <- glift (get_video_info E video_url) ;;
   gyield (Status (lit "Found video: " ++ video_title)) ;;
   gyield (Status (lit "Downloading audio...")) ;;
   file <- glift (file <- download_audio E video_url ;;
                  modify (set_audio_file (Some file)) ;;
                  ret file)%py ;;
   gyield (Status (lit "Transcribing audio to text...")) ;;
   transcript <- glift (transcribe_audio E file) ;;
   gyield (Transcript transcript) ;;
   gyield (Status (lit "Generating AI summary... (Live typing)")) ;;
   let prompt := stream_prompt transcript in
   summary <-
     gtry_except
       (stream_summary prompt)
       (fun _ =>
          gyield (Status (lit "Streaming failed, generating complete summary...")) ;;
          summary <- glift (generate_summary E transcript) ;;
          gyield (SummaryChunk summary) ;;
          gret summary) ;;
   gyield (Status (lit "Saving to database...")) ;;
   glift (insert_job E
            (mkJob user_id video_url video_title transcript summary)) ;;
   gyield (Complete video_title (lit "Processing completed successfully!")))%gen.

(** The generator [generate]. *)
Definition generate : G unit :=
  (glift (modify (set_audio_file None)) ;;
   gtry_finally
     (gtry_except generate_try (fun e => gyield (Error e)))
     (generate_finally E))%gen.

End Generator.

End Gen.

(** The run of a generator for a consumer that takes the events its budget
    allows: a generator that is closed before its first event has not
    started, and nothing of it runs. *)
Definition consume (b : budget) (g : G unit) (s : store)
  : (stop + unit) * store * list item :=
  match b with
  | Some 0 => (inl Closed, s, [])
  | _ => match g b s with (r, _, s', o) => (r, s', o) end
  end.

(** The events that a consumer takes of those that a run offers. *)
Definition taken {A} (b : budget) (l : list A) : list A :=
  match b with
  | None => l
  | Some n => firstn n l
  end.

(** ** Reading the stream (spec, section 4.2) *)

(** A client splits the received text on a double newline. *)
Fixpoint split_frames_from (acc s : pystr) : list pystr :=
  match s with
  | [] => [rev acc]
  | c :: r =>
      match r with
      | d :: r' =>
          if (c =? NL)%N && (d =? NL)%N
          then rev acc :: split_frames_from [] r'
          else split_frames_from (c :: acc) r
      | [] => [rev (c :: acc)]
      end
  end.

(** ** Reading a frame (spec, section 4.2)

    What a client does with the text of one frame: it takes the prefix
    off, parses the rest as a JSON object whose values are strings, and
    reads the event by its [type]. A client holds a string as UTF-16 code
    units, which is what the escapes of JSON denote. *)

Module Client.

(** The value of a hexadecimal digit. *)
Definition unhex (c : N) : option N :=
  (if (48 <=? c) && (c <=? 57) then Some (c - 48)
   else if (97 <=? c) && (c <=? 102) then Some (c - 87)
   else if (65 <=? c) && (c <=? 70) then Some (c - 55)
   else None)%N.

(** The character that the escape of a backslash and [c] denotes. *)
Definition unescape (c : N) : option N :=
  (if c =? 34 then Some 34
   else if c =? 92 then Some 92
   else if c =? 47 then Some 47
   else if c =? 98 then Some 8
   else if c =? 102 then Some 12
   else if c =? 110 then Some 10
   else if c =? 114 then Some 13
   else if c =? 116 then Some 9
   else None)%N.

(** The characters of a JSON string after its opening quote, up to the
    closing quote: the code units read, and the text that follows. A
    control character that is not escaped is refused. *)
Fixpoint read_chars (acc s : pystr) {struct s} : option (pystr * pystr) :=
  match s with
  | [] => None
  | c :: r =>
      if (c =? QUOTE)%N then Some (rev acc, r)
      else if (c =? BACKSLASH)%N then
        match r with
        | [] => None
        | x :: r1 =>
            if (x =? 117)%N then
              match r1 with
              | h3 :: h2 :: h1 :: h0 :: r2 =>
                  match unhex h3, unhex h2, unhex h1, unhex h0 with
                  | Some d3, Some d2, Some d1, Some d0 =>
                      read_chars
                        ((((d3 * 16 + d2) * 16 + d1) * 16 + d0)%N :: acc) r2
                  | _, _, _, _ => None
                  end
              | _ => None
              end
            else
              match unescape x with
              | Some v => read_chars (v :: acc) r1
              | None => None
              end
        end
      else if (c <? 32)%N then None
      else read_chars (c :: acc) r
  end.

Definition read_string (s : pystr) : option (pystr * pystr) :=
  match s with
  | c :: r => if (c =? QUOTE)%N then read_chars [] r else None
  | [] => None
  end.

(** The white space of JSON: space, tab, line feed, carriage return. *)
Definition is_ws (c : N) : bool :=
  ((c =? 32) || (c =? 9) || (c =? 10) || (c =? 13))%N.

Fixpoint skip_ws (s : pystr) : pystr :=
  match s with
  | c :: r => if is_ws c then skip_ws r else s
  | [] => []
  end.

(** The members of an object, from the first key to the closing brace. *)
Fixpoint read_members (fuel : nat) (acc : list (pystr * pystr)) (s : pystr)
  : option (list (pystr * pystr) * pystr) :=
  match fuel with
  | O => None
  | S fuel =>
      match read_string (skip_ws s) with
      | None => None
      | Some (k, s1) =>
          match skip_ws s1 with
          | colon :: s2 =>
              if (colon =? 58)%N then
                match read_string (skip_ws s2) with
                | None => None
                | Some (v, s3) =>
                    match skip_ws s3 with
                    | c :: s4 =>
                        if (c =? 44)%N
                        then read_members fuel ((k, v) :: acc) s4
                        else if (c =? 125)%N
                        then Some (rev ((k, v) :: acc), s4)
                        else None
                    | [] => None
                    end
                end
              else None
          | [] => None
          end
      end
  end.

(** The object that a JSON text denotes, when the text is one object whose
    values are strings and nothing else. *)
Definition loads (s : pystr) : option (list (pystr * pystr)) :=
  match skip_ws s with
  | brace :: r =>
      if (brace =? 123)%N then
        match
          match skip_ws r with
          | c :: r' =>
              if (c =? 125)%N then Some ([], r')
              else read_members (length r) [] r
          | [] => None
          end
        with
        | Some (d, rest) =>
            match skip_ws rest with
            | [] => Some d
            | _ :: _ => None
            end
        | None => None
        end
      else None
  | [] => None
  end.

Fixpoint field (d : list (pystr * pystr)) (k : pystr) : option pystr :=
  match d with
  | [] => None
  | (k', v) :: r => if eqb k k' then Some v else field r k
  end.

(** The event that an object of the stream carries (spec, section 4.2:
    an object with a [type] and the fields of that type). *)
Definition read_event (d : list (pystr * pystr)) : option event :=
  match field d (lit "type") with
  | None => None
  | Some kind =>
      if eqb kind (lit "status")
      then option_map Status (field d (lit "message"))
      else if eqb kind (lit "transcript")
      then option_map Transcript (field d (lit "data"))
      else if eqb kind (lit "summary_chunk")
      then option_map SummaryChunk (field d (lit "data"))
      else if eqb kind (lit "complete")
      then match field d (lit "video_title"), field d (lit "message") with
           | Some t, Some m => Some (Complete t m)
           | _, _ => None
           end
      else if eqb kind (lit "error")
      then option_map Error (field d (lit "message"))
      else None
  end.

(** The event of one frame of the response, without its blank line. *)
Definition read_frame (text : pystr) : option event :=
  if startswith (lit "data: ") text
  then match loads (skipn 6 text) with
       | Some d => read_event d
       | None => None
       end
  else None.

End Client.

(** The UTF-16 code units of a code point: itself below 0x10000, a
    surrogate pair above (the quotient is below 1024 for every code point
    of Unicode). *)
Definition utf16_units (c : N) : pystr :=
  (if c <? 65536 then [c]
   else [55296 + ((c - 65536) / 1024) mod 1024;
         56320 + (c - 65536) mod 1024])%N.

Definition utf16 (s : pystr) : pystr := flat_map utf16_units s.

(** An event as a client holds it. *)
Definition utf16_event (e : event) : event :=
  match e with
  | Status m => Status (utf16 m)
  | Transcript d => Transcript (utf16 d)
  | SummaryChunk d => SummaryChunk (utf16 d)
  | Complete t m => Complete (utf16 t) (utf16 m)
  | Error m => Error (utf16 m)
  end.

(** The text holds code points of the basic plane only. *)
Definition bmp (s : pystr) : bool := forallb (fun c => (c <? 65536)%N) s.

Definition bmp_event (e : event) : bool :=
  match e with
  | Status m | Transcript m | SummaryChunk m | Error m => bmp m
  | Complete t m => bmp t && bmp m
  end.

(** A dictionary as a client holds it. *)
Definition utf16_dict (d : list (pystr * pystr)) : list (pystr * pystr) :=
  map (fun kv => (utf16 (fst kv), utf16 (snd kv))) d.

(** ** Concrete collaborators *)

(** An operating system on which no call fails. *)
Definition calm_os : os_oracle := mkOs None (fun _ => None).

Definition empty_store : store := mkStore [] [] None.

(** The scenario of the spec: metadata with the title Test Video, the
    transcript hello world, three chunks from the incremental summarizer. *)
Definition scenario_env : env :=
  mkEnv None
    (fun _ => inr (mkInfo (Some (lit "Test Video")) (Some (lit "abc123"))))
    (fun _ => ([AUDIO_FILE], None))
    (fun _ => inr (lit "hello world"))
    (fun _ => ([lit "Hello"; lit " world"; lit "."], None))
    (fun _ => inr (lit "Hello world."))
    (fun _ => None)
    (fun _ => false)
    (fun _ _ => None)
    calm_os calm_os
    (fun _ => Some 1%Z).

Definition SCENARIO_URL : pystr := lit "https://youtu.be/abc123".

(** ** Vocabulary of the statements *)

(** [sub] occurs in [s]. *)
Definition substring (sub s : pystr) : Prop :=
  exists a b, s = a ++ sub ++ b.

(** The title that [get_video_info] derives under [E]. *)
Definition title_of (E : env) (video_url : pystr) : pystr :=
  match extract_info E video_url with
  | inl _ => UNKNOWN_VIDEO
  | inr i => clean_title (get_default (info_title i) UNKNOWN_VIDEO)
  end.

(** The id that [get_video_info] derives under [E]. *)
Definition id_of (E : env) (video_url : pystr) : pystr :=
  match extract_info E video_url with
  | inl _ => UNKNOWN_ID
  | inr i => get_default (info_id i) UNKNOWN_ID
  end.

(** The transcript that [transcribe_audio] derives from the decoded text. *)
Definition transcript_of (raw : pystr) : pystr :=
  if length (strip raw) <? 3 then NO_SPEECH else strip raw.

(** The sanitisation as the spec words it: the illegal characters are
    stripped, then the title is cut to 50 code points. *)
Definition spec_sanitize_title (title : pystr) : pystr :=
  firstn 50 (filter (fun c => negb (illegal_char c)) title).

Definition nonterminal (e : event) : bool := negb (is_terminal e).

(** ** The run as a decision tree

    What [generate] yields and saves, read off the answers of the
    collaborators; [downloaded] is the outcome of [download_audio]. *)

Definition STARTING : pystr := lit "Starting video processing...".
Definition GETTING_INFO : pystr := lit "Getting video information...".
Definition FOUND_VIDEO : pystr := lit "Found video: ".
Definition DOWNLOADING : pystr := lit "Downloading audio...".
Definition TRANSCRIBING : pystr := lit "Transcribing audio to text...".
Definition GENERATING : pystr := lit "Generating AI summary... (Live typing)".
Definition STREAMING_FAILED : pystr :=
  lit "Streaming failed, generating complete summary...".
Definition SAVING : pystr := lit "Saving to database...".
Definition COMPLETED : pystr := lit "Processing completed successfully!".
Definition TRANSCRIPTION_FAILED : pystr := lit "Transcription failed: ".

(** The events before the terminal one, and how the [try] block ends: with
    an exception, together with the rows that the table has gained all the
    same, or with the saved row. *)
Definition outcome : Type := list event * (exn * list job + job).

Definition prepend (before : list event) (oc : outcome) : outcome :=
  (before ++ fst oc, snd oc).

Definition save_outcome (E : env) (row : job) : outcome :=
  ([Status SAVING],
   match db_insert E row with
   | Some e => inl (e, if db_committed E row then [row] else [])
   | None => inr row
   end).

Definition fallback_outcome (E : env) (row : pystr -> job)
  (transcript : pystr) : outcome :=
  prepend [Status STREAMING_FAILED]
    match llm_invoke E (summary_prompt transcript) with
    | inl e => ([], inl (e, []))
    | inr summary => prepend [SummaryChunk summary] (save_outcome E (row summary))
    end.

Definition summary_outcome (E : env) (row : pystr -> job)
  (transcript : pystr) : outcome :=
  let chunks := fst (llm_stream E (stream_prompt transcript)) in
  prepend (map SummaryChunk chunks)
    match snd (llm_stream E (stream_prompt transcript)) with
    | None => save_outcome E (row (concat chunks))
    | Some _ => fallback_outcome E row transcript
    end.

Definition transcript_outcome (E : env) (row : pystr -> pystr -> job)
  (file : pystr) : outcome :=
  prepend [Status TRANSCRIBING]
    match decode E file with
    | inl e => ([], inl (TRANSCRIPTION_FAILED ++ e, []))
    | inr raw =>
        let transcript := transcript_of raw in
        prepend [Transcript transcript; Status GENERATING]
          (summary_outcome E (row transcript) transcript)
    end.

Definition pipeline_outcome (E : env) (user_id : Z) (video_url : pystr)
  (downloaded : exn + pystr) : outcome :=
  prepend [Status STARTING]
    match init_converter E with
    | Some e => ([], inl (e, []))
    | None =>
        let video_title := title_of E video_url in
        prepend [Status GETTING_INFO; Status (FOUND_VIDEO ++ video_title);
                 Status DOWNLOADING]
          match downloaded with
          | inl e => ([], inl (e, []))
          | inr file =>
              transcript_outcome E (mkJob user_id video_url video_title) file
          end
    end.

Definition terminal_of (r : exn * list job + job) : event :=
  match r with
  | inl (e, _) => Error e
  | inr row => Complete (job_video_title row) COMPLETED
  end.

Definition saved_of (r : exn * list job + job) : list job :=
  match r with
  | inl (_, rows) => rows
  | inr row => [row]
  end.

Definition status_of (r : exn * list job + job) : exn + unit :=
  match r with
  | inl (e, _) => inl e
  | inr _ => inr tt
  end.

Definition completion_of (r : exn * list job + job) : list event :=
  match r with
  | inl _ => []
  | inr row => [Complete (job_video_title row) COMPLETED]
  end.

(** From the store [s], the computation [m] ends as [oc] says. *)
Definition runs_to (m : M unit) (s : store) (oc : outcome) : Prop :=
  exists s' o,
    m s = (status_of (snd oc), s', o)
    /\ events_of o = fst oc ++ completion_of (snd oc)
    /\ db s' = db s ++ saved_of (snd oc)
    /\ exists o', o = o' ++ map Yield (completion_of (snd oc)).

(** A computation that yields nothing and leaves the table alone. *)
Definition backstage {A} (m : M A) : Prop :=
  forall s,
    db (snd (fst (m s))) = db s /\ events_of (snd (m s)) = [].

(** The outcome of [download_audio] at the entry of a run. *)
Definition downloaded (E : env) (video_url : pystr) (s : store) : exn + pystr :=
  fst (fst (download_audio E video_url (set_audio_file None s))).

(** ** The scenario of the spec *)

Definition SCENARIO_TITLE : pystr := lit "Test Video".
Definition SCENARIO_TRANSCRIPT : pystr := lit "hello world".
Definition SCENARIO_CHUNKS : list pystr := [lit "Hello"; lit " world"; lit "."].
Definition SCENARIO_SUMMARY : pystr := lit "Hello world.".

Definition scenario_job (user_id : Z) : job :=
  mkJob user_id SCENARIO_URL SCENARIO_TITLE SCENARIO_TRANSCRIPT
    SCENARIO_SUMMARY.

(** The event sequence that the spec expects of the scenario: three status
    events before the transcript. *)
Definition spec_scenario_events (events : list event) : Prop :=
  exists m1 m2 m3 m4 m5 m6,
    events
    = [Status m1; Status m2; Status m3; Transcript SCENARIO_TRANSCRIPT;
       Status m4] ++ map SummaryChunk SCENARIO_CHUNKS
      ++ [Status m5; Complete SCENARIO_TITLE m6].

(** A request of an authenticated user. *)
Definition request_for (video_url : pystr) : request :=
  mkRequest (Some (lit "Bearer token"))
    (Some [(lit "video_url", JString video_url)]).


(** ** Variations of an environment *)

Definition with_extract_info (x : pystr -> exn + info) (E : env) : env :=
  mkEnv (init_converter E) x (ydl_download E) (decode E) (llm_stream E)
    (llm_invoke E) (db_insert E) (db_committed E) (write_report E) (download_os E)
    (cleanup_os E) (get_user_by_token E).

Definition with_ydl_download (x : pystr -> list pystr * option exn) (E : env)
  : env :=
  mkEnv (init_converter E) (extract_info E) x (decode E) (llm_stream E)
    (llm_invoke E) (db_insert E) (db_committed E) (write_report E) (download_os E)
    (cleanup_os E) (get_user_by_token E).

Definition with_decode (x : pystr -> exn + pystr) (E : env) : env :=
  mkEnv (init_converter E) (extract_info E) (ydl_download E) x (llm_stream E)
    (llm_invoke E) (db_insert E) (db_committed E) (write_report E) (download_os E)
    (cleanup_os E) (get_user_by_token E).

Definition with_llm_stream (x : pystr -> list pystr * option exn) (E : env)
  : env :=
  mkEnv (init_converter E) (extract_info E) (ydl_download E) (decode E) x
    (llm_invoke E) (db_insert E) (db_committed E) (write_report E) (download_os E)
    (cleanup_os E) (get_user_by_token E).

Definition with_llm_invoke (x : pystr -> exn + pystr) (E : env) : env :=
  mkEnv (init_converter E) (extract_info E) (ydl_download E) (decode E)
    (llm_stream E) x (db_insert E) (db_committed E) (write_report E) (download_os E)
    (cleanup_os E) (get_user_by_token E).

Definition with_cleanup_os (x : os_oracle) (E : env) : env :=
  mkEnv (init_converter E) (extract_info E) (ydl_download E) (decode E)
    (llm_stream E) (llm_invoke E) (db_insert E) (db_committed E)
    (write_report E) (download_os E) x (get_user_by_token E).

(** Metadata whose title holds a colon. *)
Definition colon_env : env :=
  with_extract_info
    (fun _ => inr (mkInfo (Some (lit "a:b")) (Some (lit "abc123"))))
    scenario_env.

(** ** Runs in which the incremental summarizer raises *)

Definition STREAM_DOWN : exn := lit "stream closed".

(** The stream raises before its first chunk; the one-shot summarizer
    answers. *)
Definition broken_stream_env : env :=
  with_llm_stream (fun _ => ([], Some STREAM_DOWN)) scenario_env.

(** The stream raises after one chunk. *)
Definition half_stream_env : env :=
  with_llm_stream (fun _ => ([lit "Hel"], Some STREAM_DOWN)) scenario_env.

(** The stream raises, and the one-shot summarizer returns the empty text. *)
Definition mute_fallback_env : env :=
  with_llm_invoke (fun _ => inr []) broken_stream_env.

(** The stream raises, and so does the one-shot summarizer. *)
Definition dead_fallback_env : env :=
  with_llm_invoke (fun _ => inl (lit "model unavailable")) broken_stream_env.

Definition is_nonempty_chunk (e : event) : bool :=
  match e with
  | SummaryChunk (_ :: _) => true
  | _ => false
  end.

(** ** Runs in which the metadata resolution raises *)

Definition no_metadata_env : env :=
  with_extract_info (fun _ => inl (lit "Video unavailable")) scenario_env.

(** The metadata resolution raises, the download succeeds and the decoding
    raises. *)
Definition no_metadata_no_speech_env : env :=
  with_decode (fun _ => inl (lit "no audio stream")) no_metadata_env.

(** ** Vocabulary of the frames *)

(** The printable ASCII characters, from the space to the tilde. *)
Definition printable (c : N) : bool := ((32 <=? c) && (c <=? 126))%N.

(** The five values of the field [type]. *)
Definition KINDS : list pystr :=
  [lit "status"; lit "transcript"; lit "summary_chunk"; lit "complete";
   lit "error"].

(** The text that the client of a stream receives. *)
Definition response_text (frames : list pystr) : pystr := concat frames.

(** The framing as the spec words it: the JSON object, then a blank line. *)
Definition spec_frame (e : event) : pystr :=
  Json.dumps (to_dict e) ++ [NL; NL].

(** ** Vocabulary of the cleanup *)

Definition is_listdir (a : action) : bool :=
  match a with AListdir => true | _ => false end.

(** The items that a cleanup may log: calls of [os.remove]. *)
Definition is_remove_item (i : item) : bool :=
  match i with
  | Act (ARemove _) => true
  | _ => false
  end.

(** A computation that logs nothing but items that satisfy [p]. *)
Definition logs_only {A} (p : item -> bool) (m : M A) : Prop :=
  forall s, forallb p (snd (m s)) = true.

(** An operating system that refuses every removal. *)
Definition stubborn_os : os_oracle :=
  mkOs None (fun _ => Some (lit "[Errno 13] Permission denied")).

(** The scenario on an operating system that refuses the removals of the
    cleanup. *)
Definition stubborn_env : env := with_cleanup_os stubborn_os scenario_env.

Definition LEFTOVER : pystr := lit "temp_audio.webm".

(** The scenario with a download that leaves a second artifact. *)
Definition leftover_env : env :=
  with_ydl_download (fun _ => ([LEFTOVER; AUDIO_FILE], None)) scenario_env.

(** ** Vocabulary of the further properties *)

(** When [P] holds of the store before [m], [Q] holds of the value and the
    store when [m] returns, and [X] of the exception and the store when it
    raises. *)
Definition triple {A} (P : store -> Prop) (m : M A)
  (Q : A -> store -> Prop) (X : exn -> store -> Prop) : Prop :=
  forall s, P s ->
    match m s with
    | (inr a, s', _) => Q a s'
    | (inl e, s', _) => X e s'
    end.

(** A name that the sweeps take for a temporary audio artifact. *)
Definition temp_name (f : pystr) : bool := startswith TEMP_AUDIO f.

(** The files that [ydl.download] leaves. *)
Definition written (E : env) (video_url : pystr) : list pystr :=
  fst (ydl_download E video_url).

(** A download that raises. *)
Definition failing_download_env : env :=
  with_ydl_download (fun _ => ([], Some (lit "HTTP Error 403"))) scenario_env.

(** The payloads of the [summary_chunk] events, in order: what a client of
    the stream assembles. *)
Definition chunks_of (events : list event) : list pystr :=
  flat_map (fun e => match e with SummaryChunk d => [d] | _ => [] end) events.

(** The payloads of the [transcript] events. *)
Definition transcripts_of (events : list event) : list pystr :=
  flat_map (fun e => match e with Transcript d => [d] | _ => [] end) events.

(** The events of a run up to the start of the summarization. *)
Definition opening (video_title transcript : pystr) : list event :=
  [Status STARTING; Status GETTING_INFO; Status (FOUND_VIDEO ++ video_title);
   Status DOWNLOADING; Status TRANSCRIBING; Transcript transcript;
   Status GENERATING].

(** The files of [files] that are not temporary audio artifacts are still
    in the directory, and the local [audio_file], when set, names an
    artifact. *)
Definition keeps_others (files : list pystr) (s : store) : Prop :=
  (forall f, In f files -> temp_name f = false -> In f (fs s))
  /\ match audio_file s with
     | Some file => temp_name file = true
     | None => True
     end.

(** ** app.py, the synchronous endpoint *)

(** [type(v).__name__] of a JSON value that is not a string. *)
Definition type_name (v : jvalue) : pystr :=
  match v with
  | JString _ => lit "str"
  | JNumber _ => lit "int"
  | JBool _ => lit "bool"
  | JNull => lit "NoneType"
  end.

(** [str(e)] of the AttributeError that [v.strip()] raises. *)
Definition no_strip (v : jvalue) : exn :=
  lit "'" ++ type_name v ++ lit "' object has no attribute 'strip'".

Definition PROCESSED : pystr := lit "Video processed successfully".

(** The body of the 200 answer of the route. *)
Definition processed_body (video_title transcript summary : pystr)
  : list (pystr * pystr) :=
  [(lit "message", PROCESSED); (lit "video_title", video_title);
   (lit "transcript", transcript); (lit "summary", summary)].

Section Route.

Variable E : env.

(** The [try] block of the route [process_video] of app.py; an exception
    of the insertion is a [sqlite3.Error] and is answered inside. *)
Definition route_try (user_id : Z) (data : option (list (pystr * jvalue)))
  : M response :=
  match data with
  | None | Some [] => ret (json_error "No JSON data provided" 400)
  | Some data =>
      video_url <-
        match dict_get data (lit "video_url") with
        | None => ret []
        | Some (JString u) => ret (strip u)
        | Some v => raise (no_strip v)
        end ;;
      if negb (truthy video_url)
      then ret (json_error "Video URL is required" 400)
      else
        new_converter E ;;
        '(transcript, summary) <- process_video E video_url ;;
        '(video_title, _) <- get_video_info E video_url ;;
        match transcript, summary with
        | Some transcript, Some summary =>
            if truthy transcript && truthy summary
            then
              try_except
                (insert_job E
                   (mkJob user_id video_url video_title transcript summary) ;;
                 ret (JsonResponse
                        (processed_body video_title transcript summary) 200))
                (fun _ => ret (json_error "Database error occurred" 500))
            else ret (json_error "Failed to process video" 500)
        | _, _ => ret (json_error "Failed to process video" 500)
        end
  end.

(** The route [process_video] of app.py: the response, the store after the
    request and what happened meanwhile. *)
Definition process_video_route (req : request) (s : store)
  : response * store * list item :=
  match authorization req with
  | None => (json_error "No token provided" 401, s, [])
  | Some token =>
    if negb (truthy token) then (json_error "No token provided" 401, s, [])
    else
    match get_user_by_token E (replace (lit "Bearer ") [] token) with
    | None => (json_error "Invalid or expired token" 401, s, [])
    | Some user_id =>
      if (user_id =? 0)%Z
      then (json_error "Invalid or expired token" 401, s, [])
      else
        match route_try user_id (json req) s with
        | (inr r, s', o) => (r, s', o)
        | (inl e, s', o) =>
            (JsonResponse
               [(lit "error", lit "Video processing failed: " ++ e)] 500,
             s', o)
        end
    end
  end.

End Route.

(** ** app.py, the accounts *)

(** An exception, by the class that the handlers of app.py tell apart. *)
Inductive exc : Type :=
(** [sqlite3.IntegrityError] *)
| IntegrityError (msg : pystr)
(** another [sqlite3.Error] *)
| SqliteError (msg : pystr)
(** another [Exception] *)
| OtherError (msg : pystr).

(** [isinstance(e, sqlite3.Error)] *)
Definition is_sqlite_error (e : exc) : bool :=
  match e with
  | IntegrityError _ | SqliteError _ => true
  | OtherError _ => false
  end.

(** A row of [users]: [(id, username, email, password)]. *)
Record account : Type := mkAccount {
  account_id : Z;
  account_username : pystr;
  account_email : pystr;
  account_password : pystr
}.

(** What the database sees of a request, in order. *)
Inductive db_op : Type :=
| OConnect
| OPragma (statement : pystr)
| OInsertUser (username email password : pystr)
| OSelectUser (username : pystr)
| OCommit
| ORollback
| OClose.

(** The collaborators of [register] and [login]. *)
Record db_oracle : Type := mkDb {
  (** [sqlite3.connect(...)] *)
  connect_raises : option exc;
  (** [conn.execute(statement)] of a PRAGMA *)
  pragma_raises : pystr -> option exc;
  (** The INSERT into [users], given the rows that the connection sees: it
      raises, or gives the id of the new row. *)
  insert_user : list account -> pystr -> pystr -> pystr -> exc + Z;
  (** The SELECT on [users] *)
  select_raises : option exc;
  (** [conn.commit()], [conn.rollback()] and [conn.close()] *)
  commit_raises : option exc;
  rollback_raises : option exc;
  close_raises : option exc;
  (** [bcrypt.hashpw(password.encode('utf-8'), bcrypt.gensalt())] *)
  hashpw : pystr -> exc + pystr;
  (** [bcrypt.checkpw(password.encode('utf-8'), hashed)] *)
  checkpw : pystr -> pystr -> exc + bool;
  (** [jwt.encode] of the payload with this [user_id] *)
  jwt_encode : Z -> exc + pystr
}.

(** The table [users] as committed, and the rows that the open connection
    has inserted and not committed. *)
Record tables : Type := mkTables {
  users : list account;
  pending : list account
}.

Definition D (A : Type) : Type := tables -> (exc + A) * tables * list db_op.

Definition dret {A} (a : A) : D A := fun s => (inr a, s, []).

Definition dbind {A B} (m : D A) (k : A -> D B) : D B :=
  fun s =>
    match m s with
    | (inl e, s1, o1) => (inl e, s1, o1)
    | (inr a, s1, o1) =>
        match k a s1 with
        | (r, s2, o2) => (r, s2, o1 ++ o2)
        end
    end.

Definition draise {A} (e : exc) : D A := fun s => (inl e, s, []).

(** [try: m  except Exception as e: h e]; a handler for one class raises
    the others again. *)
Definition dtry_except {A} (m : D A) (h : exc -> D A) : D A :=
  fun s =>
    match m s with
    | (inl e, s1, o1) =>
        match h e s1 with
        | (r, s2, o2) => (r, s2, o1 ++ o2)
        end
    | (inr a, s1, o1) => (inr a, s1, o1)
    end.

(** [try: m  finally: f] *)
Definition dtry_finally {A} (m : D A) (f : D unit) : D A :=
  fun s =>
    match m s with
    | (r, s1, o1) =>
        match f s1 with
        | (inl e, s2, o2) => (inl e, s2, o1 ++ o2)
        | (inr _, s2, o2) => (r, s2, o1 ++ o2)
        end
    end.

Definition dop (o : db_op) : D unit := fun s => (inr tt, s, [o]).

Definition dget : D tables := fun s => (inr s, s, []).

Definition dmodify (f : tables -> tables) : D unit :=
  fun s => (inr tt, f s, []).

Definition dlift {A} (r : exc + A) : D A :=
  match r with
  | inl e => draise e
  | inr a => dret a
  end.

Definition draise_if (r : option exc) : D unit :=
  match r with
  | Some e => draise e
  | None => dret tt
  end.

Declare Scope db_scope.
Delimit Scope db_scope with db.
Notation "x <- m ;; k" := (dbind m (fun x => k))
  (at level 61, m at next level, right associativity) : db_scope.
Notation "m ;; k" := (dbind m (fun _ => k))
  (at level 61, right associativity) : db_scope.

Definition PRAGMA_JOURNAL : pystr := lit "PRAGMA journal_mode=WAL;".
Definition PRAGMA_TIMEOUT : pystr := lit "PRAGMA busy_timeout=30000;".
Definition PRAGMA_SYNCHRONOUS : pystr := lit "PRAGMA synchronous=NORMAL;".

Section Accounts.

Variable W : db_oracle.

(** [conn = sqlite3.connect(...)]: a new connection has nothing pending. *)
Definition connect : D unit :=
  (dop OConnect ;;
   draise_if (connect_raises W) ;;
   dmodify (fun s => mkTables (users s) []))%db.

Definition execute_pragma (statement : pystr) : D unit :=
  (dop (OPragma statement) ;;
   draise_if (pragma_raises W statement))%db.

(** [conn.commit()]: what is pending joins the table. *)
Definition commit : D unit :=
  (dop OCommit ;;
   draise_if (commit_raises W) ;;
   dmodify (fun s => mkTables (users s ++ pending s) []))%db.

(** [conn.rollback()]: what is pending is dropped. *)
Definition rollback : D unit :=
  (dop ORollback ;;
   draise_if (rollback_raises W) ;;
   dmodify (fun s => mkTables (users s) []))%db.

(** [conn.close()]: what is pending is dropped with the connection. *)
Definition close : D unit :=
  (dop OClose ;;
   dmodify (fun s => mkTables (users s) []) ;;
   draise_if (close_raises W))%db.

(** [with get_db_connection() as conn: body]. The variable [conn] is
    [None] exactly when [sqlite3.connect] has raised: then neither the
    handler nor the [finally] block does anything, and the exception goes
    on; afterwards [conn] is a connection, the handler rolls back and the
    [finally] block closes. *)
Definition get_db_connection {A} (body : D A) : D A :=
  (connect ;;
   dtry_finally
     (dtry_except
        (execute_pragma PRAGMA_JOURNAL ;;
         execute_pragma PRAGMA_TIMEOUT ;;
         execute_pragma PRAGMA_SYNCHRONOUS ;;
         body)
        (fun e =>
           if is_sqlite_error e
           then rollback ;; draise e
           else draise e))
     close)%db.

(** The INSERT of [register]. *)
Definition insert_account (username email password : pystr) : D unit :=
  (dop (OInsertUser username email password) ;;
   s <- dget ;;
   id <- dlift (insert_user W (users s ++ pending s) username email password) ;;
   dmodify (fun s =>
     mkTables (users s)
       (pending s ++ [mkAccount id username email password])))%db.

(** The SELECT of [login] and its [fetchone()]. *)
Definition select_user (username : pystr) : D (option account) :=
  (dop (OSelectUser username) ;;
   draise_if (select_raises W) ;;
   s <- dget ;;
   dret (find (fun a => eqb (account_username a) username)
           (users s ++ pending s)))%db.

(** [data.get(key, '')] *)
Definition get_field (data : list (pystr * jvalue)) (key : pystr) : jvalue :=
  match dict_get data key with
  | Some v => v
  | None => JString []
  end.

(** [v.strip()] *)
Definition strip_value (v : jvalue) : D pystr :=
  match v with
  | JString u => dret (strip u)
  | _ => draise (OtherError (no_strip v))
  end.

(** Truth value of a JSON value. *)
Definition jtruthy (v : jvalue) : bool :=
  match v with
  | JString u => truthy u
  | JNumber n => negb (n =? 0)%Z
  | JBool b => b
  | JNull => false
  end.

(** [len(v)] *)
Definition len_value (v : jvalue) : D nat :=
  match v with
  | JString u => dret (length u)
  | _ => draise (OtherError
                   (lit "object of type '" ++ type_name v
                    ++ lit "' has no len()"))
  end.

(** [v.encode('utf-8')], handed on to bcrypt. *)
Definition encode_value (v : jvalue) : D pystr :=
  match v with
  | JString u => dret u
  | _ => draise (OtherError
                   (lit "'" ++ type_name v
                    ++ lit "' object has no attribute 'encode'"))
  end.

Definition USER_CREATED : response :=
  JsonResponse [(lit "message", lit "User created successfully")] 201.

(** The [try] block of [register]. *)
Definition register_try (req : request) : D response :=
  match json req with
  | None | Some [] => dret (json_error "No JSON data provided" 400)
  | Some data =>
      (username <- strip_value (get_field data (lit "username")) ;;
       email <- strip_value (get_field data (lit "email")) ;;
       let password := get_field data (lit "password") in
       if negb (truthy username) || negb (truthy email)
          || negb (jtruthy password)
       then dret (json_error "All fields are required" 400)
       else if length username <? 3
       then dret (json_error "Username must be at least 3 characters" 400)
       else
         n <- len_value password ;;
         if n <? 6
         then dret (json_error "Password must be at least 6 characters" 400)
         else
           bytes <- encode_value password ;;
           hashed <- dlift (hashpw W bytes) ;;
           get_db_connection
             (insert_account username email hashed ;;
              commit) ;;
           dret USER_CREATED)%db
  end.

(** [register()]: the response, the tables after the request and what the
    database saw. *)
Definition register (req : request) (s : tables)
  : response * tables * list db_op :=
  match register_try req s with
  | (inr r, s', o) => (r, s', o)
  | (inl (IntegrityError msg), s', o) =>
      (if contains (lit "username") msg
       then json_error "Username already exists" 400
       else if contains (lit "email") msg
       then json_error "Email already exists" 400
       else json_error "User already exists" 400,
       s', o)
  | (inl (SqliteError _), s', o) =>
      (json_error "Database error occurred" 500, s', o)
  | (inl (OtherError _), s', o) =>
      (json_error "An unexpected error occurred" 500, s', o)
  end.

Definition INVALID_LOGIN : response :=
  json_error "Invalid username or password" 401.

(** The [try] block of [login]. *)
Definition login_try (req : request) : D response :=
  match json req with
  | None | Some [] => dret (json_error "No JSON data provided" 400)
  | Some data =>
      (username <- strip_value (get_field data (lit "username")) ;;
       let password := get_field data (lit "password") in
       if negb (truthy username) || negb (jtruthy password)
       then dret (json_error "Username and password are required" 400)
       else
         user <- get_db_connection (select_user username) ;;
         match user with
         | None => dret INVALID_LOGIN
         | Some user =>
             bytes <- encode_value password ;;
             ok <- dlift (checkpw W bytes (account_password user)) ;;
             if ok
             then
               token <- dlift (jwt_encode W (account_id user)) ;;
               dret (JsonResponse
                       [(lit "token", token);
                        (lit "message", lit "Login successful")] 200)
             else dret INVALID_LOGIN
         end)%db
  end.

(** [login()]. *)
Definition login (req : request) (s : tables)
  : response * tables * list db_op :=
  match login_try req s with
  | (inr r, s', o) => (r, s', o)
  | (inl e, s', o) =>
      (if is_sqlite_error e
       then json_error "Database error occurred" 500
       else json_error "An unexpected error occurred" 500,
       s', o)
  end.

End Accounts.

(** The user on whose behalf a request is served: the token is there, it
    is not empty, and [get_user_by_token] gives an id that is not zero. *)
Definition caller (E : env) (req : request) : option Z :=
  match authorization req with
  | None => None
  | Some token =>
      if truthy token
      then match get_user_by_token E (replace (lit "Bearer ") [] token) with
           | Some user_id => if (user_id =? 0)%Z then None else Some user_id
           | None => None
           end
      else None
  end.


(** A database in good health, for the examples: the INSERT enforces the
    two UNIQUE constraints of [users] and numbers the rows. *)
Definition unique_insert (rows : list account) (username email password : pystr)
  : exc + Z :=
  if existsb (fun a => eqb (account_username a) username) rows
  then inl (IntegrityError (lit "UNIQUE constraint failed: users.username"))
  else if existsb (fun a => eqb (account_email a) email) rows
  then inl (IntegrityError (lit "UNIQUE constraint failed: users.email"))
  else inr (Z.of_nat (S (length rows))).

Definition healthy_db : db_oracle :=
  mkDb None (fun _ => None) unique_insert None None None None
    (fun password => inr (lit "$2b$" ++ password))
    (fun password hashed => inr (eqb hashed (lit "$2b$" ++ password)))
    (fun _ => inr (lit "token")).

Definition no_tables : tables := mkTables [] [].

Definition SIGNUP : request :=
  mkRequest None
    (Some [(lit "username", JString (lit " alice "));
           (lit "email", JString (lit "alice@example.org"));
           (lit "password", JString (lit "secret"))]).

(** The outcome of a statement without a [yield], as the generator sees
    it. *)
Definition lift_res {A} (r : exn + A) : stop + A :=
  match r with
  | inl e => inl (Raised e)
  | inr a => inr a
  end.

(** A computation that yields nothing. *)
Definition quiet {A} (m : M A) : Prop :=
  forall s, events_of (snd (m s)) = [].

(** The generator [g] is the computation [m] with a consumer: read to the
    end, it is [m]; with a consumer that takes [n] events, it is closed at
    the [yield] of the [n]-th event if [m] has that many, and is [m]
    otherwise. *)
Definition cuts {A} (g : G A) (m : M A) : Prop :=
  forall s,
    g None s = (lift_res (fst (fst (m s))), None, snd (fst (m s)), snd (m s))
    /\ forall n, 0 < n ->
         let full := events_of (snd (m s)) in
         if n <=? length full
         then exists s' o,
                g (Some n) s = (inl Closed, Some 0, s', o)
                /\ events_of o = firstn n full
         else g (Some n) s
              = (lift_res (fst (fst (m s))), Some (n - length full),
                 snd (fst (m s)), snd (m s)).

(** ** What the cleanup attempts *)

(** The file that the first statement of the [finally] block tries to
    remove in the store [s]: the audio file, if the variable [audio_file]
    holds one and the file exists. *)
Definition release_target (s : store) : option pystr :=
  match audio_file s with
  | Some file => if truthy file && mem file (fs s) then Some file else None
  | None => None
  end.

(** The directory after an attempt to remove a file that is there. *)
Definition after_remove (o : os_oracle) (f : pystr) (files : list pystr)
  : list pystr :=
  match remove_raises o f with
  | None => remove f files
  | Some _ => files
  end.

(** The directory after the first statement of the [finally] block. *)
Definition after_release (o : os_oracle) (s : store) : list pystr :=
  match release_target s with
  | Some file => after_remove o file (fs s)
  | None => fs s
  end.

(** The files whose removal the sweep attempts on the listing [names], in
    order: those whose name starts with temp_audio, up to the first one
    whose removal raises. *)
Fixpoint attempts (o : os_oracle) (names : list pystr) : list pystr :=
  match names with
  | [] => []
  | f :: r =>
      if startswith TEMP_AUDIO f
      then f :: match remove_raises o f with
                | Some _ => []
                | None => attempts o r
                end
      else attempts o r
  end.

(** The log of the [finally] block that starts in the store [s]. *)
Definition cleanup_log (o : os_oracle) (s : store) : list item :=
  match release_target s with
  | Some file => [Act (ARemove file)]
  | None => []
  end
  ++ [Act AListdir]
  ++ match listdir_raises o with
     | Some _ => []
     | None =>
         map (fun f => Act (ARemove f))
           (attempts o (dedup (after_release o s)))
     end.

(** A specification of a piece of the generator over the store and the log
    so far: [Q] when it ends normally, [X] when it ends with an exception
    or is closed. *)
Definition gtriple {A} (P : store -> list item -> Prop) (g : G A)
  (Q : A -> store -> list item -> Prop) (X : store -> list item -> Prop)
  : Prop :=
  forall b s pre, P s pre ->
    match g b s with
    | (inr a, _, s', o) => Q a s' (pre ++ o)
    | (inl _, _, s', o) => X s' (pre ++ o)
    end.

(** Before [download_audio] is called, the [try] block has not listed the
    directory and the store is as at the start. *)
Definition before_download (s0 s : store) (log : list item) : Prop :=
  ~ In (Act AListdir) log /\ s = set_audio_file None s0.

(** After the call, it has, and the variable [audio_file] holds what
    [download_audio] returned, if it returned. *)
Definition after_download (E : env) (video_url : pystr) (s0 s : store)
  (log : list item) : Prop :=
  In (Act AListdir) log
  /\ audio_file s = match downloaded E video_url s0 with
                    | inr file => Some file
                    | inl _ => None
                    end.

(** * Properties *)

(** ** Strings *)

Lemma eqb_eq (a b : pystr) : eqb a b = true <-> a = b.
Proof.
  revert b; induction a as [|x a IH]; intros [|y b]; simpl; split;
    try congruence; try reflexivity.
  - intros H. apply andb_true_iff in H as [H1 H2].
    apply N.eqb_eq in H1. apply IH in H2. congruence.
  - intros H. injection H as -> ->.
    rewrite N.eqb_refl. simpl. now apply IH.
Qed.

Lemma eqb_refl (a : pystr) : eqb a a = true.
Proof. now apply eqb_eq. Qed.

Lemma eqb_neq (a b : pystr) : eqb a b = false <-> a <> b.
Proof.
  split.
  - intros H Heq. apply eqb_eq in Heq. congruence.
  - intros H. destruct (eqb a b) eqn:Hab; [|reflexivity].
    apply eqb_eq in Hab. contradiction.
Qed.

Lemma startswith_spec (p s : pystr) :
  startswith p s = true <-> exists r, s = p ++ r.
Proof.
  revert s; induction p as [|x p IH]; intros s; simpl.
  - split; [intros _; now exists s | reflexivity].
  - destruct s as [|y s].
    + split; [discriminate | intros [r Hr]; discriminate].
    + rewrite andb_true_iff, N.eqb_eq, IH. split.
      * intros [-> [r ->]]. now exists r.
      * intros [r Hr]. injection Hr as -> ->. split; [reflexivity | now exists r].
Qed.

Lemma contains_spec (sub s : pystr) :
  contains sub s = true <-> substring sub s.
Proof.
  unfold substring. induction s as [|c s IH].
  - simpl. rewrite orb_false_r, startswith_spec. split.
    + intros [r Hr]. now exists [], r.
    + intros [a [b H]]. destruct a; [now exists b | discriminate].
  - cbn [contains]. rewrite orb_true_iff, startswith_spec, IH. split.
    + intros [[r Hr] | [a [b H]]].
      * now exists [], r.
      * exists (c :: a), b. simpl. now rewrite H.
    + intros [[|x a] [b H]].
      * left. now exists b.
      * right. injection H as -> ->. now exists a, b.
Qed.

Lemma lstrip_spaces (s : pystr) : forallb isspace s = true -> lstrip s = [].
Proof.
  induction s as [|c s IH]; simpl; [reflexivity|].
  intros H. apply andb_true_iff in H as [-> H]. now apply IH.
Qed.

Lemma strip_spaces (s : pystr) : forallb isspace s = true -> strip s = [].
Proof.
  intros H. unfold strip, rstrip. now rewrite (lstrip_spaces s H).
Qed.

Lemma lstrip_decomp (s : pystr) :
  exists a, s = a ++ lstrip s /\ forallb isspace a = true.
Proof.
  induction s as [|c s [a [Ha Hs]]]; simpl.
  - now exists [].
  - destruct (isspace c) eqn:Hc.
    + exists (c :: a). simpl. rewrite Hc, Hs. split; [congruence | reflexivity].
    + now exists [].
Qed.

(** [strip] removes a run of white space at each end, and nothing else. *)
Lemma strip_decomp (s : pystr) :
  exists a b, s = a ++ strip s ++ b
              /\ forallb isspace a = true /\ forallb isspace b = true.
Proof.
  destruct (lstrip_decomp s) as [a [Ha Hsa]].
  destruct (lstrip_decomp (rev (lstrip s))) as [b [Hb Hsb]].
  exists a, (rev b). unfold strip, rstrip. split; [|split].
  - rewrite <- rev_app_distr, <- Hb, rev_involutive. exact Ha.
  - exact Hsa.
  - rewrite forallb_forall in *. intros x Hx. apply Hsb. now apply in_rev.
Qed.

Lemma strip_length (s : pystr) : length (strip s) <= length s.
Proof.
  destruct (strip_decomp s) as [a [b [H _]]].
  rewrite H at 2. rewrite !length_app. lia.
Qed.

(** ** The URL utility *)

(** C10. [validate_video_url] returns [None] exactly for a falsy input;
    otherwise it returns the trimmed input when that contains youtube.com or
    youtu.be, and the watch prefix followed by the trimmed input in every
    other case; a non-empty input of white space alone yields the watch
    prefix with an empty video id. *)
Theorem validate_video_url_cases (video_input : option pystr) :
  (validate_video_url video_input = None
   <-> video_input = None \/ video_input = Some [])
  /\ (forall s, video_input = Some s -> s <> [] ->
      (substring (lit "youtube.com") (strip s)
       \/ substring (lit "youtu.be") (strip s) ->
       validate_video_url video_input = Some (strip s))
      /\ (~ (substring (lit "youtube.com") (strip s)
             \/ substring (lit "youtu.be") (strip s)) ->
          validate_video_url video_input = Some (WATCH_PREFIX ++ strip s))
      /\ (forallb isspace s = true ->
          validate_video_url video_input = Some (WATCH_PREFIX ++ []))).
Proof.
  split.
  - destruct video_input as [[|c s]|]; simpl.
    + split; [intros _; now right | reflexivity].
    + split.
      * destruct (_ || _); discriminate.
      * intros [H|H]; discriminate.
    + split; [intros _; now left | reflexivity].
  - intros s -> Hs. unfold validate_video_url.
    destruct s as [|c s]; [contradiction|]. cbn [truthy negb].
    set (v := strip (c :: s)).
    split; [|split].
    + intros H.
      assert (Hc : contains (lit "youtube.com") v
                   || contains (lit "youtu.be") v = true).
      { apply orb_true_iff. destruct H as [H|H]; [left|right];
          now apply contains_spec. }
      now rewrite Hc.
    + intros H.
      destruct (contains (lit "youtube.com") v || contains (lit "youtu.be") v)
        eqn:Hc; [|reflexivity].
      exfalso. apply H. apply orb_true_iff in Hc.
      destruct Hc as [Hc|Hc]; [left|right]; now apply contains_spec.
    + intros H. subst v. rewrite (strip_spaces _ H). reflexivity.
Qed.

Lemma validate_video_url_cases_witness :
  validate_video_url (Some (lit "  ")) = Some (WATCH_PREFIX ++ []).
Proof.
  apply (proj2 (validate_video_url_cases (Some (lit "  "))) (lit "  ")).
  - reflexivity.
  - discriminate.
  - reflexivity.
Defined.

(** ** Transcription *)

(** C9. When the decoding succeeds, [transcribe_audio] returns the trimmed
    text if it has at least three code points and the sentinel otherwise; it
    never returns a text of fewer than three code points. *)
Theorem transcribe_audio_sentinel (E : env) (audio raw : pystr) (s : store) :
  decode E audio = inr raw ->
  exists t o,
    transcribe_audio E audio s = (inr t, s, o)
    /\ (length (strip raw) < 3 -> t = NO_SPEECH)
    /\ (3 <= length (strip raw) -> t = strip raw)
    /\ 3 <= length t /\ t <> [].
Proof.
  intros H. unfold transcribe_audio, try_except, bind, act, lift.
  rewrite H. cbn.
  destruct (strip raw) as [|a [|b [|c r]]] eqn:Hr; cbn.
  all: eexists; eexists; split; [reflexivity|].
  all: repeat split; intros; cbn in *; try lia; try reflexivity;
    try discriminate.
Qed.

Lemma transcribe_audio_sentinel_witness :
  exists t o,
    transcribe_audio scenario_env AUDIO_FILE empty_store = (inr t, empty_store, o)
    /\ (length (strip (lit "hello world")) < 3 -> t = NO_SPEECH)
    /\ (3 <= length (strip (lit "hello world")) -> t = strip (lit "hello world"))
    /\ 3 <= length t /\ t <> [].
Proof.
  apply (transcribe_audio_sentinel scenario_env AUDIO_FILE empty_store).
  reflexivity.
Defined.

(** ** Metadata *)

Lemma re_sub_illegal_clean (title : pystr) :
  forallb (fun c => negb (illegal_char c)) (re_sub_illegal title) = true.
Proof.
  induction title as [|c t IH]; simpl; [reflexivity|].
  rewrite IH, andb_true_r.
  destruct (illegal_char c) eqn:Hc; [reflexivity | now rewrite Hc].
Qed.

Lemma forallb_firstn {A} (p : A -> bool) (n : nat) (l : list A) :
  forallb p l = true -> forallb p (firstn n l) = true.
Proof.
  revert n; induction l as [|x l IH]; intros [|n]; simpl; try reflexivity.
  intros H. apply andb_true_iff in H as [-> H]. now apply IH.
Qed.

Lemma nth_clean_title (title : pystr) (k : nat) :
  k < length (clean_title title) ->
  nth k (clean_title title) 0%N
  = if illegal_char (nth k title 0%N) then UNDERSCORE else nth k title 0%N.
Proof.
  unfold clean_title, re_sub_illegal. revert k.
  generalize 50 as n.
  induction title as [|c t IH]; intros [|n] k; simpl; try lia.
  destruct k as [|k]; [reflexivity|].
  intros H. apply IH. lia.
Qed.

Lemma get_video_info_run (E : env) (video_url : pystr) (s : store) :
  get_video_info E video_url s
  = (inr (title_of E video_url, id_of E video_url), s,
     [Act (AExtractInfo video_url)]).
Proof.
  unfold get_video_info, title_of, id_of, try_except, bind, act, lift.
  destruct (extract_info E video_url); reflexivity.
Qed.

(** C8, as the code has it. After a successful metadata resolution the title
    is the resolved title (or the default Unknown_Video when the key is
    absent) in which every character that is illegal in a file name is
    replaced by an underscore, cut to its first 50 code points: position by
    position it is the original character or the underscore that replaces
    it, its length is the smaller of 50 and the original length, and it
    holds no illegal character. When the resolution raises, the title and
    the id are the sentinels Unknown_Video and unknown_id. *)
Theorem get_video_info_title (E : env) (video_url : pystr) (s : store) :
  (forall i, extract_info E video_url = inr i ->
     let orig := get_default (info_title i) UNKNOWN_VIDEO in
     let title := clean_title orig in
     exists o,
       get_video_info E video_url s
       = (inr (title, get_default (info_id i) UNKNOWN_ID), s, o)
       /\ length title = Nat.min 50 (length orig)
       /\ (forall k, k < length title ->
             nth k title 0%N
             = if illegal_char (nth k orig 0%N)
               then UNDERSCORE else nth k orig 0%N)
       /\ forallb (fun c => negb (illegal_char c)) title = true)
  /\ (forall e, extract_info E video_url = inl e ->
        exists o,
          get_video_info E video_url s
          = (inr (UNKNOWN_VIDEO, UNKNOWN_ID), s, o)).
Proof.
  split.
  - intros i Hi orig title.
    rewrite get_video_info_run. unfold title_of, id_of. rewrite Hi.
    eexists. split; [reflexivity|]. split; [|split].
    + subst title. unfold clean_title, re_sub_illegal.
      now rewrite length_firstn, length_map.
    + intros k Hk. now apply nth_clean_title.
    + apply forallb_firstn, re_sub_illegal_clean.
  - intros e He.
    rewrite get_video_info_run. unfold title_of, id_of. rewrite He.
    eexists. reflexivity.
Qed.

Lemma get_video_info_title_witness :
  exists o,
    get_video_info colon_env SCENARIO_URL empty_store
    = (inr (lit "a_b", lit "abc123"), empty_store, o).
Proof.
  destruct (proj1 (get_video_info_title colon_env SCENARIO_URL empty_store)
              (mkInfo (Some (lit "a:b")) (Some (lit "abc123"))) eq_refl)
    as [o [H _]].
  exists o. exact H.
Defined.

(** C8, as the spec words it, fails: the colon of a:b is replaced by an
    underscore, not stripped. *)
Lemma get_video_info_strips_not :
  fst (fst (get_video_info colon_env SCENARIO_URL empty_store))
  = inr (lit "a_b", lit "abc123")
  /\ spec_sanitize_title (lit "a:b") = lit "ab"
  /\ fst (fst (get_video_info colon_env SCENARIO_URL empty_store))
     <> inr (spec_sanitize_title (lit "a:b"), lit "abc123").
Proof.
  split; [reflexivity|]. split; [reflexivity|]. discriminate.
Qed.

(** ** Computations that stay backstage *)

Lemma events_of_app (a b : list item) :
  events_of (a ++ b) = events_of a ++ events_of b.
Proof. unfold events_of. apply flat_map_app. Qed.

Lemma backstage_ret {A} (a : A) : backstage (ret a).
Proof. intros s. cbn. auto. Qed.

Lemma backstage_raise {A} (e : exn) : backstage (@raise A e).
Proof. intros s. cbn. auto. Qed.

Lemma backstage_act (a : action) : backstage (act a).
Proof. intros s. cbn. auto. Qed.

Lemma backstage_get_store : backstage get_store.
Proof. intros s. cbn. auto. Qed.

Lemma backstage_lift {A} (r : exn + A) : backstage (lift r).
Proof. destruct r; [apply backstage_raise | apply backstage_ret]. Qed.

Lemma backstage_raise_if (r : option exn) : backstage (raise_if r).
Proof. destruct r; [apply backstage_raise | apply backstage_ret]. Qed.

Lemma backstage_set_fs (f : store -> list pystr) :
  backstage (modify (fun s => set_fs (f s) s)).
Proof. intros s. cbn. auto. Qed.

Lemma backstage_set_audio_file (a : option pystr) :
  backstage (modify (set_audio_file a)).
Proof. intros s. cbn. auto. Qed.

Lemma backstage_bind {A B} (m : M A) (k : A -> M B) :
  backstage m -> (forall a, backstage (k a)) -> backstage (bind m k).
Proof.
  intros Hm Hk s. unfold bind. specialize (Hm s).
  destruct (m s) as [[[e|a] s1] o1]; cbn [fst snd] in *; [exact Hm|].
  specialize (Hk a s1). destruct (k a s1) as [[r s2] o2]; cbn [fst snd] in *.
  destruct Hm as [H1 H3], Hk as [K1 K3].
  rewrite events_of_app, H3, K3. split; [congruence | reflexivity].
Qed.

Lemma backstage_try_except {A} (m : M A) (h : exn -> M A) :
  backstage m -> (forall e, backstage (h e)) -> backstage (try_except m h).
Proof.
  intros Hm Hh s. unfold try_except. specialize (Hm s).
  destruct (m s) as [[[e|a] s1] o1]; cbn [fst snd] in *; [|exact Hm].
  specialize (Hh e s1). destruct (h e s1) as [[r s2] o2]; cbn [fst snd] in *.
  destruct Hm as [H1 H3], Hh as [K1 K3].
  rewrite events_of_app, H3, K3. split; [congruence | reflexivity].
Qed.

Lemma backstage_for_each {A} (l : list A) (body : A -> M unit) :
  (forall a, backstage (body a)) -> backstage (for_each l body).
Proof.
  intros H. induction l as [|x l IH]; simpl.
  - apply backstage_ret.
  - apply backstage_bind; auto.
Qed.

Lemma backstage_if {A} (b : bool) (m1 m2 : M A) :
  backstage m1 -> backstage m2 -> backstage (if b then m1 else m2).
Proof. destruct b; auto. Qed.

Create HintDb backstage.
#[export] Hint Resolve backstage_ret backstage_raise backstage_act
  backstage_get_store backstage_lift backstage_raise_if backstage_set_fs
  backstage_set_audio_file
  backstage_bind backstage_try_except backstage_for_each backstage_if
  : backstage.

Ltac backstage :=
  repeat first
    [ progress intros
    | apply backstage_bind
    | apply backstage_try_except
    | apply backstage_for_each
    | apply backstage_if
    | solve [auto with backstage] ].

Lemma backstage_os_listdir (o : os_oracle) : backstage (os_listdir o).
Proof. unfold os_listdir. backstage. Qed.

Lemma backstage_os_remove (o : os_oracle) (f : pystr) :
  backstage (os_remove o f).
Proof.
  unfold os_remove. backstage.
Qed.

Lemma backstage_os_path_exists (f : pystr) : backstage (os_path_exists f).
Proof. unfold os_path_exists. backstage. Qed.

Lemma backstage_remove_quietly (o : os_oracle) (f : pystr) :
  backstage (remove_quietly o f).
Proof.
  unfold remove_quietly. backstage.
Qed.

#[export] Hint Resolve backstage_os_listdir backstage_os_remove
  backstage_os_path_exists backstage_remove_quietly : backstage.

Lemma backstage_download_audio (E : env) (video_url : pystr) :
  backstage (download_audio E video_url).
Proof.
  unfold download_audio. backstage.
  destruct (ydl_download E video_url) as [written failure].
  backstage. destruct failure; backstage.
Qed.

(** ** The stages, run *)

Lemma new_converter_run (E : env) (s : store) :
  new_converter E s
  = (match init_converter E with Some e => inl e | None => inr tt end,
     s, [Act AInit]).
Proof.
  unfold new_converter, bind, act, raise_if.
  destruct (init_converter E); reflexivity.
Qed.

Lemma transcribe_audio_run (E : env) (file : pystr) (s : store) :
  transcribe_audio E file s
  = (match decode E file with
     | inl e => inl (TRANSCRIPTION_FAILED ++ e)
     | inr raw => inr (transcript_of raw)
     end, s, [Act (ADecode file)]).
Proof.
  unfold transcribe_audio, transcript_of, try_except, bind, act, lift.
  destruct (decode E file) as [e|raw]; [reflexivity|]. cbn.
  destruct (strip raw) as [|a [|b [|c r]]]; reflexivity.
Qed.

Lemma generate_summary_run (E : env) (transcript : pystr) (s : store) :
  generate_summary E transcript s
  = (llm_invoke E (summary_prompt transcript), s,
     [Act (AInvoke (summary_prompt transcript))]).
Proof.
  unfold generate_summary, bind, act, lift.
  destruct (llm_invoke E (summary_prompt transcript)); reflexivity.
Qed.

Lemma insert_job_run (E : env) (row : job) (s : store) :
  insert_job E row s
  = match db_insert E row with
    | Some e =>
        (inl e,
         if db_committed E row then set_db (db s ++ [row]) s else s,
         [Act (AInsert row)])
    | None => (inr tt, set_db (db s ++ [row]) s, [Act (AInsert row)])
    end.
Proof.
  unfold insert_job, bind, act, raise_if, modify.
  destruct (db_insert E row); [|reflexivity].
  destruct (db_committed E row); reflexivity.
Qed.

Lemma stream_loop_run (chunks : list pystr) (summary : pystr) (s : store) :
  stream_loop chunks summary s
  = (inr (summary ++ concat chunks), s,
     map (fun c => Yield (SummaryChunk c)) chunks).
Proof.
  revert summary. induction chunks as [|c r IH]; intros summary.
  - cbn. now rewrite app_nil_r.
  - cbn [stream_loop]. unfold bind at 1. cbn [emit]. rewrite IH.
    cbn. now rewrite <- app_assoc.
Qed.

Lemma stream_summary_run (E : env) (prompt : pystr) (s : store) :
  stream_summary E prompt s
  = (match snd (llm_stream E prompt) with
     | Some e => inl e
     | None => inr (concat (fst (llm_stream E prompt)))
     end, s,
     Act (AStream prompt)
     :: map (fun c => Yield (SummaryChunk c)) (fst (llm_stream E prompt))).
Proof.
  unfold stream_summary.
  destruct (llm_stream E prompt) as [chunks failure].
  unfold bind at 1. cbn [act fst snd]. unfold bind.
  rewrite stream_loop_run. cbn [app].
  destruct failure; cbn; now rewrite app_nil_r.
Qed.

Lemma events_of_chunks (chunks : list pystr) :
  events_of (map (fun c => Yield (SummaryChunk c)) chunks)
  = map SummaryChunk chunks.
Proof. induction chunks as [|c r IH]; cbn; [reflexivity | now rewrite <- IH]. Qed.

(** ** The [try] block follows the decision tree *)

Lemma runs_to_emit (e : event) (k : unit -> M unit) (s : store) (oc : outcome) :
  runs_to (k tt) s oc -> runs_to (bind (emit e) k) s (prepend [e] oc).
Proof.
  intros [s' [o [Hk [Hev [Hdb [o' Ho]]]]]]. unfold runs_to, bind. cbn [emit].
  rewrite Hk. exists s', ([Yield e] ++ o). split; [reflexivity|].
  split; [|split; [exact Hdb|]].
  - cbn [prepend fst snd]. rewrite events_of_app, Hev. reflexivity.
  - exists ([Yield e] ++ o'). cbn [prepend snd]. rewrite Ho.
    now rewrite app_assoc.
Qed.

Lemma runs_to_nil (m : M unit) (s : store) (oc : outcome) :
  runs_to m s oc -> runs_to m s (prepend [] oc).
Proof. destruct oc. exact (fun H => H). Qed.

Lemma runs_to_cons (e : event) (l : list event) (k : unit -> M unit)
  (s : store) (oc : outcome) :
  runs_to (k tt) s (prepend l oc) ->
  runs_to (bind (emit e) k) s (prepend (e :: l) oc).
Proof. intros H. exact (@runs_to_emit e k s (prepend l oc) H). Qed.

Lemma runs_to_inr {A} (m : M A) (k : A -> M unit) (s s1 : store) (a : A)
  (o1 : list item) (oc : outcome) :
  backstage m -> m s = (inr a, s1, o1) ->
  runs_to (k a) s1 oc -> runs_to (bind m k) s oc.
Proof.
  intros Hb Hm [s' [o [Hk [Hev [Hdb [o' Ho]]]]]]. specialize (Hb s).
  rewrite Hm in Hb. cbn [fst snd] in Hb. destruct Hb as [Hb1 Hb3].
  unfold runs_to, bind. rewrite Hm, Hk. exists s', (o1 ++ o).
  split; [reflexivity|]. rewrite events_of_app, Hb3, Hev, Hdb, Hb1.
  split; [reflexivity|]. split; [reflexivity|].
  exists (o1 ++ o'). rewrite Ho. now rewrite app_assoc.
Qed.

Lemma runs_to_inl {A} (m : M A) (k : A -> M unit) (s s1 : store) (e : exn)
  (o1 : list item) :
  backstage m -> m s = (inl e, s1, o1) ->
  runs_to (bind m k) s ([], inl (e, [])).
Proof.
  intros Hb Hm. specialize (Hb s). rewrite Hm in Hb.
  cbn [fst snd] in Hb. destruct Hb as [Hb1 Hb3].
  unfold runs_to, bind. rewrite Hm. exists s1, o1.
  split; [reflexivity|]. cbn [fst snd completion_of saved_of map app].
  rewrite Hb3, Hb1, !app_nil_r.
  split; [reflexivity|]. split; [reflexivity|]. exists o1.
  now rewrite app_nil_r.
Qed.

Lemma backstage_new_converter (E : env) : backstage (new_converter E).
Proof. unfold new_converter. backstage. Qed.

Lemma backstage_get_video_info (E : env) (video_url : pystr) :
  backstage (get_video_info E video_url).
Proof. unfold get_video_info. backstage. Qed.

Lemma backstage_transcribe_audio (E : env) (file : pystr) :
  backstage (transcribe_audio E file).
Proof. unfold transcribe_audio. backstage. Qed.

Lemma backstage_generate_summary (E : env) (transcript : pystr) :
  backstage (generate_summary E transcript).
Proof. unfold generate_summary. backstage. Qed.

Lemma save_runs (E : env) (row : job) (s : store) :
  runs_to
    (emit (Status SAVING) ;;
     insert_job E row ;;
     emit (Complete (job_video_title row) COMPLETED))
    s (save_outcome E row).
Proof.
  apply (runs_to_emit _ _ (oc := ([], _))).
  unfold runs_to, bind. rewrite insert_job_run.
  destruct (db_insert E row) as [e|]; cbn.
  - destruct (db_committed E row); eexists; eexists;
      (split; [reflexivity|]); cbn; rewrite ?app_nil_r;
      repeat split; now exists [Act (AInsert row)].
  - eexists; eexists. repeat split. now exists [Act (AInsert row)].
Qed.

Lemma events_of_cons_act (a : action) (o : list item) :
  events_of (Act a :: o) = events_of o.
Proof. reflexivity. Qed.

Lemma events_of_cons_yield (e : event) (o : list item) :
  events_of (Yield e :: o) = e :: events_of o.
Proof. reflexivity. Qed.

Lemma events_of_nil : events_of [] = [].
Proof. reflexivity. Qed.

Create Rewrite HintDb events.
#[export] Hint Rewrite events_of_app events_of_cons_act events_of_cons_yield
  events_of_chunks events_of_nil : events.

Lemma summary_runs (E : env) (row : pystr -> job) (transcript : pystr)
  (s : store) :
  (forall summary, job_video_title (row summary) = job_video_title (row [])) ->
  runs_to
    (summary <-
       try_except
         (stream_summary E (stream_prompt transcript))
         (fun _ =>
            emit (Status STREAMING_FAILED) ;;
            summary <- generate_summary E transcript ;;
            emit (SummaryChunk summary) ;;
            ret summary) ;;
     emit (Status SAVING) ;;
     insert_job E (row summary) ;;
     emit (Complete (job_video_title (row [])) COMPLETED))
    s (summary_outcome E row transcript).
Proof.
  intros Htitle.
  assert (Hsave : forall summary,
    exists s' o,
      (emit (Status SAVING) ;;
       insert_job E (row summary) ;;
       emit (Complete (job_video_title (row [])) COMPLETED)) s
      = (status_of (snd (save_outcome E (row summary))), s', o)
      /\ events_of o
         = fst (save_outcome E (row summary))
           ++ completion_of (snd (save_outcome E (row summary)))
      /\ db s' = db s ++ saved_of (snd (save_outcome E (row summary)))
      /\ exists o', o = o' ++ map Yield
                                (completion_of (snd (save_outcome E (row summary))))).
  { intros summary. rewrite <- (Htitle summary). apply save_runs. }
  unfold runs_to, summary_outcome.
  unfold bind at 1. unfold try_except. rewrite stream_summary_run.
  destruct (llm_stream E (stream_prompt transcript)) as [chunks [e|]];
    cbn [fst snd].
  - unfold fallback_outcome. unfold bind at 1. cbn [emit].
    unfold bind at 1. rewrite generate_summary_run.
    destruct (llm_invoke E (summary_prompt transcript)) as [e2|summary].
    + eexists; eexists. split; [reflexivity|].
      cbn [prepend fst snd completion_of saved_of map].
      rewrite !app_nil_r.
      split; [|split; [reflexivity | eexists; symmetry; apply app_nil_r]].
      autorewrite with events. reflexivity.
    + unfold bind at 1. cbn [emit ret].
      destruct (Hsave summary) as [s' [o [H1 [H2 [H3 [o' H4]]]]]]. rewrite H1.
      eexists; eexists. split; [reflexivity|].
      cbn [prepend fst snd]. split; [|split; [exact H3|]].
      * autorewrite with events. rewrite H2. cbn [app].
        rewrite <- !app_assoc. reflexivity.
      * rewrite H4, !app_assoc. eexists; reflexivity.
  - destruct (Hsave (concat chunks)) as [s' [o [H1 [H2 [H3 [o' H4]]]]]].
    rewrite H1.
    eexists; eexists. split; [reflexivity|].
    cbn [prepend fst snd]. split; [|split; [exact H3|]].
    + autorewrite with events. rewrite H2.
      rewrite <- !app_assoc. reflexivity.
    + rewrite H4, !app_assoc. eexists; reflexivity.
Qed.

Lemma generate_try_runs (E : env) (user_id : Z) (video_url : pystr)
  (s : store) :
  runs_to (generate_try E user_id video_url) s
    (pipeline_outcome E user_id video_url
       (fst (fst (download_audio E video_url s)))).
Proof.
  unfold generate_try, pipeline_outcome.
  apply runs_to_emit.
  destruct (init_converter E) as [e|] eqn:Hinit.
  { eapply runs_to_inl; [apply backstage_new_converter|].
    rewrite new_converter_run, Hinit. reflexivity. }
  eapply runs_to_inr; [apply backstage_new_converter| |].
  { rewrite new_converter_run, Hinit. reflexivity. }
  apply runs_to_cons.
  eapply runs_to_inr;
    [apply backstage_get_video_info | apply get_video_info_run |].
  cbn iota.
  do 2 apply runs_to_cons. apply runs_to_nil.
  destruct (download_audio E video_url s) as [[[e|file] s1] o1] eqn:Hdl;
    cbn [fst].
  { eapply runs_to_inl; [apply backstage_download_audio | exact Hdl]. }
  eapply runs_to_inr; [apply backstage_download_audio | exact Hdl |].
  eapply runs_to_inr with (s1 := set_audio_file (Some file) s1) (a := tt).
  { apply backstage_set_audio_file. }
  { reflexivity. }
  unfold transcript_outcome.
  apply runs_to_emit.
  destruct (decode E file) as [e|raw] eqn:Hdec.
  { eapply runs_to_inl; [apply backstage_transcribe_audio|].
    rewrite transcribe_audio_run, Hdec. reflexivity. }
  eapply runs_to_inr; [apply backstage_transcribe_audio| |].
  { rewrite transcribe_audio_run, Hdec. reflexivity. }
  do 2 apply runs_to_cons. apply runs_to_nil.
  apply (summary_runs E
           (mkJob user_id video_url (title_of E video_url) (transcript_of raw))).
  reflexivity.
Qed.

(** ** The [finally] block *)

Lemma never_raises_bind {A B} (m : M A) (k : A -> M B) :
  (forall s, exists a, fst (fst (m s)) = inr a) ->
  (forall a s, exists b, fst (fst (k a s)) = inr b) ->
  forall s, exists b, fst (fst (bind m k s)) = inr b.
Proof.
  intros Hm Hk s. unfold bind. destruct (Hm s) as [a Ha].
  destruct (m s) as [[r s1] o1]. cbn [fst] in Ha. subst r.
  destruct (Hk a s1) as [b Hb].
  destruct (k a s1) as [[r s2] o2]. cbn [fst] in *. now exists b.
Qed.

Lemma never_raises_quietly (m : M unit) :
  forall s, exists a, fst (fst (try_except m (fun _ => ret tt) s)) = inr a.
Proof.
  intros s. unfold try_except. destruct (m s) as [[[e|[]] s1] o1]; cbn.
  - now exists tt.
  - now exists tt.
Qed.

Lemma release_audio_file_returns (E : env) (s : store) :
  exists a, fst (fst (release_audio_file E s)) = inr a.
Proof.
  unfold release_audio_file. revert s. apply never_raises_bind.
  - intros s. exists s. reflexivity.
  - intros s0. destruct (audio_file s0) as [file|].
    + destruct (truthy file).
      * apply never_raises_bind.
        -- intros s. eexists. reflexivity.
        -- intros [|].
           ++ apply never_raises_quietly.
           ++ intros s. now exists tt.
      * intros s. now exists tt.
    + intros s. now exists tt.
Qed.

Lemma generate_finally_returns (E : env) (s : store) :
  fst (fst (generate_finally E s)) = inr tt.
Proof.
  assert (H : exists a, fst (fst (generate_finally E s)) = inr a).
  { unfold generate_finally. revert s. apply never_raises_bind.
    - apply release_audio_file_returns.
    - intros _. apply never_raises_quietly. }
  destruct H as [[] H]. exact H.
Qed.

Lemma backstage_release_audio_file (E : env) :
  backstage (release_audio_file E).
Proof.
  unfold release_audio_file. backstage.
  destruct (audio_file a) as [file|]; backstage.
Qed.

Lemma backstage_sweep_temp_audio (E : env) : backstage (sweep_temp_audio E).
Proof. unfold sweep_temp_audio. backstage. Qed.

Lemma backstage_generate_finally (E : env) : backstage (generate_finally E).
Proof.
  unfold generate_finally. apply backstage_bind.
  - apply backstage_release_audio_file.
  - intros _. apply backstage_sweep_temp_audio.
Qed.

(** The run of [generate]: it returns, its events are those of the decision
    tree followed by the terminal event, the [finally] block yields
    nothing, and the table grows by the saved row. *)
Lemma generate_runs (E : env) (user_id : Z) (video_url : pystr) (s : store) :
  let oc := pipeline_outcome E user_id video_url (downloaded E video_url s) in
  exists s' o_try o_finally,
    generate E user_id video_url s
    = (inr tt, s', o_try ++ [Yield (terminal_of (snd oc))] ++ o_finally)
    /\ events_of o_try = fst oc
    /\ events_of o_finally = []
    /\ db s' = db s ++ saved_of (snd oc)
    /\ exists s1,
         generate_finally E s1 = (inr tt, s', o_finally)
         /\ fs s1
            = fs (snd (fst (generate_try E user_id video_url
                                         (set_audio_file None s)))).
Proof.
  intros oc. unfold generate, try_finally.
  unfold bind at 1. cbn [modify].
  destruct (generate_try_runs E user_id video_url (set_audio_file None s))
    as [s1 [o1 [Hrun [Hev [Hdb [o' Ho]]]]]].
  fold (downloaded E video_url s) in Hrun, Hev, Hdb, Ho.
  fold oc in Hrun, Hev, Hdb, Ho.
  unfold try_except. rewrite Hrun. cbn [fst snd].
  pose proof (generate_finally_returns E s1) as Hret.
  pose proof (backstage_generate_finally E s1) as [Hfdb Hfev].
  destruct (generate_finally E s1) as [[r s2] o2] eqn:Hfin.
  cbn [fst snd] in Hret, Hfdb, Hfev. subst r.
  exists s2, o', o2.
  destruct (snd oc) as [[e rows]|row] eqn:Hoc;
    cbn [status_of completion_of terminal_of saved_of map emit] in *.
  - rewrite Hfin. rewrite app_nil_r in Ho, Hev. subst o1.
    split; [cbn; now rewrite <- app_assoc|].
    split; [exact Hev|]. split; [exact Hfev|].
    split; [rewrite Hfdb; exact Hdb|]. exists s1. auto.
  - rewrite Hfin. subst o1.
    split; [cbn; now rewrite <- app_assoc|].
    split.
    { autorewrite with events in Hev. now apply app_inv_tail in Hev. }
    split; [exact Hfev|].
    split; [rewrite Hfdb; exact Hdb|]. exists s1. auto.
Qed.

(** ** One terminal event *)

Lemma nonterminal_chunks (chunks : list pystr) :
  forallb nonterminal (map SummaryChunk chunks) = true.
Proof. induction chunks; [reflexivity | exact IHchunks]. Qed.

Lemma nonterminal_prepend (before : list event) (oc : outcome) :
  forallb nonterminal before = true ->
  forallb nonterminal (fst oc) = true ->
  forallb nonterminal (fst (prepend before oc)) = true.
Proof.
  intros H1 H2. cbn [prepend fst]. rewrite forallb_app, H1, H2. reflexivity.
Qed.

Lemma nonterminal_save (E : env) (row : job) :
  forallb nonterminal (fst (save_outcome E row)) = true.
Proof. reflexivity. Qed.

Lemma nonterminal_summary (E : env) (row : pystr -> job) (transcript : pystr) :
  forallb nonterminal (fst (summary_outcome E row transcript)) = true.
Proof.
  unfold summary_outcome, fallback_outcome.
  apply nonterminal_prepend; [apply nonterminal_chunks|].
  destruct (snd (llm_stream E (stream_prompt transcript))).
  - apply nonterminal_prepend; [reflexivity|].
    destruct (llm_invoke E (summary_prompt transcript)); [reflexivity|].
    apply nonterminal_prepend; [reflexivity | apply nonterminal_save].
  - apply nonterminal_save.
Qed.

Lemma nonterminal_pipeline (E : env) (user_id : Z) (video_url : pystr)
  (dl : exn + pystr) :
  forallb nonterminal (fst (pipeline_outcome E user_id video_url dl)) = true.
Proof.
  unfold pipeline_outcome, transcript_outcome.
  apply nonterminal_prepend; [reflexivity|].
  destruct (init_converter E); [reflexivity|].
  apply nonterminal_prepend; [reflexivity|].
  destruct dl as [e|file]; [reflexivity|].
  apply nonterminal_prepend; [reflexivity|].
  destruct (decode E file); [reflexivity|].
  apply nonterminal_prepend; [reflexivity | apply nonterminal_summary].
Qed.

Lemma filter_terminal_none (l : list event) :
  forallb nonterminal l = true -> filter is_terminal l = [].
Proof.
  induction l as [|e l IH]; simpl; [reflexivity|].
  intros H. apply andb_true_iff in H as [He Hl]. unfold nonterminal in He.
  destruct (is_terminal e); [discriminate | now apply IH].
Qed.

Lemma terminal_of_terminal (r : exn * list job + job) :
  is_terminal (terminal_of r) = true.
Proof. destruct r as [[e rows]|row]; reflexivity. Qed.

(** The events of a run, in terms of the decision tree. *)
Lemma generate_events (E : env) (user_id : Z) (video_url : pystr) (s : store) :
  let oc := pipeline_outcome E user_id video_url (downloaded E video_url s) in
  events_of (snd (generate E user_id video_url s))
  = fst oc ++ [terminal_of (snd oc)].
Proof.
  intros oc.
  destruct (generate_runs E user_id video_url s)
    as [s' [o1 [o2 [Hrun [Hev [Hfin _]]]]]].
  rewrite Hrun. cbn [snd]. autorewrite with events. fold oc.
  rewrite Hev, Hfin. reflexivity.
Qed.

(** ** The generator and its consumer *)

Lemma backstage_quiet {A} (m : M A) : backstage m -> quiet m.
Proof. intros H s. apply H. Qed.

Lemma cuts_ext {A} (g : G A) (m m' : M A) :
  (forall s, m s = m' s) -> cuts g m -> cuts g m'.
Proof. intros Heq H s. rewrite <- Heq. apply H. Qed.

Lemma cuts_ret {A} (a : A) : cuts (gret a) (ret a).
Proof.
  intros s. split; [reflexivity|]. intros n Hn. cbn.
  destruct n; [lia | reflexivity].
Qed.

Lemma cuts_lift {A} (m : M A) : quiet m -> cuts (glift m) m.
Proof.
  intros Hq s. specialize (Hq s). unfold glift.
  destruct (m s) as [[[e|a] s1] o1]; cbn [fst snd] in *;
    (split; [reflexivity|]); intros n Hn; cbv zeta; rewrite Hq;
    cbn [length]; destruct n; try lia; cbn [Nat.leb lift_res];
    rewrite ?Nat.sub_0_r; reflexivity.
Qed.

Lemma cuts_yield (e : event) : cuts (gyield e) (emit e).
Proof.
  intros s. split; [reflexivity|]. intros n Hn. cbn.
  destruct n as [|[|n]]; [lia | |].
  - cbn. eexists; eexists. split; reflexivity.
  - cbn. rewrite ?Nat.sub_0_r. reflexivity.
Qed.

Lemma firstn_short {A} (n : nat) (l1 l2 : list A) :
  n <= length l1 -> firstn n (l1 ++ l2) = firstn n l1.
Proof.
  intros H. rewrite firstn_app.
  replace (n - length l1) with 0 by lia. cbn. apply app_nil_r.
Qed.

Lemma firstn_long {A} (n : nat) (l1 l2 : list A) :
  length l1 <= n -> firstn n (l1 ++ l2) = l1 ++ firstn (n - length l1) l2.
Proof.
  intros H. rewrite firstn_app. now rewrite firstn_all2 by lia.
Qed.

Lemma cuts_bind {A B} (g : G A) (m : M A) (gk : A -> G B) (k : A -> M B) :
  cuts g m -> (forall a, cuts (gk a) (k a)) -> cuts (gbind g gk) (bind m k).
Proof.
  intros Hm Hk s. destruct (Hm s) as [Hm0 Hmn]. unfold gbind, bind.
  destruct (m s) as [[[e|a] s1] o1]; cbn [fst snd lift_res] in *.
  - split; [now rewrite Hm0|]. intros n Hn. specialize (Hmn n Hn).
    cbv zeta in *. destruct (n <=? length (events_of o1)).
    + destruct Hmn as [s' [o [-> Ho]]]. eauto.
    + now rewrite Hmn.
  - destruct (Hk a s1) as [Hk0 Hkn].
    destruct (k a s1) as [[r s2] o2]; cbn [fst snd] in *.
    split; [now rewrite Hm0, Hk0|]. intros n Hn. specialize (Hmn n Hn).
    cbv zeta in *. rewrite events_of_app, length_app.
    destruct (Nat.leb_spec n (length (events_of o1))) as [H1|H1].
    + destruct Hmn as [s' [o [-> Ho]]].
      destruct (Nat.leb_spec n (length (events_of o1) + length (events_of o2)));
        [|lia].
      eexists; eexists. split; [reflexivity|].
      now rewrite Ho, firstn_short.
    + rewrite Hmn.
      specialize (Hkn (n - length (events_of o1)) ltac:(lia)).
      destruct (Nat.leb_spec (n - length (events_of o1))
                  (length (events_of o2))) as [H2|H2];
        destruct (Nat.leb_spec n
                    (length (events_of o1) + length (events_of o2)));
        try lia.
      * destruct Hkn as [s' [o [-> Ho]]].
        eexists; eexists. split; [reflexivity|].
        rewrite events_of_app, Ho. now rewrite firstn_long by lia.
      * rewrite Hkn. now rewrite Nat.sub_add_distr.
Qed.

Lemma cuts_try_except {A} (g : G A) (m : M A) (gh : exn -> G A)
  (h : exn -> M A) :
  cuts g m -> (forall e, cuts (gh e) (h e)) ->
  cuts (gtry_except g gh) (try_except m h).
Proof.
  intros Hm Hh s. destruct (Hm s) as [Hm0 Hmn]. unfold gtry_except, try_except.
  destruct (m s) as [[[e|a] s1] o1]; cbn [fst snd lift_res] in *.
  - destruct (Hh e s1) as [Hh0 Hhn].
    destruct (h e s1) as [[r s2] o2]; cbn [fst snd] in *.
    split; [now rewrite Hm0, Hh0|]. intros n Hn. specialize (Hmn n Hn).
    cbv zeta in *. rewrite events_of_app, length_app.
    destruct (Nat.leb_spec n (length (events_of o1))) as [H1|H1].
    + destruct Hmn as [s' [o [-> Ho]]].
      destruct (Nat.leb_spec n (length (events_of o1) + length (events_of o2)));
        [|lia].
      eexists; eexists. split; [reflexivity|].
      now rewrite Ho, firstn_short.
    + rewrite Hmn.
      specialize (Hhn (n - length (events_of o1)) ltac:(lia)).
      destruct (Nat.leb_spec (n - length (events_of o1))
                  (length (events_of o2))) as [H2|H2];
        destruct (Nat.leb_spec n
                    (length (events_of o1) + length (events_of o2)));
        try lia.
      * destruct Hhn as [s' [o [-> Ho]]].
        eexists; eexists. split; [reflexivity|].
        rewrite events_of_app, Ho. now rewrite firstn_long by lia.
      * rewrite Hhn. now rewrite Nat.sub_add_distr.
  - split; [now rewrite Hm0|]. intros n Hn. specialize (Hmn n Hn).
    cbv zeta in *. destruct (n <=? length (events_of o1)).
    + destruct Hmn as [s' [o [-> Ho]]]. eauto.
    + now rewrite Hmn.
Qed.

Lemma cuts_try_finally {A} (g : G A) (m : M A) (f : M unit) :
  cuts g m -> quiet f -> (forall s, fst (fst (f s)) = inr tt) ->
  cuts (gtry_finally g f) (try_finally m f).
Proof.
  intros Hm Hq Hret s. destruct (Hm s) as [Hm0 Hmn].
  unfold gtry_finally, try_finally.
  destruct (m s) as [[r s1] o1]; cbn [fst snd] in *.
  pose proof (Hq s1) as Hq1. pose proof (Hret s1) as Hr1.
  destruct (f s1) as [[rf s2] o2] eqn:Hf; cbn [fst snd] in *. subst rf.
  cbn [fst snd].
  split; [now rewrite Hm0, Hf|]. intros n Hn. specialize (Hmn n Hn).
  cbv zeta in *. rewrite events_of_app, Hq1, app_nil_r.
  destruct (n <=? length (events_of o1)).
  - destruct Hmn as [s' [o [-> Ho]]].
    pose proof (Hq s') as Hq'. pose proof (Hret s') as Hr'.
    destruct (f s') as [[rf' s2'] o2']; cbn [fst snd] in *. subst rf'.
    eexists; eexists. split; [reflexivity|].
    now rewrite events_of_app, Hq', app_nil_r.
  - now rewrite Hmn, Hf.
Qed.

Lemma quiet_act (a : action) : quiet (act a).
Proof. intros s. reflexivity. Qed.

Lemma quiet_modify (f : store -> store) : quiet (modify f).
Proof. intros s. reflexivity. Qed.

Lemma quiet_raise {A} (e : exn) : quiet (@raise A e).
Proof. intros s. reflexivity. Qed.

Lemma quiet_insert_job (E : env) (row : job) : quiet (insert_job E row).
Proof.
  intros s. rewrite insert_job_run.
  destruct (db_insert E row); reflexivity.
Qed.

(** An assignment of the result of a call is one statement. *)
Lemma cuts_assign {A B} (m : M A) (n : A -> M unit) (gk : A -> G B)
  (k : A -> M B) :
  quiet m -> (forall a, quiet (n a)) -> (forall a, cuts (gk a) (k a)) ->
  cuts (gbind (glift (x <- m ;; n x ;; ret x)) gk)
       (x <- m ;; n x ;; k x).
Proof.
  intros Hm Hn Hk.
  apply cuts_ext with (m := bind (x <- m ;; n x ;; ret x) k).
  - intros s. unfold bind. cbn [ret].
    destruct (m s) as [[[e|a] s1] o1]; [reflexivity|].
    destruct (n a s1) as [[[e|[]] s2] o2]; [reflexivity|].
    destruct (k a s2) as [[r s3] o3]. now rewrite app_nil_r, <- app_assoc.
  - apply cuts_bind; [|exact Hk]. apply cuts_lift.
    intros s. unfold bind. cbn [ret]. specialize (Hm s).
    destruct (m s) as [[[e|a] s1] o1]; cbn [snd] in *; [exact Hm|].
    specialize (Hn a s1).
    destruct (n a s1) as [[[e|[]] s2] o2]; cbn [snd] in *;
      rewrite ?app_nil_r, events_of_app, Hm, Hn; reflexivity.
Qed.

Lemma cuts_stream_loop (chunks : list pystr) (summary : pystr) :
  cuts (Gen.stream_loop chunks summary) (stream_loop chunks summary).
Proof.
  revert summary. induction chunks as [|c r IH]; intros summary.
  - apply cuts_ret.
  - cbn [Gen.stream_loop stream_loop].
    apply cuts_bind; [apply cuts_yield | intros _; apply IH].
Qed.

Lemma cuts_stream_summary (E : env) (prompt : pystr) :
  cuts (Gen.stream_summary E prompt) (stream_summary E prompt).
Proof.
  unfold Gen.stream_summary, stream_summary.
  apply cuts_bind; [apply cuts_lift, quiet_act|]. intros _.
  destruct (llm_stream E prompt) as [chunks failure].
  apply cuts_bind; [apply cuts_stream_loop|]. intros summary.
  destruct failure; [apply cuts_lift, quiet_raise | apply cuts_ret].
Qed.

Lemma cuts_generate_try (E : env) (user_id : Z) (video_url : pystr) :
  cuts (Gen.generate_try E user_id video_url)
       (generate_try E user_id video_url).
Proof.
  unfold Gen.generate_try, generate_try.
  apply cuts_bind; [apply cuts_yield|]. intros _.
  apply cuts_bind;
    [apply cuts_lift, backstage_quiet, backstage_new_converter|]. intros _.
  apply cuts_bind; [apply cuts_yield|]. intros _.
  apply cuts_bind;
    [apply cuts_lift, backstage_quiet, backstage_get_video_info|].
  intros [video_title video_id].
  apply cuts_bind; [apply cuts_yield|]. intros _.
  apply cuts_bind; [apply cuts_yield|]. intros _.
  apply cuts_assign;
    [apply backstage_quiet, backstage_download_audio
    |intros; apply quiet_modify|].
  intros file.
  apply cuts_bind; [apply cuts_yield|]. intros _.
  apply cuts_bind;
    [apply cuts_lift, backstage_quiet, backstage_transcribe_audio|].
  intros transcript.
  apply cuts_bind; [apply cuts_yield|]. intros _.
  apply cuts_bind; [apply cuts_yield|]. intros _.
  cbv zeta.
  apply cuts_bind.
  { apply cuts_try_except; [apply cuts_stream_summary|]. intros _.
    apply cuts_bind; [apply cuts_yield|]. intros _.
    apply cuts_bind;
      [apply cuts_lift, backstage_quiet, backstage_generate_summary|].
    intros summary.
    apply cuts_bind; [apply cuts_yield | intros _; apply cuts_ret]. }
  intros summary.
  apply cuts_bind; [apply cuts_yield|]. intros _.
  apply cuts_bind; [apply cuts_lift, quiet_insert_job|]. intros _.
  apply cuts_yield.
Qed.

(** The generator with its consumer, against the run to the end. *)
Lemma cuts_generate (E : env) (user_id : Z) (video_url : pystr) :
  cuts (Gen.generate E user_id video_url) (generate E user_id video_url).
Proof.
  unfold Gen.generate, generate.
  apply cuts_bind; [apply cuts_lift, quiet_modify|]. intros _.
  apply cuts_try_finally.
  - apply cuts_try_except; [apply cuts_generate_try|].
    intros e. apply cuts_yield.
  - apply backstage_quiet, backstage_generate_finally.
  - apply generate_finally_returns.
Qed.

(** Read to the end, the generator is [generate]. *)
Lemma generator_exhausted (E : env) (user_id : Z) (video_url : pystr)
  (s : store) :
  consume None (Gen.generate E user_id video_url) s
  = (inr tt, snd (fst (generate E user_id video_url s)),
     snd (generate E user_id video_url s)).
Proof.
  unfold consume.
  destruct (cuts_generate E user_id video_url s) as [H _]. rewrite H.
  destruct (generate_runs E user_id video_url s) as [s' [o1 [o2 [-> _]]]].
  reflexivity.
Qed.

(** A consumer gets the first events of the run to the end, as many as it
    takes, and the generator ends without an exception. *)
Lemma consume_generate (E : env) (user_id : Z) (video_url : pystr)
  (s : store) (b : budget) :
  let full := events_of (snd (generate E user_id video_url s)) in
  let run := consume b (Gen.generate E user_id video_url) s in
  events_of (snd run) = taken b full
  /\ fst (fst run)
     = match b with
       | None => inr tt
       | Some n => if n <=? length full then inl Closed else inr tt
       end.
Proof.
  intros full run. subst run. destruct b as [n|].
  - destruct n as [|n]; [split; reflexivity|].
    unfold consume.
    destruct (cuts_generate E user_id video_url s) as [_ H].
    specialize (H (S n) ltac:(lia)). cbv zeta in H. fold full in H.
    destruct (generate_runs E user_id video_url s) as [s' [o1 [o2 [Hrun _]]]].
    rewrite Hrun in H. cbn [fst snd lift_res] in H.
    destruct (S n <=? length full) eqn:Hle.
    + destruct H as [s1 [o [-> Ho]]]. cbn [fst snd taken]. auto.
    + rewrite H. cbn [fst snd taken]. split; [|reflexivity].
      apply Nat.leb_gt in Hle. subst full. rewrite Hrun. cbn [snd].
      rewrite firstn_all2; [reflexivity|].
      rewrite Hrun in Hle. cbn [snd] in Hle. lia.
  - rewrite generator_exhausted. split; reflexivity.
Qed.

(** C1, as the code has it. Read to the end, a run of [generate] yields
    events that are not terminal and then exactly one terminal event, a
    [complete] or an [error] and never both. A consumer that closes the
    generator after some events gets the first events of that sequence, as
    many as it has taken: so every run has at most one terminal event and
    nothing after it, and it has one exactly when the consumer has taken
    the whole sequence. *)
Theorem generate_one_terminal (E : env) (user_id : Z) (video_url : pystr)
  (s : store) (b : budget) :
  let full := events_of (snd (generate E user_id video_url s)) in
  let events :=
    events_of (snd (consume b (Gen.generate E user_id video_url) s)) in
  exists before last,
    full = before ++ [last]
    /\ is_terminal last = true
    /\ forallb nonterminal before = true
    /\ is_complete last = negb (is_error last)
    /\ events = taken b full
    /\ ((events = full /\ filter is_terminal events = [last])
        \/ (exists n,
              b = Some n /\ n <= length before
              /\ events = firstn n before
              /\ filter is_terminal events = [])).
Proof.
  intros full events.
  destruct (consume_generate E user_id video_url s b) as [Hev _].
  fold full in Hev. fold events in Hev.
  subst full. rewrite generate_events in *.
  set (oc := pipeline_outcome E user_id video_url (downloaded E video_url s))
    in *.
  pose proof (nonterminal_pipeline E user_id video_url
                (downloaded E video_url s)) as Hnt. fold oc in Hnt.
  exists (fst oc), (terminal_of (snd oc)).
  split; [reflexivity|]. split; [apply terminal_of_terminal|].
  split; [exact Hnt|].
  split; [destruct (snd oc) as [[e rows]|row]; reflexivity|].
  split; [exact Hev|].
  assert (Hfull : filter is_terminal (fst oc ++ [terminal_of (snd oc)])
                  = [terminal_of (snd oc)]).
  { rewrite filter_app, (filter_terminal_none _ Hnt). cbn [filter app].
    now rewrite terminal_of_terminal. }
  destruct b as [n|]; cbn [taken] in Hev.
  - destruct (Nat.le_gt_cases n (length (fst oc))) as [Hle|Hgt].
    + right. exists n. rewrite firstn_short in Hev by exact Hle.
      split; [reflexivity|]. split; [exact Hle|]. split; [exact Hev|].
      rewrite Hev. apply filter_terminal_none.
      apply forallb_forall. intros e He.
      rewrite forallb_forall in Hnt. apply Hnt.
      rewrite <- (firstn_skipn n (fst oc)). apply in_or_app. now left.
    + left. rewrite firstn_all2 in Hev
        by (rewrite length_app; cbn [length]; unfold gt, lt in Hgt; lia).
      split; [exact Hev | now rewrite Hev].
  - left. split; [exact Hev | now rewrite Hev].
Qed.

(** C1, as the spec words it, fails: a run whose consumer goes away after
    the first event has no terminal event; the [finally] block has listed
    the directory all the same. *)
Lemma closed_run_no_terminal :
  events_of
    (snd (consume (Some 1) (Gen.generate scenario_env 1 SCENARIO_URL)
            empty_store))
  = [Status STARTING]
  /\ filter is_terminal
       (events_of
          (snd (consume (Some 1) (Gen.generate scenario_env 1 SCENARIO_URL)
                  empty_store)))
     = []
  /\ actions_of
       (snd (consume (Some 1) (Gen.generate scenario_env 1 SCENARIO_URL)
               empty_store))
     = [AListdir].
Proof. vm_compute. auto. Qed.

(** ** The scenario *)

(** C2, as the code has it. In the scenario the run yields five status
    events (starting, getting information, found video, downloading,
    transcribing), then the transcript, the status that announces the
    summary, the three chunks, the saving status and [complete] with the
    title; the table grows by exactly one row, whose transcript is
    hello world and whose summary is the concatenation of the chunks. *)
Theorem scenario_run (E : env) (user_id : Z) (s : store) (file : pystr)
  (video_id : option pystr) :
  init_converter E = None ->
  extract_info E SCENARIO_URL = inr (mkInfo (Some SCENARIO_TITLE) video_id) ->
  downloaded E SCENARIO_URL s = inr file ->
  decode E file = inr SCENARIO_TRANSCRIPT ->
  llm_stream E (stream_prompt SCENARIO_TRANSCRIPT) = (SCENARIO_CHUNKS, None) ->
  db_insert E (scenario_job user_id) = None ->
  events_of (snd (generate E user_id SCENARIO_URL s))
  = [Status STARTING; Status GETTING_INFO;
     Status (FOUND_VIDEO ++ SCENARIO_TITLE); Status DOWNLOADING;
     Status TRANSCRIBING; Transcript SCENARIO_TRANSCRIPT; Status GENERATING;
     SummaryChunk (lit "Hello"); SummaryChunk (lit " world");
     SummaryChunk (lit "."); Status SAVING;
     Complete SCENARIO_TITLE COMPLETED]
  /\ db (snd (fst (generate E user_id SCENARIO_URL s)))
     = db s ++ [scenario_job user_id]
  /\ job_transcript (scenario_job user_id) = lit "hello world"
  /\ job_summary (scenario_job user_id) = concat SCENARIO_CHUNKS.
Proof.
  intros Hinit Hinfo Hdl Hdec Hstream Hdb.
  assert (Htitle : title_of E SCENARIO_URL = SCENARIO_TITLE).
  { unfold title_of. rewrite Hinfo. reflexivity. }
  assert (Hoc : pipeline_outcome E user_id SCENARIO_URL
                  (downloaded E SCENARIO_URL s)
                = ([Status STARTING; Status GETTING_INFO;
                    Status (FOUND_VIDEO ++ SCENARIO_TITLE); Status DOWNLOADING;
                    Status TRANSCRIBING; Transcript SCENARIO_TRANSCRIPT;
                    Status GENERATING;
                    SummaryChunk (lit "Hello"); SummaryChunk (lit " world");
                    SummaryChunk (lit "."); Status SAVING],
                   inr (scenario_job user_id))).
  { unfold pipeline_outcome, transcript_outcome. rewrite Hinit, Hdl, Hdec, Htitle.
    change (transcript_of SCENARIO_TRANSCRIPT) with SCENARIO_TRANSCRIPT.
    unfold summary_outcome. rewrite Hstream. cbn [fst snd].
    unfold save_outcome.
    change (mkJob user_id SCENARIO_URL SCENARIO_TITLE SCENARIO_TRANSCRIPT
              (concat SCENARIO_CHUNKS)) with (scenario_job user_id).
    rewrite Hdb. reflexivity. }
  split; [|split; [|split; reflexivity]].
  - rewrite generate_events, Hoc. reflexivity.
  - destruct (generate_runs E user_id SCENARIO_URL s)
      as [s' [o1 [o2 [Hrun [_ [_ [Hsaved _]]]]]]].
    rewrite Hrun, Hoc in *. exact Hsaved.
Qed.

Lemma scenario_run_witness :
  events_of (snd (generate scenario_env 1 SCENARIO_URL empty_store))
  = [Status STARTING; Status GETTING_INFO;
     Status (FOUND_VIDEO ++ SCENARIO_TITLE); Status DOWNLOADING;
     Status TRANSCRIBING; Transcript SCENARIO_TRANSCRIPT; Status GENERATING;
     SummaryChunk (lit "Hello"); SummaryChunk (lit " world");
     SummaryChunk (lit "."); Status SAVING;
     Complete SCENARIO_TITLE COMPLETED]
  /\ db (snd (fst (generate scenario_env 1 SCENARIO_URL empty_store)))
     = db empty_store ++ [scenario_job 1]
  /\ job_transcript (scenario_job 1) = lit "hello world"
  /\ job_summary (scenario_job 1) = concat SCENARIO_CHUNKS.
Proof.
  apply (@scenario_run scenario_env 1%Z empty_store AUDIO_FILE
           (Some (lit "abc123")));
    reflexivity.
Defined.

(** C2, as the spec words it, fails: the scenario does not yield three
    status events before the transcript; its fourth event is a status. *)
Lemma scenario_not_three_statuses :
  nth_error (events_of (snd (generate scenario_env 1 SCENARIO_URL empty_store)))
    3 = Some (Status DOWNLOADING)
  /\ ~ spec_scenario_events
         (events_of (snd (generate scenario_env 1 SCENARIO_URL empty_store))).
Proof.
  split; [reflexivity|].
  intros [m1 [m2 [m3 [m4 [m5 [m6 H]]]]]].
  apply (f_equal (fun l => nth_error l 3)) in H.
  vm_compute in H. discriminate.
Qed.

(** ** The empty url *)




(** ** The fallback to the one-shot summarizer *)

(** C4, as the code has it. When the incremental summarizer raises, at the
    first chunk or later, the run yields the chunks produced so far, then
    the status Streaming failed, generating complete summary..., and calls
    the one-shot summarizer. If that returns a text, the text, empty or
    not, is yielded as one [summary_chunk], it alone becomes the summary,
    and the run goes on to save. When the block of the insertion returns,
    the table has grown by exactly one row and the run ends with
    [complete]. When it raises, the run ends with [error]; the table has
    then grown by that one row if the commit had gone through, so that the
    exception is the one of the closing, and is as before otherwise. If the
    one-shot summarizer raises, the run ends with [error] and nothing is
    saved. In no case is a second row saved. *)
Theorem stream_failure_falls_back (E : env) (user_id : Z)
  (video_url file raw : pystr) (e : exn) (s : store) :
  init_converter E = None ->
  downloaded E video_url s = inr file ->
  decode E file = inr raw ->
  snd (llm_stream E (stream_prompt (transcript_of raw))) = Some e ->
  let transcript := transcript_of raw in
  let title := title_of E video_url in
  let chunks := fst (llm_stream E (stream_prompt transcript)) in
  let row := mkJob user_id video_url title transcript in
  let run := generate E user_id video_url s in
  events_of (snd run)
  = [Status STARTING; Status GETTING_INFO; Status (FOUND_VIDEO ++ title);
     Status DOWNLOADING; Status TRANSCRIBING; Transcript transcript;
     Status GENERATING]
    ++ map SummaryChunk chunks
    ++ [Status STREAMING_FAILED]
    ++ match llm_invoke E (summary_prompt transcript) with
       | inl e' => [Error e']
       | inr summary =>
           [SummaryChunk summary; Status SAVING]
           ++ match db_insert E (row summary) with
              | Some e' => [Error e']
              | None => [Complete title COMPLETED]
              end
       end
  /\ db (snd (fst run))
     = db s
       ++ match llm_invoke E (summary_prompt transcript) with
          | inl _ => []
          | inr summary =>
              match db_insert E (row summary) with
              | Some _ =>
                  if db_committed E (row summary) then [row summary] else []
              | None => [row summary]
              end
          end.
Proof.
  intros Hinit Hdl Hdec Hstream transcript title chunks row run.
  assert (Hoc : pipeline_outcome E user_id video_url
                  (downloaded E video_url s)
                = prepend
                    ([Status STARTING; Status GETTING_INFO;
                      Status (FOUND_VIDEO ++ title); Status DOWNLOADING;
                      Status TRANSCRIBING; Transcript transcript;
                      Status GENERATING]
                     ++ map SummaryChunk chunks ++ [Status STREAMING_FAILED])
                    match llm_invoke E (summary_prompt transcript) with
                    | inl e' => ([], inl (e', []))
                    | inr summary =>
                        prepend [SummaryChunk summary]
                          (save_outcome E (row summary))
                    end).
  { unfold pipeline_outcome, transcript_outcome. rewrite Hinit, Hdl, Hdec.
    fold transcript title. unfold summary_outcome. fold chunks.
    fold transcript in Hstream. rewrite Hstream. unfold fallback_outcome.
    fold row.
    destruct (llm_invoke E (summary_prompt transcript)) as [e'|summary];
      unfold prepend; cbn [fst snd app]; rewrite <- ?app_assoc; reflexivity. }
  subst run. split.
  - rewrite generate_events, Hoc.
    destruct (llm_invoke E (summary_prompt transcript)) as [e'|summary].
    + cbn [prepend fst snd terminal_of]. rewrite !app_nil_r, <- !app_assoc.
      reflexivity.
    + unfold save_outcome. cbn [prepend fst snd].
      destruct (db_insert E (row summary));
        cbn [terminal_of]; rewrite <- !app_assoc; reflexivity.
  - destruct (generate_runs E user_id video_url s)
      as [s' [o1 [o2 [Hrun [_ [_ [Hsaved _]]]]]]].
    rewrite Hrun, Hoc in *. cbn [fst snd]. rewrite Hsaved.
    destruct (llm_invoke E (summary_prompt transcript)) as [e'|summary];
      [reflexivity|].
    unfold save_outcome. cbn [prepend fst snd].
    destruct (db_insert E (row summary)); reflexivity.
Qed.

Lemma stream_failure_falls_back_witness :
  events_of (snd (generate half_stream_env 1 SCENARIO_URL empty_store))
  = [Status STARTING; Status GETTING_INFO;
     Status (FOUND_VIDEO ++ SCENARIO_TITLE);
     Status DOWNLOADING; Status TRANSCRIBING; Transcript SCENARIO_TRANSCRIPT;
     Status GENERATING; SummaryChunk (lit "Hel"); Status STREAMING_FAILED;
     SummaryChunk SCENARIO_SUMMARY; Status SAVING;
     Complete SCENARIO_TITLE COMPLETED]
  /\ db (snd (fst (generate half_stream_env 1 SCENARIO_URL empty_store)))
     = [scenario_job 1].
Proof.
  exact (@stream_failure_falls_back half_stream_env 1%Z SCENARIO_URL
           AUDIO_FILE SCENARIO_TRANSCRIPT STREAM_DOWN empty_store
           eq_refl eq_refl eq_refl eq_refl).
Defined.

(** C4, as the spec words it, fails. When the one-shot summarizer returns
    the empty text, the fallback chunk is empty; when it raises, the run
    ends with [error], without [complete] and without a saved row. *)
Lemma fallback_not_guaranteed :
  events_of (snd (generate mute_fallback_env 1 SCENARIO_URL empty_store))
  = [Status STARTING; Status GETTING_INFO;
     Status (FOUND_VIDEO ++ SCENARIO_TITLE);
     Status DOWNLOADING; Status TRANSCRIBING; Transcript SCENARIO_TRANSCRIPT;
     Status GENERATING; Status STREAMING_FAILED;
     SummaryChunk []; Status SAVING; Complete SCENARIO_TITLE COMPLETED]
  /\ existsb is_nonempty_chunk
       (events_of (snd (generate mute_fallback_env 1 SCENARIO_URL empty_store)))
     = false
  /\ events_of (snd (generate dead_fallback_env 1 SCENARIO_URL empty_store))
     = [Status STARTING; Status GETTING_INFO;
        Status (FOUND_VIDEO ++ SCENARIO_TITLE);
        Status DOWNLOADING; Status TRANSCRIBING;
        Transcript SCENARIO_TRANSCRIPT;
        Status GENERATING; Status STREAMING_FAILED;
        Error (lit "model unavailable")]
  /\ db (snd (fst (generate dead_fallback_env 1 SCENARIO_URL empty_store)))
     = [].
Proof. repeat split. Qed.

(** ** A failing metadata resolution *)

Lemma summary_outcome_saves (E : env) (row : pystr -> job) (transcript : pystr) :
  (snd (llm_stream E (stream_prompt transcript)) = None
   \/ exists x, llm_invoke E (summary_prompt transcript) = inr x) ->
  (forall r, db_insert E r = None) ->
  exists summary, snd (summary_outcome E row transcript) = inr (row summary).
Proof.
  intros Hsum Hdb. unfold summary_outcome, fallback_outcome, save_outcome.
  cbn [prepend snd].
  destruct (snd (llm_stream E (stream_prompt transcript))) as [e|] eqn:Hs.
  - destruct Hsum as [Hnone | [x Hx]]; [discriminate|].
    rewrite Hx. cbn [prepend snd]. rewrite Hdb. now exists x.
  - rewrite Hdb. eexists. reflexivity.
Qed.

(** C6, as the code has it. When the metadata resolution raises and the
    download succeeds, the run is not aborted: the title is the sentinel
    Unknown_Video, the run announces it, downloads and starts the
    transcription. If the transcription, the summarization (incremental, or
    one-shot after a failed stream) and the insertion succeed, the run ends
    with [complete] whose title is Unknown_Video, and the saved row has that
    title. *)
Theorem metadata_failure_not_fatal (E : env) (user_id : Z)
  (video_url file : pystr) (e : exn) (s : store) :
  init_converter E = None ->
  extract_info E video_url = inl e ->
  downloaded E video_url s = inr file ->
  let run := generate E user_id video_url s in
  (exists rest,
     events_of (snd run)
     = [Status STARTING; Status GETTING_INFO;
        Status (FOUND_VIDEO ++ UNKNOWN_VIDEO); Status DOWNLOADING;
        Status TRANSCRIBING] ++ rest)
  /\ (forall raw,
        decode E file = inr raw ->
        (snd (llm_stream E (stream_prompt (transcript_of raw))) = None
         \/ exists x,
              llm_invoke E (summary_prompt (transcript_of raw)) = inr x) ->
        (forall r, db_insert E r = None) ->
        exists before summary,
          events_of (snd run)
          = before ++ [Complete UNKNOWN_VIDEO COMPLETED]
          /\ forallb nonterminal before = true
          /\ db (snd (fst run))
             = db s ++ [mkJob user_id video_url UNKNOWN_VIDEO
                          (transcript_of raw) summary]).
Proof.
  intros Hinit Hinfo Hdl run.
  assert (Htitle : title_of E video_url = UNKNOWN_VIDEO).
  { unfold title_of. now rewrite Hinfo. }
  pose proof (generate_events E user_id video_url s) as Hev.
  destruct (generate_runs E user_id video_url s)
    as [s' [o1 [o2 [Hrun [_ [_ [Hsaved _]]]]]]].
  pose proof (nonterminal_pipeline E user_id video_url
                (downloaded E video_url s)) as Hnt.
  cbv zeta in Hev. subst run.
  set (oc := pipeline_outcome E user_id video_url (downloaded E video_url s))
    in *.
  assert (Hoc : oc = prepend [Status STARTING; Status GETTING_INFO;
                              Status (FOUND_VIDEO ++ UNKNOWN_VIDEO);
                              Status DOWNLOADING]
                       (transcript_outcome E
                          (mkJob user_id video_url UNKNOWN_VIDEO) file)).
  { subst oc. unfold pipeline_outcome. rewrite Hinit, Hdl, Htitle.
    reflexivity. }
  split.
  - rewrite Hev, Hoc. unfold transcript_outcome. cbn [prepend fst snd app].
    eexists. reflexivity.
  - intros raw Hdec Hsum Hdb.
    destruct (summary_outcome_saves E
                (mkJob user_id video_url UNKNOWN_VIDEO (transcript_of raw))
                (transcript_of raw) Hsum Hdb) as [summary Hsaves].
    assert (Hsnd : snd oc = inr (mkJob user_id video_url UNKNOWN_VIDEO
                                   (transcript_of raw) summary)).
    { rewrite Hoc. unfold transcript_outcome. rewrite Hdec.
      cbn [prepend snd]. exact Hsaves. }
    exists (fst oc), summary. rewrite Hev, Hrun. cbn [fst snd].
    rewrite Hsaved, Hsnd. cbn [terminal_of saved_of job_video_title].
    repeat split. exact Hnt.
Qed.

Lemma metadata_failure_not_fatal_witness :
  exists before summary,
    events_of (snd (generate no_metadata_env 1 SCENARIO_URL empty_store))
    = before ++ [Complete UNKNOWN_VIDEO COMPLETED]
    /\ forallb nonterminal before = true
    /\ db (snd (fst (generate no_metadata_env 1 SCENARIO_URL empty_store)))
       = db empty_store
         ++ [mkJob 1 SCENARIO_URL UNKNOWN_VIDEO
               (transcript_of SCENARIO_TRANSCRIPT) summary].
Proof.
  apply (proj2 (@metadata_failure_not_fatal no_metadata_env 1%Z SCENARIO_URL
                  AUDIO_FILE (lit "Video unavailable") empty_store
                  eq_refl eq_refl eq_refl) SCENARIO_TRANSCRIPT).
  - reflexivity.
  - left. reflexivity.
  - reflexivity.
Defined.

(** C6, as the spec words it, fails: the metadata resolution raises and the
    download succeeds, yet the run ends with [error], because the
    transcription raises. *)
Lemma metadata_failure_then_error :
  extract_info no_metadata_no_speech_env SCENARIO_URL
  = inl (lit "Video unavailable")
  /\ downloaded no_metadata_no_speech_env SCENARIO_URL empty_store
     = inr AUDIO_FILE
  /\ events_of (snd (generate no_metadata_no_speech_env 1 SCENARIO_URL
                       empty_store))
     = [Status STARTING; Status GETTING_INFO;
        Status (FOUND_VIDEO ++ UNKNOWN_VIDEO); Status DOWNLOADING;
        Status TRANSCRIBING;
        Error (TRANSCRIPTION_FAILED ++ lit "no audio stream")]
  /\ existsb is_complete
       (events_of (snd (generate no_metadata_no_speech_env 1 SCENARIO_URL
                          empty_store))) = false.
Proof. repeat split. Qed.

(** ** Frames *)

Lemma hexdigit_printable (d : N) :
  (d < 16)%N -> printable (Json.hexdigit d) = true.
Proof.
  intros H. unfold printable, Json.hexdigit.
  destruct (N.ltb_spec d 10); apply andb_true_iff; split;
    apply N.leb_le; lia.
Qed.

Lemma hex4_printable (n : N) : forallb printable (Json.hex4 n) = true.
Proof.
  unfold Json.hex4. cbn [forallb].
  rewrite !hexdigit_printable; [reflexivity | | | |];
    apply N.mod_lt; discriminate.
Qed.

Lemma uescape_printable (n : N) : forallb printable (Json.uescape n) = true.
Proof.
  unfold Json.uescape. rewrite forallb_app, hex4_printable. reflexivity.
Qed.

Lemma escape_char_printable (c : N) :
  forallb printable (Json.escape_char c) = true.
Proof.
  unfold Json.escape_char.
  repeat match goal with
         | |- context [if ?b then _ else _] =>
             let H := fresh "H" in destruct b eqn:H; [try reflexivity|]
         end.
  - cbn [forallb]. unfold printable.
    match goal with
    | Hc : (_ && _)%bool = true |- _ => now rewrite Hc
    end.
  - apply uescape_printable.
  - rewrite forallb_app, !uescape_printable. reflexivity.
Qed.

Lemma forallb_flat_map {A B} (p : B -> bool) (f : A -> list B) (l : list A) :
  (forall a, forallb p (f a) = true) -> forallb p (flat_map f l) = true.
Proof.
  intros H. induction l as [|a l IH]; simpl; [reflexivity|].
  now rewrite forallb_app, H, IH.
Qed.

Lemma encode_string_printable (s : pystr) :
  forallb printable (Json.encode_string s) = true.
Proof.
  unfold Json.encode_string. rewrite !forallb_app.
  rewrite (forallb_flat_map _ _ _ escape_char_printable). reflexivity.
Qed.

Lemma encode_items_printable (d : list (pystr * pystr)) :
  forallb printable (Json.encode_items d) = true.
Proof.
  induction d as [|[k v] d IH]; [reflexivity|].
  cbn [Json.encode_items]. destruct d as [|kv d].
  - now rewrite !forallb_app, !encode_string_printable.
  - now rewrite !forallb_app, !encode_string_printable, IH.
Qed.

Lemma dumps_printable (d : list (pystr * pystr)) :
  forallb printable (Json.dumps d) = true.
Proof.
  unfold Json.dumps. now rewrite !forallb_app, encode_items_printable.
Qed.

Lemma frame_body_printable (e : event) :
  forallb printable (frame_body e) = true.
Proof.
  unfold frame_body. now rewrite forallb_app, dumps_printable.
Qed.

Lemma printable_no_newline (s : pystr) :
  forallb printable s = true -> ~ In NL s.
Proof.
  intros H Hin. rewrite forallb_forall in H. specialize (H NL Hin).
  discriminate.
Qed.

Lemma split_frames_step (body rest acc : pystr) :
  forallb printable body = true ->
  split_frames_from acc (body ++ [NL; NL] ++ rest)
  = (rev acc ++ body) :: split_frames_from [] rest.
Proof.
  revert acc. induction body as [|c b IH]; intros acc Hp.
  - cbn. now rewrite app_nil_r.
  - cbn [forallb] in Hp. apply andb_true_iff in Hp as [Hc Hb].
    assert (Hne : (c =? NL)%N = false).
    { apply N.eqb_neq. intros ->. discriminate. }
    specialize (IH (c :: acc) Hb). cbn [rev] in IH.
    rewrite <- app_assoc in IH. cbn [app] in IH. rewrite <- IH.
    cbn [app split_frames_from]. rewrite Hne. cbn [andb].
    destruct b; reflexivity.
Qed.

(** Splitting the text of a stream on the blank lines gives the bodies of
    the frames, one per event and in order, and an empty rest. *)
Lemma split_frames_events (events : list event) :
  split_frames_from [] (response_text (map frame events))
  = map frame_body events ++ [[]].
Proof.
  unfold response_text. induction events as [|e l IH]; [reflexivity|].
  cbn [map concat]. unfold frame at 1. rewrite <- app_assoc.
  rewrite split_frames_step by apply frame_body_printable.
  rewrite IH. reflexivity.
Qed.

Lemma to_dict_kind (e : event) :
  exists kind fields,
    to_dict e = (lit "type", kind) :: fields /\ In kind KINDS.
Proof.
  destruct e; eexists; eexists; (split; [reflexivity|]); cbn; tauto.
Qed.

Lemma stream_response_frames (E : env) (req : request) (s s' : store)
  (frames : list pystr) (o : list item) :
  process_video_stream E req s = (StreamResponse frames, s', o) ->
  frames = map frame (events_of o).
Proof.
  unfold process_video_stream, json_error. intros H.
  repeat match type of H with
         | context [match ?x with _ => _ end] => destruct x; try discriminate
         end.
  injection H as <- _ <-. reflexivity.
Qed.

(** ** Reading the frames back *)

Lemma unhex_hexdigit (d : N) :
  (d < 16)%N -> Client.unhex (Json.hexdigit d) = Some d.
Proof.
  intros H. rewrite <- (N2Nat.id d).
  assert (Hn : N.to_nat d < 16) by lia.
  revert Hn. generalize (N.to_nat d). intros n Hn.
  do 16 (destruct n as [|n]; [reflexivity|]). lia.
Qed.

Lemma hex4_value (n : N) :
  (n < 65536)%N ->
  ((((n / 4096) mod 16 * 16 + (n / 256) mod 16) * 16 + (n / 16) mod 16) * 16
   + n mod 16 = n)%N.
Proof.
  intros H.
  assert (E1 : (n / 256 = n / 16 / 16)%N)
    by (now rewrite N.Div0.div_div).
  assert (E2 : (n / 4096 = n / 16 / 16 / 16)%N)
    by (now rewrite !N.Div0.div_div).
  rewrite E1, E2.
  generalize (N.div_mod n 16 ltac:(lia)) (N.mod_lt n 16 ltac:(lia)).
  set (q1 := (n / 16)%N). set (r0 := (n mod 16)%N). intros D0 L0.
  generalize (N.div_mod q1 16 ltac:(lia)) (N.mod_lt q1 16 ltac:(lia)).
  set (q2 := (q1 / 16)%N). set (r1 := (q1 mod 16)%N). intros D1 L1.
  generalize (N.div_mod q2 16 ltac:(lia)) (N.mod_lt q2 16 ltac:(lia)).
  set (q3 := (q2 / 16)%N). set (r2 := (q2 mod 16)%N). intros D2 L2.
  assert (L3 : (q3 < 16)%N) by lia.
  rewrite (N.mod_small q3 16 L3). lia.
Qed.

Lemma read_chars_uescape (n : N) (acc tail : pystr) :
  (n < 65536)%N ->
  Client.read_chars acc (Json.uescape n ++ tail)
  = Client.read_chars (n :: acc) tail.
Proof.
  intros H.
  change (Json.uescape n ++ tail)
    with (92 :: 117 :: Json.hexdigit ((n / 4096) mod 16)
            :: Json.hexdigit ((n / 256) mod 16)
            :: Json.hexdigit ((n / 16) mod 16)
            :: Json.hexdigit (n mod 16) :: tail)%N.
  change (Client.read_chars acc
            (92 :: 117 :: Json.hexdigit ((n / 4096) mod 16)
               :: Json.hexdigit ((n / 256) mod 16)
               :: Json.hexdigit ((n / 16) mod 16)
               :: Json.hexdigit (n mod 16) :: tail)%N)
    with (match Client.unhex (Json.hexdigit ((n / 4096) mod 16)),
                Client.unhex (Json.hexdigit ((n / 256) mod 16)),
                Client.unhex (Json.hexdigit ((n / 16) mod 16)),
                Client.unhex (Json.hexdigit (n mod 16)) with
          | Some d3, Some d2, Some d1, Some d0 =>
              Client.read_chars
                ((((d3 * 16 + d2) * 16 + d1) * 16 + d0)%N :: acc) tail
          | _, _, _, _ => None
          end).
  rewrite !unhex_hexdigit by (apply N.mod_lt; lia).
  now rewrite hex4_value.
Qed.

Lemma lor_high (base x : N) :
  (base = 55296 \/ base = 56320)%N -> (x < 1024)%N ->
  N.lor base x = (base + x)%N.
Proof.
  intros Hb Hx.
  assert (Hall : forallb
            (fun k => (N.lor 55296 (N.of_nat k) =? 55296 + N.of_nat k)%N
                      && (N.lor 56320 (N.of_nat k) =? 56320 + N.of_nat k)%N)
            (seq 0 1024) = true) by (vm_compute; reflexivity).
  rewrite forallb_forall in Hall.
  specialize (Hall (N.to_nat x)).
  rewrite N2Nat.id in Hall.
  assert (Hin : In (N.to_nat x) (seq 0 1024)) by (apply in_seq; lia).
  apply Hall in Hin. apply andb_true_iff in Hin as [H1 H2].
  apply N.eqb_eq in H1, H2. destruct Hb; subst base; assumption.
Qed.

Lemma land_1023 (n : N) : N.land n 1023 = (n mod 1024)%N.
Proof. exact (N.land_ones n 10). Qed.

Lemma read_chars_escape (c : N) (acc tail : pystr) :
  Client.read_chars acc (Json.escape_char c ++ tail)
  = Client.read_chars (rev (utf16_units c) ++ acc) tail.
Proof.
  unfold Json.escape_char, utf16_units.
  destruct (N.eqb_spec c BACKSLASH) as [->|Hb]; [reflexivity|].
  destruct (N.eqb_spec c QUOTE) as [->|Hq]; [reflexivity|].
  destruct (N.eqb_spec c 8) as [->|H8]; [reflexivity|].
  destruct (N.eqb_spec c 12) as [->|H12]; [reflexivity|].
  destruct (N.eqb_spec c 10) as [->|H10]; [reflexivity|].
  destruct (N.eqb_spec c 13) as [->|H13]; [reflexivity|].
  destruct (N.eqb_spec c 9) as [->|H9]; [reflexivity|].
  destruct ((32 <=? c) && (c <=? 126))%N eqn:Hp.
  - apply andb_true_iff in Hp as [H32 H126].
    apply N.leb_le in H32, H126.
    assert (Hlt : (c <? 65536)%N = true) by (apply N.ltb_lt; lia).
    rewrite Hlt. cbn [rev app Client.read_chars].
    apply N.eqb_neq in Hb, Hq. rewrite Hq, Hb.
    assert (Hc : (c <? 32)%N = false) by (apply N.ltb_ge; lia).
    now rewrite Hc.
  - destruct (N.ltb_spec c 65536) as [Hlt|Hge].
    + cbn [rev app]. now apply read_chars_uescape.
    + cbn zeta. rewrite !land_1023, N.shiftr_div_pow2.
      change (2 ^ 10)%N with 1024%N.
      rewrite !lor_high by (auto; apply N.mod_lt; lia).
      rewrite <- app_assoc.
      rewrite read_chars_uescape
        by (pose proof (N.mod_lt ((c - 65536) / 1024) 1024 ltac:(lia)); lia).
      rewrite read_chars_uescape
        by (pose proof (N.mod_lt (c - 65536) 1024 ltac:(lia)); lia).
      reflexivity.
Qed.

Lemma read_chars_encoded (s : pystr) (acc tail : pystr) :
  Client.read_chars acc (flat_map Json.escape_char s ++ QUOTE :: tail)
  = Some (rev acc ++ utf16 s, tail).
Proof.
  revert acc. induction s as [|c s IH]; intros acc.
  - cbn. now rewrite app_nil_r.
  - cbn [flat_map]. rewrite <- app_assoc, read_chars_escape, IH.
    unfold utf16. cbn [flat_map].
    now rewrite rev_app_distr, rev_involutive, <- app_assoc.
Qed.

Lemma read_string_encoded (s tail : pystr) :
  Client.read_string (Json.encode_string s ++ tail) = Some (utf16 s, tail).
Proof.
  unfold Json.encode_string. cbn [app Client.read_string].
  change (QUOTE =? QUOTE)%N with true. cbn iota.
  rewrite <- app_assoc. cbn [app]. apply read_chars_encoded.
Qed.

Lemma encode_items_more (k v : pystr) (kv : pystr * pystr)
  (r : list (pystr * pystr)) :
  Json.encode_items ((k, v) :: kv :: r)
  = Json.encode_string k ++ lit ": " ++ Json.encode_string v ++ lit ", "
    ++ Json.encode_items (kv :: r).
Proof. reflexivity. Qed.

Lemma skip_ws_string (s t : pystr) :
  Client.skip_ws (Json.encode_string s ++ t) = Json.encode_string s ++ t.
Proof. reflexivity. Qed.

Lemma skip_ws_space_string (s t : pystr) :
  Client.skip_ws (32%N :: Json.encode_string s ++ t)
  = Json.encode_string s ++ t.
Proof. reflexivity. Qed.

Lemma read_member (fuel : nat) (acc : list (pystr * pystr))
  (s k v rest : pystr) :
  Client.skip_ws s
  = Json.encode_string k ++ lit ": " ++ Json.encode_string v ++ rest ->
  Client.read_members (S fuel) acc s
  = match Client.skip_ws rest with
    | c :: s4 =>
        if (c =? 44)%N
        then Client.read_members fuel ((utf16 k, utf16 v) :: acc) s4
        else if (c =? 125)%N
        then Some (rev ((utf16 k, utf16 v) :: acc), s4)
        else None
    | [] => None
    end.
Proof.
  intros H. cbn [Client.read_members]. rewrite H, read_string_encoded.
  change (lit ": " ++ Json.encode_string v ++ rest)
    with (58%N :: 32%N :: Json.encode_string v ++ rest).
  change (Client.skip_ws (58%N :: 32%N :: Json.encode_string v ++ rest))
    with (58%N :: 32%N :: Json.encode_string v ++ rest).
  cbv iota. change (58 =? 58)%N with true. cbv iota.
  rewrite skip_ws_space_string, read_string_encoded. reflexivity.
Qed.

Lemma read_members_encoded (d : list (pystr * pystr)) :
  forall (fuel : nat) (acc : list (pystr * pystr)) (s rest : pystr),
    d <> [] -> length d <= fuel ->
    Client.skip_ws s = Json.encode_items d ++ 125%N :: rest ->
    Client.read_members fuel acc s = Some (rev acc ++ utf16_dict d, rest).
Proof.
  induction d as [|[k v] r IH]; intros fuel acc s rest Hne Hfuel Hs;
    [congruence|].
  destruct fuel as [|fuel]; [cbn in Hfuel; lia|].
  destruct r as [|kv r].
  - cbn [Json.encode_items] in Hs. rewrite <- !app_assoc in Hs.
    rewrite (@read_member fuel acc _ _ _ _ Hs).
    cbn. reflexivity.
  - rewrite encode_items_more in Hs. rewrite <- !app_assoc in Hs.
    rewrite (@read_member fuel acc _ _ _ _ Hs).
    change (Client.skip_ws
              (lit ", " ++ Json.encode_items (kv :: r) ++ 125%N :: rest))
      with (44%N :: 32%N :: Json.encode_items (kv :: r) ++ 125%N :: rest).
    cbv iota. change (44 =? 44)%N with true. cbv iota.
    rewrite (IH fuel _ _ rest).
    + cbn [rev utf16_dict map fst snd]. now rewrite <- app_assoc.
    + discriminate.
    + cbn [length] in *. lia.
    + destruct kv as [k' v'], r as [|kv' r'];
        [cbn [Json.encode_items] | rewrite encode_items_more];
        rewrite <- !app_assoc; apply skip_ws_space_string.
Qed.

Lemma encode_items_length (d : list (pystr * pystr)) :
  length d <= length (Json.encode_items d).
Proof.
  induction d as [|[k v] r IH]; [cbn; lia|].
  destruct r as [|kv r].
  - cbn [Json.encode_items]. unfold Json.encode_string.
    rewrite !length_app. cbn [length]. lia.
  - rewrite encode_items_more. unfold Json.encode_string at 1.
    rewrite !length_app. cbn [length] in *. lia.
Qed.

(** What [json.dumps] writes, a client reads back as the same object. *)
Lemma loads_dumps (d : list (pystr * pystr)) :
  Client.loads (Json.dumps d) = Some (utf16_dict d).
Proof.
  unfold Json.dumps, Client.loads.
  change (lit "{" ++ Json.encode_items d ++ lit "}")
    with (123%N :: Json.encode_items d ++ [125%N]).
  change (Client.skip_ws (123%N :: Json.encode_items d ++ [125%N]))
    with (123%N :: Json.encode_items d ++ [125%N]).
  cbv iota. change (123 =? 123)%N with true. cbv iota.
  destruct d as [|[k v] r]; [reflexivity|].
  assert (Hs : Client.skip_ws (Json.encode_items ((k, v) :: r) ++ [125%N])
               = Json.encode_items ((k, v) :: r) ++ [125%N]).
  { destruct r as [|kv r];
      [cbn [Json.encode_items] | rewrite encode_items_more];
      rewrite <- !app_assoc; apply skip_ws_string. }
  rewrite Hs.
  assert (Hhead : exists t,
            Json.encode_items ((k, v) :: r) ++ [125%N] = QUOTE :: t).
  { destruct r as [|kv r];
      [cbn [Json.encode_items] | rewrite encode_items_more];
      unfold Json.encode_string at 1; cbn [app]; eexists; reflexivity. }
  destruct Hhead as [t Ht]. rewrite Ht. cbv iota.
  change (QUOTE =? 125)%N with false. cbv iota. rewrite <- Ht.
  rewrite (@read_members_encoded ((k, v) :: r) _ [] _ []).
  - reflexivity.
  - discriminate.
  - rewrite length_app. pose proof (encode_items_length ((k, v) :: r)). lia.
  - exact Hs.
Qed.

Lemma utf16_bmp (s : pystr) : bmp s = true -> utf16 s = s.
Proof.
  unfold bmp, utf16. induction s as [|c s IH]; [reflexivity|].
  cbn [forallb flat_map]. intros H. apply andb_true_iff in H as [Hc Hs].
  rewrite (IH Hs). unfold utf16_units. now rewrite Hc.
Qed.

Lemma utf16_event_bmp (e : event) : bmp_event e = true -> utf16_event e = e.
Proof.
  destruct e; cbn [bmp_event utf16_event]; intros H;
    try (now rewrite utf16_bmp).
  apply andb_true_iff in H as [H1 H2]. now rewrite !utf16_bmp.
Qed.

Lemma to_dict_utf16 (e : event) :
  utf16_dict (to_dict e) = to_dict (utf16_event e).
Proof. destruct e; reflexivity. Qed.

(** The object of an event names it: a client gets the event back. *)
Lemma read_event_to_dict (e : event) : Client.read_event (to_dict e) = Some e.
Proof. destruct e; reflexivity. Qed.

Lemma read_frame_body (e : event) :
  Client.read_frame (frame_body e) = Some (utf16_event e).
Proof.
  unfold Client.read_frame, frame_body.
  assert (Hsw : startswith (lit "data: ")
                  (lit "data: " ++ Json.dumps (to_dict e)) = true)
    by (apply startswith_spec; eexists; reflexivity).
  rewrite Hsw.
  change (skipn 6 (lit "data: " ++ Json.dumps (to_dict e)))
    with (Json.dumps (to_dict e)).
  now rewrite loads_dumps, to_dict_utf16, read_event_to_dict.
Qed.

Lemma removelast_snoc {A} (l : list A) (x : A) : removelast (l ++ [x]) = l.
Proof. apply removelast_last. Qed.

(** C7, as the code has it. Every event of a streaming run is written as
    one frame: the literal prefix data: and a space, then one JSON object,
    then a blank line. A client that parses the text of the object gets
    the dictionary of the event back, whose first field is [type] with one
    of the five kinds and whose other fields carry the event. The text
    before the blank line is printable ASCII and holds no newline, so a
    client that splits the response on the double newline gets back exactly
    that text for each event, in order, and reads from it the events of
    the run, in UTF-16 code units; these are the events themselves when
    their texts stay in the basic plane. *)
Theorem stream_frames (E : env) (req : request) (s s' : store)
  (frames : list pystr) (o : list item) :
  process_video_stream E req s = (StreamResponse frames, s', o) ->
  frames = map frame (events_of o)
  /\ Forall
       (fun e =>
          frame e = lit "data: " ++ Json.dumps (to_dict e) ++ [NL; NL]
          /\ Client.loads (Json.dumps (to_dict e))
             = Some (to_dict (utf16_event e))
          /\ Client.read_event (to_dict (utf16_event e))
             = Some (utf16_event e)
          /\ (exists kind fields,
                to_dict e = (lit "type", kind) :: fields /\ In kind KINDS)
          /\ forallb printable (frame_body e) = true
          /\ ~ In NL (frame_body e))
       (events_of o)
  /\ split_frames_from [] (response_text frames)
     = map frame_body (events_of o) ++ [[]]
  /\ map Client.read_frame
       (removelast (split_frames_from [] (response_text frames)))
     = map (fun e => Some (utf16_event e)) (events_of o)
  /\ (forallb bmp_event (events_of o) = true ->
      map Client.read_frame
        (removelast (split_frames_from [] (response_text frames)))
      = map Some (events_of o)).
Proof.
  intros H. apply stream_response_frames in H. subst frames.
  assert (Hread : map Client.read_frame
                    (removelast
                       (split_frames_from []
                          (response_text (map frame (events_of o)))))
                  = map (fun e => Some (utf16_event e)) (events_of o)).
  { rewrite split_frames_events, removelast_snoc, map_map.
    apply map_ext. intros e. apply read_frame_body. }
  split; [reflexivity|]. split; [|split; [apply split_frames_events|split]].
  - apply Forall_forall. intros e _.
    split; [|split; [|split; [|split; [|split]]]].
    + unfold frame, frame_body. now rewrite <- app_assoc.
    + now rewrite loads_dumps, to_dict_utf16.
    + apply read_event_to_dict.
    + apply to_dict_kind.
    + apply frame_body_printable.
    + apply printable_no_newline, frame_body_printable.
  - exact Hread.
  - intros Hbmp. rewrite Hread. apply map_ext_in. intros e He.
    rewrite forallb_forall in Hbmp. now rewrite utf16_event_bmp by auto.
Qed.

Lemma stream_frames_witness :
  exists frames s' o,
    process_video_stream scenario_env (request_for SCENARIO_URL) empty_store
    = (StreamResponse frames, s', o)
    /\ split_frames_from [] (response_text frames)
       = map frame_body (events_of o) ++ [[]]
    /\ map Client.read_frame
         (removelast (split_frames_from [] (response_text frames)))
       = map (fun e => Some (utf16_event e)) (events_of o).
Proof.
  eexists; eexists; eexists. split; [reflexivity|].
  pose proof (@stream_frames scenario_env (request_for SCENARIO_URL)
                empty_store _ _ _ eq_refl) as [_ [_ [H1 [H2 _]]]].
  split; [exact H1 | exact H2].
Defined.

(** C7, as the spec words it, fails: the first frame of the scenario is not
    the JSON object followed by a blank line; it starts with the letter d of
    the prefix, not with the opening brace. *)
Lemma frame_has_data_prefix :
  match
    fst (fst (process_video_stream scenario_env (request_for SCENARIO_URL)
                empty_store))
  with
  | StreamResponse (first :: _) =>
      first = frame (Status STARTING)
      /\ first <> spec_frame (Status STARTING)
      /\ hd_error first = Some 100%N
      /\ hd_error (spec_frame (Status STARTING)) = Some 123%N
  | _ => False
  end.
Proof.
  cbn. split; [reflexivity|]. split; [discriminate|]. split; reflexivity.
Qed.

(** ** The working directory *)

Lemma mem_In (x : pystr) (l : list pystr) : mem x l = true <-> In x l.
Proof.
  unfold mem. rewrite existsb_exists. split.
  - intros [y [Hy Heq]]. apply eqb_eq in Heq. now subst.
  - intros H. exists x. split; [exact H | apply eqb_refl].
Qed.

Lemma In_remove (f x : pystr) (l : list pystr) :
  In f (remove x l) <-> In f l /\ f <> x.
Proof.
  unfold remove. rewrite filter_In, negb_true_iff, eqb_neq.
  split; intros [H1 H2]; split; congruence.
Qed.

Lemma In_dedup (f : pystr) (l : list pystr) : In f (dedup l) <-> In f l.
Proof.
  induction l as [|x l IH]; [reflexivity|].
  cbn [dedup In]. rewrite In_remove, IH. split.
  - intros [H | [H _]]; auto.
  - intros [H | H]; [now left|].
    destruct (eqb x f) eqn:Hxf.
    + left. now apply eqb_eq.
    + right. split; [exact H|]. apply eqb_neq in Hxf. congruence.
Qed.

Lemma NoDup_remove (x : pystr) (l : list pystr) :
  NoDup l -> NoDup (remove x l).
Proof. apply NoDup_filter. Qed.

Lemma NoDup_dedup (l : list pystr) : NoDup (dedup l).
Proof.
  induction l as [|x l IH]; cbn [dedup]; constructor.
  - rewrite In_remove. intros [_ H]. now apply H.
  - now apply NoDup_remove.
Qed.

Lemma os_listdir_run (o : os_oracle) (s : store) :
  os_listdir o s
  = (match listdir_raises o with
     | Some e => inl e
     | None => inr (dedup (fs s))
     end, s, [Act AListdir]).
Proof.
  unfold os_listdir, bind, act, raise_if, get_store.
  destruct (listdir_raises o); reflexivity.
Qed.

Lemma os_remove_run (o : os_oracle) (f : pystr) (s : store) :
  In f (fs s) -> remove_raises o f = None ->
  os_remove o f s = (inr tt, set_fs (remove f (fs s)) s, [Act (ARemove f)]).
Proof.
  intros Hin Hcalm. apply mem_In in Hin.
  unfold os_remove, bind, act, get_store, raise_if, modify.
  cbn. rewrite Hin, Hcalm. reflexivity.
Qed.

(** On an operating system that refuses no removal, the loop of the sweep
    over a listing of the directory ends normally and leaves no listed file
    whose name starts with temp_audio. *)
Lemma sweep_loop_calm (o : os_oracle) (names : list pystr) (s : store) :
  (forall f, remove_raises o f = None) ->
  NoDup names ->
  (forall f, In f names -> In f (fs s)) ->
  exists s' log,
    for_each names (fun file =>
      if startswith TEMP_AUDIO file then os_remove o file else ret tt) s
    = (inr tt, s', log)
    /\ forall f, In f (fs s') ->
         In f (fs s) /\ (startswith TEMP_AUDIO f = true -> ~ In f names).
Proof.
  intros Hcalm. revert s.
  induction names as [|x r IH]; intros s Hnd Hin.
  - exists s, []. split; [reflexivity|]. intros f Hf. split; [exact Hf | tauto].
  - inversion Hnd as [|? ? Hx Hr]; subst.
    cbn [for_each]. unfold bind at 1.
    destruct (startswith TEMP_AUDIO x) eqn:Hpre.
    + rewrite os_remove_run by (auto using in_eq).
      destruct (IH (set_fs (remove x (fs s)) s) Hr) as [s' [log [Hrun Hfs]]].
      { intros f Hf. cbn. apply In_remove. split.
        - apply Hin. now right.
        - intros ->. contradiction. }
      rewrite Hrun. eexists; eexists. split; [reflexivity|].
      intros f Hf. destruct (Hfs f Hf) as [H1 H2]. cbn in H1.
      apply In_remove in H1 as [H1 Hne]. split; [exact H1|].
      intros Hp [Heq | Hr']; [congruence | now apply H2].
    + cbn [ret].
      destruct (IH s Hr) as [s' [log [Hrun Hfs]]].
      { intros f Hf. apply Hin. now right. }
      rewrite Hrun. eexists; eexists. split; [reflexivity|].
      intros f Hf. destruct (Hfs f Hf) as [H1 H2]. split; [exact H1|].
      intros Hp [Heq | Hr']; [congruence | now apply H2].
Qed.

Lemma sweep_temp_audio_calm (E : env) (s : store) :
  listdir_raises (cleanup_os E) = None ->
  (forall f, remove_raises (cleanup_os E) f = None) ->
  forall f, In f (fs (snd (fst (sweep_temp_audio E s)))) ->
            startswith TEMP_AUDIO f = false.
Proof.
  intros Hls Hrm f. unfold sweep_temp_audio, try_except.
  unfold bind at 1. rewrite os_listdir_run, Hls.
  destruct (@sweep_loop_calm (cleanup_os E) (dedup (fs s)) s Hrm
              (NoDup_dedup _)) as [s' [log [Hrun Hfs]]].
  { intros g. apply In_dedup. }
  rewrite Hrun. cbn [fst snd]. intros Hf.
  destruct (Hfs f Hf) as [H1 H2].
  destruct (startswith TEMP_AUDIO f); [|reflexivity].
  exfalso. apply H2; [reflexivity | now apply In_dedup].
Qed.

Lemma generate_finally_calm (E : env) (s : store) :
  listdir_raises (cleanup_os E) = None ->
  (forall f, remove_raises (cleanup_os E) f = None) ->
  forall f, In f (fs (snd (fst (generate_finally E s)))) ->
            startswith TEMP_AUDIO f = false.
Proof.
  intros Hls Hrm f. unfold generate_finally, bind.
  destruct (release_audio_file_returns E s) as [a Ha].
  destruct (release_audio_file E s) as [[r s1] o1]. cbn [fst] in Ha. subst r.
  pose proof (@sweep_temp_audio_calm E s1 Hls Hrm f) as H.
  destruct (sweep_temp_audio E s1) as [[r s2] o2]. exact H.
Qed.

(** ** The log of the cleanup *)

Section LogsOnly.

Variable p : item -> bool.

Lemma logs_only_ret {A} (a : A) : logs_only p (ret a).
Proof. intros s. reflexivity. Qed.

Lemma logs_only_get_store : logs_only p get_store.
Proof. intros s. reflexivity. Qed.

Lemma logs_only_modify (f : store -> store) : logs_only p (modify f).
Proof. intros s. reflexivity. Qed.

Lemma logs_only_raise_if (r : option exn) : logs_only p (raise_if r).
Proof. intros s. destruct r; reflexivity. Qed.

Lemma logs_only_bind {A B} (m : M A) (k : A -> M B) :
  logs_only p m -> (forall a, logs_only p (k a)) -> logs_only p (bind m k).
Proof.
  intros Hm Hk s. unfold bind. specialize (Hm s).
  destruct (m s) as [[[e|a] s1] o1]; cbn [snd] in *; [exact Hm|].
  specialize (Hk a s1). destruct (k a s1) as [[r s2] o2]; cbn [snd] in *.
  now rewrite forallb_app, Hm, Hk.
Qed.

Lemma logs_only_try_except {A} (m : M A) (h : exn -> M A) :
  logs_only p m -> (forall e, logs_only p (h e)) ->
  logs_only p (try_except m h).
Proof.
  intros Hm Hh s. unfold try_except. specialize (Hm s).
  destruct (m s) as [[[e|a] s1] o1]; cbn [snd] in *; [|exact Hm].
  specialize (Hh e s1). destruct (h e s1) as [[r s2] o2]; cbn [snd] in *.
  now rewrite forallb_app, Hm, Hh.
Qed.

Lemma logs_only_for_each {A} (l : list A) (body : A -> M unit) :
  (forall a, logs_only p (body a)) -> logs_only p (for_each l body).
Proof.
  intros H. induction l as [|x l IH]; cbn [for_each].
  - apply logs_only_ret.
  - apply logs_only_bind; auto.
Qed.

End LogsOnly.

Lemma logs_only_os_remove (o : os_oracle) (f : pystr) :
  logs_only is_remove_item (os_remove o f).
Proof.
  intros s. unfold os_remove, bind, act, get_store, raise_if, modify, raise.
  cbn. destruct (mem f (fs s)); [|reflexivity].
  destruct (remove_raises o f); reflexivity.
Qed.

Lemma logs_only_release_audio_file (E : env) :
  logs_only is_remove_item (release_audio_file E).
Proof.
  unfold release_audio_file.
  apply logs_only_bind; [apply logs_only_get_store|]. intros s0.
  destruct (audio_file s0) as [file|]; [|apply logs_only_ret].
  destruct (truthy file); [|apply logs_only_ret].
  apply logs_only_bind.
  - unfold os_path_exists. apply logs_only_bind;
      [apply logs_only_get_store | intros; apply logs_only_ret].
  - intros [|]; [|apply logs_only_ret].
    apply logs_only_try_except;
      [apply logs_only_os_remove | intros; apply logs_only_ret].
Qed.

Lemma logs_only_sweep_body (o : os_oracle) (file : pystr) :
  logs_only is_remove_item
    (if startswith TEMP_AUDIO file then os_remove o file else ret tt).
Proof.
  destruct (startswith TEMP_AUDIO file);
    [apply logs_only_os_remove | apply logs_only_ret].
Qed.

(** The sweep logs one listing of the directory, then removals only. *)
Lemma sweep_temp_audio_log (E : env) (s : store) :
  exists removals,
    snd (sweep_temp_audio E s) = Act AListdir :: removals
    /\ forallb is_remove_item removals = true.
Proof.
  unfold sweep_temp_audio, try_except. unfold bind at 1.
  rewrite os_listdir_run.
  destruct (listdir_raises (cleanup_os E)) as [e|].
  - exists []. split; reflexivity.
  - pose proof (logs_only_for_each (dedup (fs s)) _
                  (logs_only_sweep_body (cleanup_os E)) s) as Hlog.
    destruct (for_each _ _ s) as [[[e|[]] s1] o1]; cbn [snd app ret] in *.
    + exists (o1 ++ []). split; [reflexivity|].
      now rewrite forallb_app, Hlog.
    + exists o1. split; [reflexivity | exact Hlog].
Qed.

Lemma generate_finally_log (E : env) (s : store) :
  exists released removals,
    snd (generate_finally E s) = released ++ [Act AListdir] ++ removals
    /\ forallb is_remove_item released = true
    /\ forallb is_remove_item removals = true.
Proof.
  unfold generate_finally, bind.
  destruct (release_audio_file_returns E s) as [a Ha].
  pose proof (logs_only_release_audio_file E s) as Hrel.
  destruct (release_audio_file E s) as [[r s1] o1]. cbn [fst snd] in *.
  subst r.
  destruct (sweep_temp_audio_log E s1) as [removals [Hlog Hrem]].
  destruct (sweep_temp_audio E s1) as [[r s2] o2]. cbn [snd] in *. subst o2.
  exists o1, removals. auto.
Qed.

(** ** Cleanup *)

Lemma generate_ignores_cleanup_os (E : env) (o : os_oracle) (user_id : Z)
  (video_url : pystr) (s : store) :
  events_of (snd (generate (with_cleanup_os o E) user_id video_url s))
  = events_of (snd (generate E user_id video_url s)).
Proof. rewrite !generate_events. reflexivity. Qed.

(** C5, as the spec words it, fails. In the synchronous [process_video] a
    run that completes normally removes the audio file only: the directory
    is listed once, before the download, the sweep is not performed, and a
    second artifact of the download is left. In [generate], when the
    operating system refuses the removal, the exception is dropped and the
    audio file that the run created is still there after the run. *)
Lemma cleanup_not_guaranteed :
  fst (fst (process_video leftover_env SCENARIO_URL empty_store))
  = inr (Some SCENARIO_TRANSCRIPT, Some SCENARIO_SUMMARY)
  /\ map is_listdir
       (actions_of (snd (process_video leftover_env SCENARIO_URL empty_store)))
     = [false; true; false; false; false; false; false; false]
  /\ nth_error
       (actions_of (snd (process_video leftover_env SCENARIO_URL empty_store)))
       2 = Some (AYdlDownload SCENARIO_URL)
  /\ fs (snd (fst (process_video leftover_env SCENARIO_URL empty_store)))
     = [LEFTOVER; TRANSCRIPTION_DIR; SUMMARIES_DIR]
  /\ last (events_of (snd (generate stubborn_env 1 SCENARIO_URL empty_store)))
       (Status [])
     = Complete SCENARIO_TITLE COMPLETED
  /\ fs (snd (fst (generate stubborn_env 1 SCENARIO_URL empty_store)))
     = [AUDIO_FILE].
Proof. repeat split. Qed.

(** * Further properties of the code *)

(** ** The URL utility, again *)

Lemma lstrip_head (s : pystr) (c : N) (r : pystr) :
  lstrip s = c :: r -> isspace c = false.
Proof.
  induction s as [|x s IH]; simpl; [discriminate|].
  destruct (isspace x) eqn:Hx; [exact IH|].
  intros H. injection H as -> _. exact Hx.
Qed.

Lemma lstrip_fixed (s : pystr) :
  match s with [] => True | c :: _ => isspace c = false end -> lstrip s = s.
Proof. destruct s as [|c r]; simpl; [reflexivity | now intros ->]. Qed.

Lemma lstrip_lstrip (s : pystr) : lstrip (lstrip s) = lstrip s.
Proof.
  apply lstrip_fixed. destruct (lstrip s) as [|c r] eqn:H; [exact I|].
  now apply lstrip_head in H.
Qed.

Lemma rstrip_rstrip (s : pystr) : rstrip (rstrip s) = rstrip s.
Proof. unfold rstrip. now rewrite rev_involutive, lstrip_lstrip. Qed.

Lemma rstrip_prefix (s : pystr) :
  exists b, s = rstrip s ++ b.
Proof.
  destruct (lstrip_decomp (rev s)) as [a [Ha _]]. exists (rev a).
  unfold rstrip. rewrite <- rev_app_distr, <- Ha. now rewrite rev_involutive.
Qed.

Lemma lstrip_rstrip_lstrip (s : pystr) :
  lstrip (rstrip (lstrip s)) = rstrip (lstrip s).
Proof.
  apply lstrip_fixed.
  destruct (rstrip_prefix (lstrip s)) as [b Hb].
  destruct (rstrip (lstrip s)) as [|c r]; [exact I|].
  rewrite <- app_comm_cons in Hb. now apply lstrip_head in Hb.
Qed.

(** Trimming a trimmed string changes nothing. *)
Lemma strip_strip (s : pystr) : strip (strip s) = strip s.
Proof.
  unfold strip at 1. unfold strip.
  now rewrite lstrip_rstrip_lstrip, rstrip_rstrip.
Qed.

Lemma rstrip_fixed (s : pystr) :
  match rev s with [] => True | c :: _ => isspace c = false end ->
  rstrip s = s.
Proof.
  intros H. unfold rstrip. rewrite (lstrip_fixed _ H). apply rev_involutive.
Qed.

Lemma strip_last (s : pystr) :
  match rev (strip s) with [] => True | c :: _ => isspace c = false end.
Proof.
  unfold strip, rstrip. rewrite rev_involutive.
  destruct (lstrip (rev (lstrip s))) as [|c r] eqn:H; [exact I|].
  now apply lstrip_head in H.
Qed.

Lemma watch_url_trimmed (v : pystr) :
  strip v = v -> strip (WATCH_PREFIX ++ v) = WATCH_PREFIX ++ v.
Proof.
  intros Hv. unfold strip. rewrite (lstrip_fixed (WATCH_PREFIX ++ v)) by reflexivity.
  apply rstrip_fixed. rewrite rev_app_distr.
  pose proof (strip_last v) as Hlast. rewrite Hv in Hlast.
  destruct (rev v) as [|c r]; [reflexivity | exact Hlast].
Qed.

Lemma watch_url_has_host (v : pystr) :
  contains (lit "youtube.com") (WATCH_PREFIX ++ v) = true.
Proof.
  apply contains_spec. exists (lit "https://www."), (lit "/watch?v=" ++ v).
  reflexivity.
Qed.

Lemma contains_nonempty (sub s : pystr) :
  sub <> [] -> contains sub s = true -> s <> [].
Proof.
  intros Hsub H ->. destruct sub; [contradiction | discriminate].
Qed.

Lemma validate_video_url_some (u : pystr) :
  u <> [] ->
  validate_video_url (Some u)
  = Some (if contains (lit "youtube.com") (strip u)
             || contains (lit "youtu.be") (strip u)
          then strip u else WATCH_PREFIX ++ strip u).
Proof.
  intros Hu. destruct u as [|c r]; [contradiction|].
  unfold validate_video_url. cbn [truthy negb].
  now destruct (_ || _).
Qed.

(** X1. Normalising a normalised url changes nothing. *)
Theorem validate_video_url_idempotent (video_input : option pystr) :
  validate_video_url (validate_video_url video_input)
  = validate_video_url video_input.
Proof.
  destruct video_input as [[|c0 s0]|]; [reflexivity| |reflexivity].
  rewrite (@validate_video_url_some (c0 :: s0)) by discriminate.
  set (v := strip (c0 :: s0)).
  assert (Hv : strip v = v) by apply strip_strip.
  destruct (contains (lit "youtube.com") v || contains (lit "youtu.be") v)
    eqn:Hc.
  - assert (Hne : v <> []).
    { apply orb_true_iff in Hc as [Hc|Hc];
        (eapply contains_nonempty; [|exact Hc]; discriminate). }
    rewrite (@validate_video_url_some v Hne). now rewrite Hv, Hc.
  - rewrite validate_video_url_some by discriminate.
    now rewrite (@watch_url_trimmed v Hv), watch_url_has_host.
Qed.

(** X2. Whatever [validate_video_url] returns is not empty, has no white
    space at either end and mentions youtube.com or youtu.be. *)
Theorem validate_video_url_result (video_input : option pystr) (u : pystr) :
  validate_video_url video_input = Some u ->
  u <> []
  /\ strip u = u
  /\ (substring (lit "youtube.com") u \/ substring (lit "youtu.be") u).
Proof.
  destruct video_input as [[|c0 s0]|]; [discriminate| |discriminate].
  rewrite (@validate_video_url_some (c0 :: s0)) by discriminate.
  set (v := strip (c0 :: s0)).
  assert (Hv : strip v = v) by apply strip_strip.
  destruct (contains (lit "youtube.com") v || contains (lit "youtu.be") v)
    eqn:Hc; intros H; injection H as <-.
  - split; [|split; [exact Hv|]].
    + apply orb_true_iff in Hc as [Hc|Hc];
        (eapply contains_nonempty; [|exact Hc]; discriminate).
    + apply orb_true_iff in Hc as [Hc|Hc]; [left|right];
        now apply contains_spec.
  - split; [discriminate|]. split; [now apply watch_url_trimmed|].
    left. apply contains_spec, watch_url_has_host.
Qed.

Lemma validate_video_url_result_witness :
  lit "https://www.youtube.com/watch?v=abc" <> []
  /\ strip (lit "https://www.youtube.com/watch?v=abc")
     = lit "https://www.youtube.com/watch?v=abc"
  /\ (substring (lit "youtube.com") (lit "https://www.youtube.com/watch?v=abc")
      \/ substring (lit "youtu.be") (lit "https://www.youtube.com/watch?v=abc")).
Proof.
  apply (validate_video_url_result (Some (lit " abc "))). reflexivity.
Defined.

(** ** Rules for [triple] *)

Section Triples.

Context {A B : Type}.

Lemma triple_ret (P : store -> Prop) (a : A) (Q : A -> store -> Prop)
  (X : exn -> store -> Prop) :
  (forall s, P s -> Q a s) -> triple P (ret a) Q X.
Proof. intros H s Hs. now apply H. Qed.

Lemma triple_raise (P : store -> Prop) (e : exn) (Q : A -> store -> Prop)
  (X : exn -> store -> Prop) :
  (forall s, P s -> X e s) -> triple P (raise e) Q X.
Proof. intros H s Hs. now apply H. Qed.

Lemma triple_conseq (P P' : store -> Prop) (m : M A)
  (Q Q' : A -> store -> Prop) (X X' : exn -> store -> Prop) :
  triple P' m Q' X' ->
  (forall s, P s -> P' s) ->
  (forall a s, Q' a s -> Q a s) ->
  (forall e s, X' e s -> X e s) ->
  triple P m Q X.
Proof.
  intros Hm HP HQ HX s Hs. specialize (Hm s (HP s Hs)).
  destruct (m s) as [[[e|a] s'] o]; auto.
Qed.

Lemma triple_bind (P : store -> Prop) (m : M A) (k : A -> M B)
  (R : A -> store -> Prop) (Q : B -> store -> Prop)
  (X : exn -> store -> Prop) :
  triple P m R X ->
  (forall a, triple (R a) (k a) Q X) ->
  triple P (bind m k) Q X.
Proof.
  intros Hm Hk s Hs. unfold bind. specialize (Hm s Hs).
  destruct (m s) as [[[e|a] s1] o1]; [exact Hm|].
  specialize (Hk a s1 Hm). destruct (k a s1) as [[[e|b] s2] o2]; exact Hk.
Qed.

Lemma triple_try_except (P : store -> Prop) (m : M A) (h : exn -> M A)
  (Q : A -> store -> Prop) (R : exn -> store -> Prop)
  (X : exn -> store -> Prop) :
  triple P m Q R ->
  (forall e, triple (R e) (h e) Q X) ->
  triple P (try_except m h) Q X.
Proof.
  intros Hm Hh s Hs. unfold try_except. specialize (Hm s Hs).
  destruct (m s) as [[[e|a] s1] o1]; [|exact Hm].
  specialize (Hh e s1 Hm). destruct (h e s1) as [[[e'|a] s2] o2]; exact Hh.
Qed.

End Triples.

Lemma triple_try_finally {A} (P : store -> Prop) (m : M A) (f : M unit)
  (R F : store -> Prop) (Q : A -> store -> Prop) (X : exn -> store -> Prop) :
  triple P m (fun _ => R) (fun _ => R) ->
  triple R f (fun _ => F) (fun _ => F) ->
  (forall a s, F s -> Q a s) ->
  (forall e s, F s -> X e s) ->
  triple P (try_finally m f) Q X.
Proof.
  intros Hm Hf HQ HX s Hs. unfold try_finally. specialize (Hm s Hs).
  destruct (m s) as [[r s1] o1].
  assert (H1 : R s1) by (destruct r; exact Hm).
  specialize (Hf s1 H1). destruct (f s1) as [[[e|[]] s2] o2].
  - now apply HX.
  - destruct r; [now apply HX | now apply HQ].
Qed.

Lemma triple_for_each {A} (I : store -> Prop) (l : list A)
  (body : A -> M unit) (X : exn -> store -> Prop) :
  (forall a, triple I (body a) (fun _ => I) X) ->
  triple I (for_each l body) (fun _ => I) X.
Proof.
  intros H. induction l as [|x l IH]; cbn [for_each].
  - now apply triple_ret.
  - eapply triple_bind; [apply H | intros u; exact IH].
Qed.

(** A computation that leaves the store as it is keeps what holds of it. *)
Lemma triple_still {A} (P : store -> Prop) (m : M A) :
  (forall s, snd (fst (m s)) = s) ->
  triple P m (fun _ => P) (fun _ => P).
Proof.
  intros H s Hs. specialize (H s).
  destruct (m s) as [[[e|a] s'] o]; cbn [fst snd] in H; now subst.
Qed.

Lemma triple_emit (P : store -> Prop) (e : event) :
  triple P (emit e) (fun _ => P) (fun _ => P).
Proof. now apply triple_still. Qed.

Lemma triple_modify (P Q : store -> Prop) (f : store -> store)
  (X : exn -> store -> Prop) :
  (forall s, P s -> Q (f s)) -> triple P (modify f) (fun _ => Q) X.
Proof. intros H s Hs. now apply H. Qed.

(** ** [download_audio] *)

Lemma remove_quietly_run (o : os_oracle) (f : pystr) (s : store) :
  remove_quietly o f s
  = (inr tt,
     if mem f (fs s)
     then match remove_raises o f with
          | None => set_fs (remove f (fs s)) s
          | Some _ => s
          end
     else s,
     [Act (ARemove f)]).
Proof.
  unfold remove_quietly, try_except, os_remove, bind, act, get_store,
    raise_if, modify, raise. cbn.
  destruct (mem f (fs s)); [|reflexivity].
  destruct (remove_raises o f); reflexivity.
Qed.

(** The loop that [download_audio] runs over a listing of the directory:
    it never raises, and it removes exactly the listed temporary artifacts
    whose removal does not raise. *)
Lemma presweep_loop (o : os_oracle) (names : list pystr) (s : store) :
  NoDup names ->
  (forall f, In f names -> In f (fs s)) ->
  exists s' log,
    for_each names (fun file =>
      if startswith TEMP_AUDIO file then remove_quietly o file else ret tt) s
    = (inr tt, s', log)
    /\ db s' = db s /\ audio_file s' = audio_file s
    /\ forallb is_remove_item log = true
    /\ forall f,
         In f (fs s') <->
         In f (fs s)
         /\ ~ (In f names /\ temp_name f = true /\ remove_raises o f = None).
Proof.
  revert s. induction names as [|x r IH]; intros s Hnd Hin.
  - exists s, []. repeat split; try tauto.
  - inversion Hnd as [|? ? Hx Hr]; subst.
    cbn [for_each]. unfold bind at 1.
    assert (Hxs : mem x (fs s) = true) by (apply mem_In, Hin; now left).
    destruct (startswith TEMP_AUDIO x) eqn:Hpre;
      [rewrite remove_quietly_run, Hxs;
       destruct (remove_raises o x) as [e|] eqn:Hrm|cbn [ret]].
    + destruct (IH s Hr) as [s' [log [Hrun [Hdb [Haf [Hlog Hfs]]]]]].
      { intros f Hf. apply Hin. now right. }
      rewrite Hrun. eexists; eexists. split; [reflexivity|].
      split; [exact Hdb|]. split; [exact Haf|]. split; [exact Hlog|].
      intros f. rewrite Hfs. split; intros [H1 H2]; (split; [exact H1|]).
      * intros [[<-|Hf] [Ht Hok]]; [congruence | tauto].
      * intros [Hf Hrest]. apply H2. split; [now right | exact Hrest].
    + destruct (IH (set_fs (remove x (fs s)) s) Hr)
        as [s' [log [Hrun [Hdb [Haf [Hlog Hfs]]]]]].
      { intros f Hf. cbn. apply In_remove. split.
        - apply Hin. now right.
        - intros ->. contradiction. }
      rewrite Hrun. eexists; eexists. split; [reflexivity|].
      cbn in Hdb, Haf.
      split; [exact Hdb|]. split; [exact Haf|]. split; [exact Hlog|].
      intros f. rewrite Hfs. cbn [fs set_fs]. rewrite In_remove.
      split.
      * intros [[H1 Hne] H2]. split; [exact H1|].
        intros [[<-|Hf] Hrest]; tauto.
      * intros [H1 H2]. split; [split; [exact H1|]|].
        -- intros ->. apply H2. unfold temp_name. auto using in_eq.
        -- intros [Hf Hrest]. apply H2. split; [now right | exact Hrest].
    + destruct (IH s Hr) as [s' [log [Hrun [Hdb [Haf [Hlog Hfs]]]]]].
      { intros f Hf. apply Hin. now right. }
      rewrite Hrun. eexists; eexists. split; [reflexivity|].
      split; [exact Hdb|]. split; [exact Haf|]. split; [exact Hlog|].
      intros f. rewrite Hfs. split; intros [H1 H2]; (split; [exact H1|]).
      * unfold temp_name. intros [[<-|Hf] [Ht Hok]]; [congruence | tauto].
      * intros [Hf Hrest]. apply H2. split; [now right | exact Hrest].
Qed.

(** The run of [download_audio] after a listing that does not raise. *)
Lemma download_audio_listed (E : env) (video_url : pystr) (s : store) :
  listdir_raises (download_os E) = None ->
  exists s' swept,
    download_audio E video_url s
    = (match snd (ydl_download E video_url) with
       | Some e => inl (lit "Audio download failed: " ++ e)
       | None =>
           if mem AUDIO_FILE (fs s') then inr AUDIO_FILE
           else inl (lit "Audio file download or conversion failed")
       end, s',
       [Act AListdir] ++ swept ++ [Act (AYdlDownload video_url)])
    /\ forallb is_remove_item swept = true
    /\ db s' = db s /\ audio_file s' = audio_file s
    /\ forall f,
         In f (fs s') <->
         (In f (fs s)
          /\ (temp_name f = true ->
              remove_raises (download_os E) f <> None))
         \/ In f (written E video_url).
Proof.
  intros Hls. unfold download_audio, written.
  unfold bind at 1. rewrite os_listdir_run, Hls.
  destruct (@presweep_loop (download_os E) (dedup (fs s)) s (NoDup_dedup _))
    as [s1 [swept [Hrun [Hdb [Haf [Hlog Hfs]]]]]].
  { intros f. apply In_dedup. }
  unfold bind at 1. rewrite Hrun.
  unfold bind at 1. cbn [act].
  destruct (ydl_download E video_url) as [files failure]. cbn [fst snd].
  exists (set_fs (fs s1 ++ files) s1), swept.
  split.
  - unfold bind, modify, os_path_exists, get_store, ret, raise.
    destruct failure as [e|]; cbn -[mem AUDIO_FILE lit].
    + rewrite ?app_nil_r. reflexivity.
    + destruct (mem AUDIO_FILE (fs s1 ++ files)); cbn -[mem AUDIO_FILE lit];
        rewrite ?app_nil_r; reflexivity.
  - split; [exact Hlog|]. split; [exact Hdb|]. split; [exact Haf|].
    intros f. cbn [fs set_fs]. rewrite in_app_iff, Hfs, In_dedup.
    split; (intros [[H1 H2]|H]; [left; split; [exact H1|] | now right]).
    + intros Ht Hnone. apply H2. auto.
    + intros [_ [Ht Hnone]]. now apply H2.
Qed.

Lemma download_audio_inr (E : env) (video_url file : pystr)
  (s s' : store) (log : list item) :
  download_audio E video_url s = (inr file, s', log) ->
  file = AUDIO_FILE
  /\ In AUDIO_FILE (fs s')
  /\ listdir_raises (download_os E) = None
  /\ snd (ydl_download E video_url) = None
  /\ db s' = db s.
Proof.
  intros H.
  destruct (listdir_raises (download_os E)) as [e|] eqn:Hls.
  { unfold download_audio in H. unfold bind at 1 in H.
    rewrite os_listdir_run, Hls in H. discriminate. }
  destruct (download_audio_listed E video_url s Hls)
    as [s1 [swept [Hrun [_ [Hdb [_ _]]]]]].
  rewrite Hrun in H.
  destruct (snd (ydl_download E video_url)); [discriminate|].
  destruct (mem AUDIO_FILE (fs s1)) eqn:Hmem; [|discriminate].
  injection H as <- <- _. apply mem_In in Hmem. auto.
Qed.

(** X3. When [download_audio] returns, it returns the fixed name
    temp_audio.wav, that file is in the directory, neither the listing nor
    the download raised, and the table of jobs is as before. *)
Theorem download_audio_returns (E : env) (video_url file : pystr)
  (s s' : store) (log : list item) :
  download_audio E video_url s = (inr file, s', log) ->
  file = AUDIO_FILE
  /\ In AUDIO_FILE (fs s')
  /\ listdir_raises (download_os E) = None
  /\ snd (ydl_download E video_url) = None
  /\ db s' = db s.
Proof.
  intros H. destruct (download_audio_inr _ _ _ H) as [H1 [H2 [H3 [H4 H5]]]].
  split; [exact H1|]. split; [exact H2|]. split; [exact H3|].
  split; [exact H4 | exact H5].
Qed.

Lemma download_audio_returns_witness :
  AUDIO_FILE = AUDIO_FILE
  /\ In AUDIO_FILE [AUDIO_FILE]
  /\ listdir_raises (download_os scenario_env) = None
  /\ snd (ydl_download scenario_env SCENARIO_URL) = None
  /\ db (mkStore [AUDIO_FILE] [] None) = db empty_store.
Proof.
  apply (@download_audio_returns scenario_env SCENARIO_URL AUDIO_FILE
           empty_store (mkStore [AUDIO_FILE] [] None)
           [Act AListdir; Act (AYdlDownload SCENARIO_URL)]).
  reflexivity.
Defined.

(** X4. When the listing of the directory does not raise, [download_audio]
    leaves in the directory exactly the files that the download wrote and
    the files that were there before, except the temporary artifacts (names
    that start with temp_audio) whose removal did not raise: prior artifacts
    are swept, and no other file is ever removed. *)
Theorem download_audio_sweeps (E : env) (video_url : pystr) (s : store) :
  listdir_raises (download_os E) = None ->
  forall f,
    In f (fs (snd (fst (download_audio E video_url s)))) <->
    (In f (fs s)
     /\ (temp_name f = true -> remove_raises (download_os E) f <> None))
    \/ In f (written E video_url).
Proof.
  intros Hls f.
  destruct (download_audio_listed E video_url s Hls)
    as [s1 [swept [Hrun [_ [_ [_ Hfs]]]]]].
  rewrite Hrun. cbn [fst snd]. apply Hfs.
Qed.

Lemma download_audio_sweeps_witness :
  In LEFTOVER
    (fs (snd (fst (download_audio leftover_env SCENARIO_URL
                     (mkStore [lit "temp_audio.part"; lit "notes.txt"] []
                        None)))))
  /\ In (lit "notes.txt")
       (fs (snd (fst (download_audio leftover_env SCENARIO_URL
                        (mkStore [lit "temp_audio.part"; lit "notes.txt"] []
                           None)))))
  /\ ~ In (lit "temp_audio.part")
         (fs (snd (fst (download_audio leftover_env SCENARIO_URL
                          (mkStore [lit "temp_audio.part"; lit "notes.txt"]
                             [] None))))).
Proof.
  pose proof (@download_audio_sweeps leftover_env SCENARIO_URL
                (mkStore [lit "temp_audio.part"; lit "notes.txt"] [] None)
                eq_refl) as H.
  split; [|split].
  - apply H. right. left. reflexivity.
  - apply H. left. split; [right; left; reflexivity | discriminate].
  - intros Hin. apply H in Hin as [[_ Hkeep] | Hw].
    + now apply Hkeep.
    + cbn in Hw. destruct Hw as [Hw | [Hw | []]]; discriminate.
Defined.

(** X5. [download_audio] raises in three ways only: the listing of the
    directory raised, and then nothing was removed or downloaded; the
    download raised, and the message is prefixed with Audio download
    failed; or the download returned without leaving temp_audio.wav. *)
Theorem download_audio_raises (E : env) (video_url : pystr) (e : exn)
  (s s' : store) (log : list item) :
  download_audio E video_url s = (inl e, s', log) ->
  (listdir_raises (download_os E) = Some e /\ s' = s /\ log = [Act AListdir])
  \/ (listdir_raises (download_os E) = None
      /\ exists e0, snd (ydl_download E video_url) = Some e0
                    /\ e = lit "Audio download failed: " ++ e0)
  \/ (listdir_raises (download_os E) = None
      /\ snd (ydl_download E video_url) = None
      /\ ~ In AUDIO_FILE (fs s')
      /\ e = lit "Audio file download or conversion failed").
Proof.
  intros H.
  destruct (listdir_raises (download_os E)) as [e1|] eqn:Hls.
  { left. unfold download_audio in H. unfold bind at 1 in H.
    rewrite os_listdir_run, Hls in H. injection H as <- <- <-. auto. }
  right.
  destruct (download_audio_listed E video_url s Hls)
    as [s1 [swept [Hrun _]]].
  rewrite Hrun in H.
  destruct (snd (ydl_download E video_url)) as [e0|].
  - left. injection H as <- _ _. split; [reflexivity|]. now exists e0.
  - right. destruct (mem AUDIO_FILE (fs s1)) eqn:Hmem; [discriminate|].
    injection H as <- <- _. repeat split.
    intros Hin. apply mem_In in Hin. congruence.
Qed.

Lemma download_audio_raises_witness :
  (listdir_raises (download_os failing_download_env)
   = Some (lit "Audio download failed: HTTP Error 403")
   /\ empty_store = empty_store
   /\ [Act AListdir; Act (AYdlDownload SCENARIO_URL)] = [Act AListdir])
  \/ (listdir_raises (download_os failing_download_env) = None
      /\ exists e0,
           snd (ydl_download failing_download_env SCENARIO_URL) = Some e0
           /\ lit "Audio download failed: HTTP Error 403"
              = lit "Audio download failed: " ++ e0)
  \/ (listdir_raises (download_os failing_download_env) = None
      /\ snd (ydl_download failing_download_env SCENARIO_URL) = None
      /\ ~ In AUDIO_FILE (fs empty_store)
      /\ lit "Audio download failed: HTTP Error 403"
         = lit "Audio file download or conversion failed").
Proof.
  apply (@download_audio_raises failing_download_env SCENARIO_URL
           (lit "Audio download failed: HTTP Error 403")
           empty_store empty_store
           [Act AListdir; Act (AYdlDownload SCENARIO_URL)]).
  reflexivity.
Defined.

(** ** The synchronous [process_video] *)

Lemma actions_of_app' (a b : list item) :
  actions_of (a ++ b) = actions_of a ++ actions_of b.
Proof. unfold actions_of. apply flat_map_app. Qed.

Lemma triple_trivial {A} (P : store -> Prop) (m : M A) :
  triple P m (fun _ _ => True) (fun _ _ => True).
Proof. intros s _. now destruct (m s) as [[[e|a] s'] o]. Qed.

Lemma transcript_of_length (raw : pystr) : 3 <= length (transcript_of raw).
Proof.
  unfold transcript_of. destruct (Nat.ltb_spec (length (strip raw)) 3).
  - cbn. lia.
  - assumption.
Qed.

Lemma triple_transcribe_audio (E : env) (file : pystr) :
  triple (fun _ => True) (transcribe_audio E file)
    (fun t _ => 3 <= length t) (fun _ _ => True).
Proof.
  intros s _. rewrite transcribe_audio_run.
  destruct (decode E file); [exact I | apply transcript_of_length].
Qed.

Lemma save_report_run (E : env) (folder text : pystr) (s : store) :
  save_report E folder text s
  = match write_report E folder text with
    | Some e => (inl e, s, [Act (AWriteReport folder text)])
    | None =>
        (inr tt,
         if mem folder (fs s) then s else set_fs (fs s ++ [folder]) s,
         [Act (AWriteReport folder text)])
    end.
Proof.
  unfold save_report, bind, act, raise_if, modify.
  destruct (write_report E folder text); reflexivity.
Qed.

(** The handler of [process_video]: it raises only when the listing of the
    directory does, and otherwise returns the pair of [None]. *)
Lemma process_video_handler_run (E : env) (s : store) :
  exists s' log,
    (files <- os_listdir (cleanup_os E) ;;
     for_each files (fun file =>
       if startswith TEMP_AUDIO file
       then remove_quietly (cleanup_os E) file
       else ret tt) ;;
     ret (@None pystr, @None pystr)) s
    = (match listdir_raises (cleanup_os E) with
       | Some e => inl e
       | None => inr (None, None)
       end, s', log)
    /\ (listdir_raises (cleanup_os E) = None ->
        forall f,
          In f (fs s') <->
          In f (fs s)
          /\ (temp_name f = true ->
              remove_raises (cleanup_os E) f <> None)).
Proof.
  unfold bind at 1. rewrite os_listdir_run.
  destruct (listdir_raises (cleanup_os E)) as [e|].
  - exists s, [Act AListdir]. split; [reflexivity | discriminate].
  - destruct (@presweep_loop (cleanup_os E) (dedup (fs s)) s (NoDup_dedup _))
      as [s1 [swept [Hrun [_ [_ [_ Hfs]]]]]].
    { intros f. apply In_dedup. }
    unfold bind. rewrite Hrun. cbn [ret].
    eexists; eexists. split; [reflexivity|].
    intros _ f. rewrite Hfs, In_dedup. split; intros [H1 H2]; (split; [exact H1|]).
    + intros Ht Hnone. apply H2. auto.
    + intros [_ [Ht Hnone]]. now apply H2.
Qed.

(** What [process_video] returns, and the one way in which it raises. *)
Lemma process_video_shape (E : env) (video_url : pystr) :
  triple (fun _ => True) (process_video E video_url)
    (fun r _ => match r with
                | (Some t, Some _) => 3 <= length t
                | (None, None) => True
                | _ => False
                end)
    (fun e _ => listdir_raises (cleanup_os E) = Some e).
Proof.
  unfold process_video.
  eapply triple_try_except with (R := fun _ _ => True).
  - eapply triple_bind; [apply triple_trivial|]. intros [title vid].
    eapply triple_bind; [apply triple_trivial|]. intros file.
    eapply triple_bind; [apply triple_transcribe_audio|].
    intros t.
    eapply triple_bind with (R := fun _ _ => 3 <= length t).
    { intros s0 H0. now destruct (generate_summary E t s0) as [[[e|a] s1] o]. }
    intros sm.
    eapply triple_bind with (R := fun _ _ => 3 <= length t).
    { intros s0 H0.
      now destruct (save_transcript E t title vid s0) as [[[e|a] s1] o]. }
    intros _.
    eapply triple_bind with (R := fun _ _ => 3 <= length t).
    { intros s0 H0.
      now destruct (save_summary E sm title vid s0) as [[[e|a] s1] o]. }
    intros _.
    eapply triple_bind with (R := fun _ _ => 3 <= length t).
    { intros s0 H0. exact H0. }
    intros present.
    eapply triple_bind with (R := fun _ _ => 3 <= length t).
    { intros s0 H0. destruct present; [|exact H0].
      now destruct (os_remove (cleanup_os E) file s0) as [[[e|a] s1] o]. }
    intros _. apply triple_ret. auto.
  - intros e s0 _.
    destruct (process_video_handler_run E s0) as [s1 [log [Hrun _]]].
    rewrite Hrun.
    now destruct (listdir_raises (cleanup_os E)).
Qed.

(** X6. [process_video] returns both texts or neither, never one of them;
    a transcript that it returns has at least three code points; and an
    exception leaves it in one case only, when the listing of the directory
    raises inside its handler. *)
Theorem process_video_result (E : env) (video_url : pystr) (s : store) :
  match fst (fst (process_video E video_url s)) with
  | inr (Some transcript, Some _) => 3 <= length transcript
  | inr (None, None) => True
  | inr _ => False
  | inl e => listdir_raises (cleanup_os E) = Some e
  end.
Proof.
  pose proof (@process_video_shape E video_url s I) as H.
  destruct (process_video E video_url s) as [[[e|[[t|] [sm|]]] s'] o]; exact H.
Qed.

Lemma triple_download_audio (E : env) (video_url : pystr) :
  triple (fun _ => True) (download_audio E video_url)
    (fun file s => file = AUDIO_FILE /\ In AUDIO_FILE (fs s))
    (fun _ _ => True).
Proof.
  intros s _.
  destruct (download_audio E video_url s) as [[[e|file] s'] o] eqn:H;
    [exact I|].
  apply download_audio_inr in H. tauto.
Qed.

Lemma release_run {A} (o : os_oracle) (f : pystr) (r : A) (s : store) :
  (forall g, remove_raises o g = None) ->
  exists s' log,
    (present <- os_path_exists f ;;
     (if present then os_remove o f else ret tt) ;;
     ret r) s
    = (inr r, s', log)
    /\ ~ In f (fs s').
Proof.
  intros Hcalm. unfold bind at 1, os_path_exists. unfold bind at 1.
  cbn [get_store ret]. unfold bind.
  destruct (mem f (fs s)) eqn:Hmem.
  - rewrite os_remove_run by (auto; now apply mem_In).
    eexists; eexists. split; [reflexivity|]. cbn. rewrite In_remove. tauto.
  - exists s, []. split; [reflexivity|]. intros Hin. apply mem_In in Hin.
    congruence.
Qed.

(** X7. On an operating system that refuses no call of the cleanup,
    temp_audio.wav never survives [process_video]: a run that completes
    removes it, and a run in which a stage raises removes every file whose
    name starts with temp_audio. *)
Theorem process_video_cleans (E : env) (video_url : pystr) (s : store) :
  listdir_raises (cleanup_os E) = None ->
  (forall f, remove_raises (cleanup_os E) f = None) ->
  ~ In AUDIO_FILE (fs (snd (fst (process_video E video_url s))))
  /\ (fst (fst (process_video E video_url s)) = inr (None, None) ->
      forall f, In f (fs (snd (fst (process_video E video_url s)))) ->
                temp_name f = false).
Proof.
  intros Hls Hrm.
  assert (H : triple (fun _ => True) (process_video E video_url)
                (fun r s' =>
                   ~ In AUDIO_FILE (fs s')
                   /\ (r = (None, None) ->
                       forall f, In f (fs s') -> temp_name f = false))
                (fun _ _ => False)).
  { unfold process_video.
    eapply triple_try_except with (R := fun _ _ => True).
    - eapply triple_bind; [apply triple_trivial|]. intros [title vid].
      eapply triple_bind; [apply triple_download_audio|]. intros file.
      eapply triple_bind with (R := fun _ _ => file = AUDIO_FILE).
      { intros s0 [H0 _].
        now destruct (transcribe_audio E file s0) as [[[e|a] s1] o]. }
      intros t.
      eapply triple_bind with (R := fun _ _ => file = AUDIO_FILE).
      { intros s0 H0. now destruct (generate_summary E t s0) as [[[e|a] s1] o]. }
      intros sm.
      eapply triple_bind with (R := fun _ _ => file = AUDIO_FILE).
      { intros s0 H0.
        now destruct (save_transcript E t title vid s0) as [[[e|a] s1] o]. }
      intros u1.
      eapply triple_bind with (R := fun _ _ => file = AUDIO_FILE).
      { intros s0 H0.
        now destruct (save_summary E sm title vid s0) as [[[e|a] s1] o]. }
      intros u2. intros s0 H0. subst file.
      destruct (@release_run _ (cleanup_os E) AUDIO_FILE (Some t, Some sm)
                  s0 Hrm) as [s1 [log [Hrun Hgone]]].
      rewrite Hrun. split; [exact Hgone | discriminate].
    - intros e s0 _.
      destruct (process_video_handler_run E s0) as [s1 [log [Hrun Hfs]]].
      rewrite Hrun, Hls. specialize (Hfs Hls).
      assert (Hno : forall f, In f (fs s1) -> temp_name f = false).
      { intros f Hf. apply Hfs in Hf as [_ Hkeep].
        destruct (temp_name f); [|reflexivity].
        exfalso. now apply Hkeep. }
      split; [|intros _; exact Hno].
      intros Hin. apply Hno in Hin. discriminate. }
  specialize (H s I).
  destruct (process_video E video_url s) as [[[e|r] s'] o]; cbn [fst snd].
  - contradiction.
  - destruct H as [H1 H2]. split; [exact H1|].
    intros Hr. injection Hr as ->. now apply H2.
Qed.

Lemma process_video_cleans_witness :
  mem AUDIO_FILE
    (fs (snd (fst (process_video failing_download_env SCENARIO_URL
                     (mkStore [AUDIO_FILE] [] None)))))
  = false.
Proof.
  destruct (mem AUDIO_FILE _) eqn:Hmem; [|reflexivity].
  apply mem_In in Hmem.
  destruct (@process_video_cleans failing_download_env SCENARIO_URL
              (mkStore [AUDIO_FILE] [] None) eq_refl (fun _ => eq_refl))
    as [Hgone _].
  contradiction.
Defined.

Lemma In_actions_of (a : action) (log : list item) :
  In (Act a) log -> In a (actions_of log).
Proof.
  intros H. unfold actions_of. apply in_flat_map. exists (Act a).
  split; [exact H | now left].
Qed.

(** X8. When every stage of [process_video] succeeds and both reports are
    written, but the removal of temp_audio.wav raises, the run reports a
    failure all the same: it returns the pair of [None], after the two
    reports were written. *)
Theorem process_video_removal_failure (E : env)
  (video_url file raw summary : pystr) (e : exn) (s s1 : store)
  (o1 : list item) :
  download_audio E video_url s = (inr file, s1, o1) ->
  decode E file = inr raw ->
  llm_invoke E (summary_prompt (transcript_of raw)) = inr summary ->
  write_report E TRANSCRIPTION_DIR (transcript_of raw) = None ->
  write_report E SUMMARIES_DIR summary = None ->
  remove_raises (cleanup_os E) AUDIO_FILE = Some e ->
  listdir_raises (cleanup_os E) = None ->
  fst (fst (process_video E video_url s)) = inr (None, None)
  /\ In (AWriteReport TRANSCRIPTION_DIR (transcript_of raw))
       (actions_of (snd (process_video E video_url s)))
  /\ In (AWriteReport SUMMARIES_DIR summary)
       (actions_of (snd (process_video E video_url s))).
Proof.
  intros Hdl Hdec Hinv Hw1 Hw2 Hrm Hls.
  destruct (download_audio_inr _ _ _ Hdl) as [-> [Hin _]].
  assert (H : exists s4 log,
             process_video E video_url s = (inr (None, None), s4, log)
             /\ In (Act (AWriteReport TRANSCRIPTION_DIR (transcript_of raw)))
                  log
             /\ In (Act (AWriteReport SUMMARIES_DIR summary)) log).
  { unfold process_video, try_except.
    unfold bind at 1. rewrite get_video_info_run.
    unfold bind at 1. rewrite Hdl.
    unfold bind at 1. rewrite transcribe_audio_run, Hdec.
    unfold bind at 1. rewrite generate_summary_run, Hinv.
    unfold bind at 1. unfold save_transcript. rewrite save_report_run, Hw1.
    unfold bind at 1. unfold save_summary. rewrite save_report_run, Hw2.
    set (s2 := if mem TRANSCRIPTION_DIR (fs s1) then s1
               else set_fs (fs s1 ++ [TRANSCRIPTION_DIR]) s1).
    set (s3 := if mem SUMMARIES_DIR (fs s2) then s2
               else set_fs (fs s2 ++ [SUMMARIES_DIR]) s2).
    assert (H3 : mem AUDIO_FILE (fs s3) = true).
    { apply mem_In. subst s3 s2.
      destruct (mem TRANSCRIPTION_DIR (fs s1));
        destruct (mem SUMMARIES_DIR _); cbn [fs set_fs];
        rewrite ?in_app_iff; auto. }
    unfold bind at 1. unfold os_path_exists at 1. unfold bind at 1.
    cbn [get_store ret]. rewrite H3.
    unfold bind at 1.
    assert (Hrem : os_remove (cleanup_os E) AUDIO_FILE s3
                   = (inl e, s3, [Act (ARemove AUDIO_FILE)])).
    { unfold os_remove, bind, act, get_store, raise_if, raise.
      cbn -[mem AUDIO_FILE]. now rewrite H3, Hrm. }
    rewrite Hrem.
    destruct (process_video_handler_run E s3) as [s4 [log [Hrun _]]].
    rewrite Hrun, Hls.
    eexists; eexists. split; [reflexivity|].
    split; rewrite !in_app_iff; cbn [In]; auto 12. }
  destruct H as [s4 [log [Hrun [H1 H2]]]]. rewrite Hrun. cbn [fst snd].
  split; [reflexivity|]. split; now apply In_actions_of.
Qed.

Lemma process_video_removal_failure_witness :
  fst (fst (process_video stubborn_env SCENARIO_URL empty_store))
  = inr (None, None)
  /\ In (AWriteReport TRANSCRIPTION_DIR (transcript_of SCENARIO_TRANSCRIPT))
       (actions_of (snd (process_video stubborn_env SCENARIO_URL empty_store)))
  /\ In (AWriteReport SUMMARIES_DIR SCENARIO_SUMMARY)
       (actions_of (snd (process_video stubborn_env SCENARIO_URL empty_store))).
Proof.
  apply (@process_video_removal_failure stubborn_env SCENARIO_URL AUDIO_FILE
           SCENARIO_TRANSCRIPT SCENARIO_SUMMARY
           (lit "[Errno 13] Permission denied") empty_store
           (mkStore [AUDIO_FILE] [] None)
           [Act AListdir; Act (AYdlDownload SCENARIO_URL)]);
    reflexivity.
Defined.

(** ** Completed runs of [generate] *)

(** How a [try] block that saves a row got there. *)
Lemma pipeline_outcome_inr (E : env) (user_id : Z) (video_url : pystr)
  (dl : exn + pystr) (row : job) :
  snd (pipeline_outcome E user_id video_url dl) = inr row ->
  exists file raw,
    init_converter E = None /\ dl = inr file /\ decode E file = inr raw
    /\ db_insert E row = None
    /\ let transcript := transcript_of raw in
       let title := title_of E video_url in
       let chunks := fst (llm_stream E (stream_prompt transcript)) in
       (snd (llm_stream E (stream_prompt transcript)) = None
        /\ row = mkJob user_id video_url title transcript (concat chunks)
        /\ fst (pipeline_outcome E user_id video_url dl)
           = opening title transcript ++ map SummaryChunk chunks
             ++ [Status SAVING])
       \/ (exists summary,
             snd (llm_stream E (stream_prompt transcript)) <> None
             /\ llm_invoke E (summary_prompt transcript) = inr summary
             /\ row = mkJob user_id video_url title transcript summary
             /\ fst (pipeline_outcome E user_id video_url dl)
                = opening title transcript ++ map SummaryChunk chunks
                  ++ [Status STREAMING_FAILED; SummaryChunk summary;
                      Status SAVING]).
Proof.
  unfold pipeline_outcome, transcript_outcome, summary_outcome,
    fallback_outcome, save_outcome.
  destruct (init_converter E) as [e|]; [discriminate|].
  destruct dl as [e|file]; [discriminate|].
  destruct (decode E file) as [e|raw] eqn:Hdec; [discriminate|].
  cbn [prepend fst snd]. intros H. exists file, raw.
  split; [reflexivity|]. split; [reflexivity|]. split; [exact Hdec|].
  destruct (snd (llm_stream E (stream_prompt (transcript_of raw))))
    as [e|] eqn:Hs;
    [destruct (llm_invoke E (summary_prompt (transcript_of raw)))
       as [e'|summary] eqn:Hi|];
    cbn [prepend fst snd] in H |- *; try discriminate;
    destruct (db_insert E _) eqn:Hdb; try discriminate;
    injection H as <-; (split; [exact Hdb|]).
  - right. exists summary. repeat split. discriminate.
  - left. repeat split.
Qed.

Lemma last_snoc {A} (l : list A) (x d : A) : last (l ++ [x]) d = x.
Proof. apply last_last. Qed.



Lemma chunks_of_app (a b : list event) :
  chunks_of (a ++ b) = chunks_of a ++ chunks_of b.
Proof. unfold chunks_of. apply flat_map_app. Qed.

Lemma chunks_of_chunks (chunks : list pystr) :
  chunks_of (map SummaryChunk chunks) = chunks.
Proof. induction chunks as [|c r IH]; cbn; [reflexivity | now f_equal]. Qed.

Lemma transcripts_of_app (a b : list event) :
  transcripts_of (a ++ b) = transcripts_of a ++ transcripts_of b.
Proof. unfold transcripts_of. apply flat_map_app. Qed.

Lemma transcripts_of_chunks (chunks : list pystr) :
  transcripts_of (map SummaryChunk chunks) = [].
Proof. induction chunks as [|c r IH]; cbn; [reflexivity | exact IH]. Qed.

Lemma closed_status_differs (m : pystr) :
  eqb m STREAMING_FAILED = false -> Status m <> Status STREAMING_FAILED.
Proof. intros H Heq. injection Heq as ->. now rewrite eqb_refl in H. Qed.

Lemma no_streaming_failed_opening (title transcript : pystr) :
  ~ In (Status STREAMING_FAILED) (opening title transcript).
Proof.
  unfold opening. cbn [In].
  intros [H|[H|[H|[H|[H|[H|[H|[]]]]]]]];
    try discriminate;
    try (revert H; apply closed_status_differs; reflexivity).
Qed.

Lemma no_streaming_failed_chunks (chunks : list pystr) :
  ~ In (Status STREAMING_FAILED) (map SummaryChunk chunks).
Proof. intros H. apply in_map_iff in H as [c [Hc _]]. discriminate. Qed.

(** X10. In a run of [generate] that ends with [complete], the saved row
    agrees with what the client received: its transcript is the payload of
    the only [transcript] event; if the status Streaming failed... was never
    sent, its summary is the concatenation of the payloads of the
    [summary_chunk] events, and if that status was sent, its summary is the
    payload of the last [summary_chunk] event alone (the chunks sent before
    the failure are not part of it). *)
Theorem generate_saved_matches_stream (E : env) (user_id : Z)
  (video_url : pystr) (s : store) :
  let run := generate E user_id video_url s in
  let events := events_of (snd run) in
  match last events (Status []) with
  | Complete _ _ =>
      exists row,
        db (snd (fst run)) = db s ++ [row]
        /\ transcripts_of events = [job_transcript row]
        /\ ((~ In (Status STREAMING_FAILED) events
             /\ job_summary row = concat (chunks_of events))
            \/ (In (Status STREAMING_FAILED) events
                /\ job_summary row = last (chunks_of events) []))
  | _ => True
  end.
Proof.
  intros run events. subst events run. rewrite generate_events.
  destruct (generate_runs E user_id video_url s)
    as [s' [o1 [o2 [Hrun [_ [_ [Hdb _]]]]]]].
  rewrite Hrun. cbn [fst snd]. rewrite Hdb, last_snoc.
  destruct (snd (pipeline_outcome E user_id video_url
                   (downloaded E video_url s))) as [[e rows]|row] eqn:Hoc;
    cbn [terminal_of saved_of]; [exact I|].
  exists row. split; [reflexivity|].
  apply pipeline_outcome_inr in Hoc
    as [file [raw [_ [_ [_ [_ [[_ [-> ->]] | [sm [_ [_ [-> ->]]]]]]]]]]];
    cbn [job_transcript job_summary job_video_title].
  - split.
    + rewrite !transcripts_of_app, transcripts_of_chunks. reflexivity.
    + left. split.
      * rewrite !in_app_iff. intros [[H|[H|[H|[]]]]|[H|[]]].
        -- now apply no_streaming_failed_opening in H.
        -- now apply no_streaming_failed_chunks in H.
        -- revert H. apply closed_status_differs. reflexivity.
        -- discriminate.
      * rewrite !chunks_of_app, chunks_of_chunks. cbn.
        now rewrite !app_nil_r.
  - split.
    + rewrite !transcripts_of_app, transcripts_of_chunks. reflexivity.
    + right. split.
      * rewrite !in_app_iff. left. right. right. now left.
      * rewrite !chunks_of_app, chunks_of_chunks. cbn [chunks_of flat_map app].
        rewrite app_nil_r. symmetry. apply last_snoc.
Qed.

Lemma transcripts_of_terminal (r : exn * list job + job) :
  transcripts_of [terminal_of r] = [].
Proof. destruct r as [[e rows]|row]; reflexivity. Qed.

Lemma chunks_of_terminal (r : exn * list job + job) :
  chunks_of [terminal_of r] = [].
Proof. destruct r as [[e rows]|row]; reflexivity. Qed.

(** X11. In every run of [generate] the stream carries at most one
    [transcript] event, its payload has at least three code points, and
    [summary_chunk] events are sent only in runs that sent the transcript. *)
Theorem generate_transcript_event (E : env) (user_id : Z)
  (video_url : pystr) (s : store) :
  let events := events_of (snd (generate E user_id video_url s)) in
  (transcripts_of events = [] /\ chunks_of events = [])
  \/ exists transcript,
       transcripts_of events = [transcript] /\ 3 <= length transcript.
Proof.
  intros events. subst events. rewrite generate_events.
  rewrite transcripts_of_app, chunks_of_app, transcripts_of_terminal,
    chunks_of_terminal, !app_nil_r.
  unfold pipeline_outcome, transcript_outcome.
  destruct (init_converter E); [left; split; reflexivity|].
  destruct (downloaded E video_url s) as [e|file];
    [left; split; reflexivity|].
  destruct (decode E file) as [e|raw]; [left; split; reflexivity|].
  right. exists (transcript_of raw). split; [|apply transcript_of_length].
  unfold summary_outcome, fallback_outcome, save_outcome.
  destruct (snd (llm_stream E (stream_prompt (transcript_of raw))));
    [destruct (llm_invoke E (summary_prompt (transcript_of raw)))|];
    cbn [prepend fst snd];
    rewrite ?transcripts_of_app, ?transcripts_of_chunks; reflexivity.
Qed.

(** ** What a run never removes *)

Section KeepsOthers.

Variable files : list pystr.

Let K : store -> Prop := keeps_others files.

Lemma keeps_still {A} (m : M A) :
  (forall s, snd (fst (m s)) = s) ->
  triple K m (fun _ => K) (fun _ => K).
Proof. apply triple_still. Qed.

Lemma keeps_os_remove (o : os_oracle) (f : pystr) :
  temp_name f = true ->
  triple K (os_remove o f) (fun _ => K) (fun _ => K).
Proof.
  intros Ht s [Hk Ha]. unfold os_remove, bind, act, get_store, raise_if,
    modify, raise. cbn -[mem].
  destruct (mem f (fs s)); [|split; assumption].
  destruct (remove_raises o f); cbn -[mem]; [split; assumption|].
  split; [|exact Ha]. intros g Hg Hgt. cbn. apply In_remove.
  split; [now apply Hk | congruence].
Qed.

Lemma keeps_remove_quietly (o : os_oracle) (f : pystr) :
  temp_name f = true ->
  triple K (remove_quietly o f) (fun _ => K) (fun _ => K).
Proof.
  intros Ht. unfold remove_quietly.
  eapply triple_try_except; [now apply keeps_os_remove|].
  intros e. now apply triple_ret.
Qed.

Lemma keeps_download_audio (E : env) (video_url : pystr) :
  triple K (download_audio E video_url)
    (fun file s => file = AUDIO_FILE /\ K s) (fun _ => K).
Proof.
  intros s [Hk Ha].
  destruct (download_audio E video_url s) as [[r s'] o] eqn:Hrun.
  assert (HK : K s').
  { destruct (listdir_raises (download_os E)) as [e|] eqn:Hls.
    - unfold download_audio in Hrun. unfold bind at 1 in Hrun.
      rewrite os_listdir_run, Hls in Hrun. injection Hrun as _ <- _.
      split; assumption.
    - destruct (download_audio_listed E video_url s Hls)
        as [s1 [swept [Hrun1 [_ [_ [Haf Hfs]]]]]].
      rewrite Hrun1 in Hrun. injection Hrun as _ <- _.
      split; [|now rewrite Haf].
      intros g Hg Hgt. apply Hfs. left. split; [now apply Hk | congruence]. }
  destruct r as [e|file]; [exact HK|].
  split; [|exact HK]. now apply download_audio_inr in Hrun.
Qed.

Lemma keeps_sweep_body (o : os_oracle) (file : pystr) :
  triple K
    (if startswith TEMP_AUDIO file then os_remove o file else ret tt)
    (fun _ => K) (fun _ => K).
Proof.
  destruct (startswith TEMP_AUDIO file) eqn:Ht.
  - now apply keeps_os_remove.
  - now apply triple_ret.
Qed.

Lemma keeps_generate_finally (E : env) :
  triple K (generate_finally E) (fun _ => K) (fun _ => K).
Proof.
  unfold generate_finally.
  eapply triple_bind with (R := fun _ => K).
  - unfold release_audio_file.
    eapply triple_bind with (R := fun s0 s => s0 = s /\ K s).
    { intros s Hs. cbn. auto. }
    intros s0 s [<- HK]. pose proof HK as [Hk Ha].
    destruct (audio_file s0) as [file|] eqn:Haf; [|exact HK].
    destruct (truthy file); [|exact HK].
    assert (Hrun : triple K
              (present <- os_path_exists file ;;
               if present then remove_quietly (cleanup_os E) file else ret tt)
              (fun _ => K) (fun _ => K)).
    { eapply triple_bind with (R := fun _ => K).
      - apply keeps_still. reflexivity.
      - intros [|]; [now apply keeps_remove_quietly | now apply triple_ret]. }
    apply Hrun. exact HK.
  - intros u. unfold sweep_temp_audio.
    eapply triple_try_except with (R := fun _ => K).
    + eapply triple_bind with (R := fun _ => K).
      * apply keeps_still. intros s. rewrite os_listdir_run. reflexivity.
      * intros names. apply triple_for_each. intros f.
        apply keeps_sweep_body.
    + intros e. now apply triple_ret.
Qed.

Lemma keeps_generate_try (E : env) (user_id : Z) (video_url : pystr) :
  triple K (generate_try E user_id video_url) (fun _ => K) (fun _ => K).
Proof.
  unfold generate_try.
  eapply triple_bind; [apply triple_emit|]. intros u0.
  eapply triple_bind with (R := fun _ => K).
  { apply keeps_still. intros s. now rewrite new_converter_run. }
  intros u1.
  eapply triple_bind; [apply triple_emit|]. intros u2.
  eapply triple_bind with (R := fun _ => K).
  { apply keeps_still. intros s. now rewrite get_video_info_run. }
  intros [title vid].
  eapply triple_bind; [apply triple_emit|]. intros u3.
  eapply triple_bind; [apply triple_emit|]. intros u4.
  eapply triple_bind; [apply keeps_download_audio|]. intros file.
  eapply triple_bind with (R := fun _ => K).
  { intros s [-> [Hk _]]. split; [exact Hk | reflexivity]. }
  intros u5.
  eapply triple_bind; [apply triple_emit|]. intros u6.
  eapply triple_bind with (R := fun _ => K).
  { apply keeps_still. intros s. now rewrite transcribe_audio_run. }
  intros transcript.
  eapply triple_bind; [apply triple_emit|]. intros u7.
  eapply triple_bind; [apply triple_emit|]. intros u8.
  eapply triple_bind with (R := fun _ => K).
  { eapply triple_try_except with (R := fun _ => K).
    - apply keeps_still. intros s. now rewrite stream_summary_run.
    - intros e.
      eapply triple_bind; [apply triple_emit|]. intros u9.
      eapply triple_bind with (R := fun _ => K).
      { apply keeps_still. intros s. now rewrite generate_summary_run. }
      intros summary.
      eapply triple_bind; [apply triple_emit|]. intros u10.
      now apply triple_ret. }
  intros summary.
  eapply triple_bind; [apply triple_emit|]. intros u11.
  eapply triple_bind with (R := fun _ => K).
  { intros s Hs. rewrite insert_job_run.
    destruct (db_insert E _); [|exact Hs].
    destruct (db_committed E _); exact Hs. }
  intros u12. apply triple_emit.
Qed.

End KeepsOthers.

(** X12. A run of [generate] removes nothing but temporary audio
    artifacts: every file that was in the working directory before the run
    and whose name does not start with temp_audio is still there after the
    run, whatever stage fails and however the operating system answers. *)
Theorem generate_keeps_other_files (E : env) (user_id : Z)
  (video_url : pystr) (s : store) (f : pystr) :
  In f (fs s) -> temp_name f = false ->
  In f (fs (snd (fst (generate E user_id video_url s)))).
Proof.
  intros Hin Ht.
  assert (H : triple (keeps_others (fs s)) (generate E user_id video_url)
                (fun _ => keeps_others (fs s))
                (fun _ => keeps_others (fs s))).
  { unfold generate.
    eapply triple_bind with (R := fun _ => keeps_others (fs s)).
    { intros s0 [Hk _]. split; [exact Hk | exact I]. }
    intros u.
    eapply triple_try_finally
      with (R := keeps_others (fs s)) (F := keeps_others (fs s)); auto.
    - eapply triple_try_except with (R := fun _ => keeps_others (fs s)).
      + apply keeps_generate_try.
      + intros e. apply triple_emit.
    - apply keeps_generate_finally. }
  assert (H0 : keeps_others (fs s) (mkStore (fs s) (db s) None)).
  { split; [auto | exact I]. }
  assert (Hsame : generate E user_id video_url (mkStore (fs s) (db s) None)
                  = generate E user_id video_url s).
  { unfold generate, bind, modify. reflexivity. }
  specialize (H _ H0). rewrite Hsame in H.
  destruct (generate E user_id video_url s) as [[[e|a] s'] o];
    cbn [fst snd]; destruct H as [Hk _]; now apply Hk.
Qed.

Lemma generate_keeps_other_files_witness :
  In (lit "notes.txt")
    (fs (snd (fst (generate stubborn_env 1 SCENARIO_URL
                     (mkStore [lit "temp_audio.part"; lit "notes.txt"] []
                        None))))).
Proof.
  apply (@generate_keeps_other_files stubborn_env 1%Z SCENARIO_URL
           (mkStore [lit "temp_audio.part"; lit "notes.txt"] [] None)
           (lit "notes.txt")).
  - right. left. reflexivity.
  - reflexivity.
Defined.

(** ** The route [process_video] of app.py *)




(** ** Who is served *)

(** X13. A request without a caller, that is without a token, with an empty
    one, or with one that [get_user_by_token] rejects or maps to zero, gets
    the same 401 answer from both endpoints, and nothing happens: no
    collaborator is called and the store is as before. *)
Theorem no_caller_no_effect (E : env) (req : request) (s : store) :
  caller E req = None ->
  exists body,
    process_video_stream E req s = (JsonResponse body 401, s, [])
    /\ process_video_route E req s = (JsonResponse body 401, s, []).
Proof.
  unfold caller, process_video_stream, process_video_route, json_error.
  destruct (authorization req) as [token|]; [|intros _; eauto].
  destruct (truthy token); cbn [negb]; [|intros _; eauto].
  destruct (get_user_by_token E (replace (lit "Bearer ") [] token))
    as [user_id|]; [|intros _; eauto].
  destruct (user_id =? 0)%Z; [intros _; eauto | discriminate].
Qed.

Lemma no_caller_no_effect_witness :
  caller scenario_env (mkRequest None None) = None
  /\ exists body,
       process_video_stream scenario_env (mkRequest None None) empty_store
       = (JsonResponse body 401, empty_store, [])
       /\ process_video_route scenario_env (mkRequest None None) empty_store
          = (JsonResponse body 401, empty_store, []).
Proof.
  split; [reflexivity|].
  apply (@no_caller_no_effect scenario_env (mkRequest None None) empty_store).
  reflexivity.
Defined.


(** ** The accounts: [get_db_connection], [register] and [login] *)

Lemma connect_run (W : db_oracle) (s : tables) :
  connect W s
  = match connect_raises W with
    | Some e => (inl e, s, [OConnect])
    | None => (inr tt, mkTables (users s) [], [OConnect])
    end.
Proof.
  unfold connect, dbind, dop, dmodify.
  now destruct (connect_raises W).
Qed.

Lemma close_run (W : db_oracle) (s : tables) :
  close W s
  = (match close_raises W with Some e => inl e | None => inr tt end,
     mkTables (users s) [], [OClose]).
Proof.
  unfold close, dbind, dop, dmodify.
  now destruct (close_raises W).
Qed.

Lemma rollback_run (W : db_oracle) (s : tables) :
  rollback W s
  = match rollback_raises W with
    | Some e => (inl e, s, [ORollback])
    | None => (inr tt, mkTables (users s) [], [ORollback])
    end.
Proof.
  unfold rollback, dbind, dop, dmodify.
  now destruct (rollback_raises W).
Qed.

(** X16. [get_db_connection] releases what it has opened. When
    [sqlite3.connect] raises, the exception goes on and nothing else
    happens. Otherwise, whatever the body does, returning or raising, the
    last thing the database sees is the closing of the connection, and no
    row that was inserted and not committed is left. *)
Theorem get_db_connection_closes {A} (W : db_oracle) (body : D A)
  (s : tables) :
  let '(r, s', o) := get_db_connection W body s in
  match connect_raises W with
  | Some e => r = inl e /\ s' = s /\ o = [OConnect]
  | None => pending s' = [] /\ exists mid, o = OConnect :: mid ++ [OClose]
  end.
Proof.
  unfold get_db_connection.
  unfold dbind at 1. rewrite connect_run.
  destruct (connect_raises W) as [e|].
  - auto.
  - unfold dtry_finally.
    match goal with
    | |- context [dtry_except ?m ?h ?s0] =>
        destruct (dtry_except m h s0) as [[r1 s1] o1]
    end.
    rewrite close_run.
    destruct (close_raises W); cbn [pending];
      (split; [reflexivity|]); now exists o1.
Qed.

Lemma pragmas_run {A} (W : db_oracle) (body : D A) (s : tables) :
  (forall statement,
     In statement [PRAGMA_JOURNAL; PRAGMA_TIMEOUT; PRAGMA_SYNCHRONOUS] ->
     pragma_raises W statement = None) ->
  (execute_pragma W PRAGMA_JOURNAL ;;
   execute_pragma W PRAGMA_TIMEOUT ;;
   execute_pragma W PRAGMA_SYNCHRONOUS ;;
   body)%db s
  = let '(r, s1, o) := body s in
    (r, s1,
     [OPragma PRAGMA_JOURNAL; OPragma PRAGMA_TIMEOUT;
      OPragma PRAGMA_SYNCHRONOUS] ++ o).
Proof.
  intros H. unfold execute_pragma, dbind, dop.
  rewrite !H by (cbn; auto).
  cbn [draise_if dret]. now destruct (body s) as [[[e|a] s1] o].
Qed.

(** X17. With a database in good health, where connecting, the three
    PRAGMA statements, rolling back and closing do not raise,
    [get_db_connection] gives back what its body gives, value or exception;
    it rolls back exactly when the body raises a [sqlite3.Error]; and the
    rows that the body has inserted and not committed are dropped. *)
Theorem get_db_connection_transparent {A} (W : db_oracle) (body : D A)
  (s : tables) :
  connect_raises W = None ->
  (forall statement,
     In statement [PRAGMA_JOURNAL; PRAGMA_TIMEOUT; PRAGMA_SYNCHRONOUS] ->
     pragma_raises W statement = None) ->
  rollback_raises W = None ->
  close_raises W = None ->
  let '(r, s1, o) := body (mkTables (users s) []) in
  get_db_connection W body s
  = (r, mkTables (users s1) [],
     [OConnect; OPragma PRAGMA_JOURNAL; OPragma PRAGMA_TIMEOUT;
      OPragma PRAGMA_SYNCHRONOUS]
     ++ o
     ++ match r with
        | inl e => if is_sqlite_error e then [ORollback] else []
        | inr _ => []
        end
     ++ [OClose]).
Proof.
  intros Hc Hp Hr Hx.
  unfold get_db_connection.
  unfold dbind at 1. rewrite connect_run, Hc.
  unfold dtry_finally, dtry_except.
  rewrite (pragmas_run W body _ Hp).
  destruct (body (mkTables (users s) [])) as [[[e|a] s1] o].
  - destruct (is_sqlite_error e).
    + unfold dbind. rewrite rollback_run, Hr. cbn [draise].
      rewrite close_run, Hx. cbn [users].
      now rewrite app_nil_r, <- !app_assoc.
    + cbn [draise]. rewrite close_run, Hx.
      now rewrite app_nil_r, <- !app_assoc.
  - rewrite close_run, Hx. now rewrite <- !app_assoc.
Qed.

Lemma get_db_connection_transparent_witness :
  get_db_connection healthy_db
    (insert_account healthy_db (lit "alice") (lit "a") (lit "h")) no_tables
  = (inr tt, no_tables,
     [OConnect; OPragma PRAGMA_JOURNAL; OPragma PRAGMA_TIMEOUT;
      OPragma PRAGMA_SYNCHRONOUS;
      OInsertUser (lit "alice") (lit "a") (lit "h"); OClose]).
Proof.
  exact (@get_db_connection_transparent unit healthy_db
           (insert_account healthy_db (lit "alice") (lit "a") (lit "h"))
           no_tables eq_refl (fun _ _ => eq_refl) eq_refl eq_refl).
Defined.

Lemma commit_run (W : db_oracle) (s : tables) :
  commit W s
  = match commit_raises W with
    | Some e => (inl e, s, [OCommit])
    | None => (inr tt, mkTables (users s ++ pending s) [], [OCommit])
    end.
Proof.
  unfold commit, dbind, dop, dmodify.
  now destruct (commit_raises W).
Qed.

Lemma insert_account_run (W : db_oracle) (username email password : pystr)
  (s : tables) :
  insert_account W username email password s
  = match insert_user W (users s ++ pending s) username email password with
    | inl e => (inl e, s, [OInsertUser username email password])
    | inr id =>
        (inr tt,
         mkTables (users s)
           (pending s ++ [mkAccount id username email password]),
         [OInsertUser username email password])
    end.
Proof.
  unfold insert_account, dbind, dop, dmodify, dget.
  now destruct (insert_user W (users s ++ pending s) username email password).
Qed.

(** The [with] block of [register]: it returns only after the INSERT and
    the commit, with a database that has let it connect, configure and
    close, and then the table has grown by the new row; when it raises and
    the closing has not failed, the table is as before. *)
Lemma register_block (W : db_oracle) (username email password : pystr)
  (s : tables) :
  let '(r, s', _) :=
    get_db_connection W
      (insert_account W username email password ;; commit W)%db s in
  match r with
  | inr _ =>
      exists id,
        insert_user W (users s) username email password = inr id
        /\ s' = mkTables (users s ++ [mkAccount id username email password])
                  []
        /\ connect_raises W = None
        /\ pragma_raises W PRAGMA_JOURNAL = None
        /\ pragma_raises W PRAGMA_TIMEOUT = None
        /\ pragma_raises W PRAGMA_SYNCHRONOUS = None
        /\ close_raises W = None
  | inl _ => close_raises W = None -> users s' = users s
  end.
Proof.
  unfold get_db_connection.
  unfold dbind at 1. rewrite connect_run.
  destruct (connect_raises W) as [e|] eqn:Hc; [reflexivity|].
  unfold dtry_finally, dtry_except, execute_pragma.
  unfold dbind, dop.
  destruct (pragma_raises W PRAGMA_JOURNAL) as [e|] eqn:H1;
    cbn [draise_if draise dret].
  2: destruct (pragma_raises W PRAGMA_TIMEOUT) as [e|] eqn:H2;
       cbn [draise_if draise dret].
  3: destruct (pragma_raises W PRAGMA_SYNCHRONOUS) as [e|] eqn:H3;
       cbn [draise_if draise dret].
  4: rewrite insert_account_run; cbn [users pending]; rewrite app_nil_r;
       destruct (insert_user W (users s) username email password)
         as [e|id] eqn:Hins.
  5: rewrite commit_run; destruct (commit_raises W) as [e|];
       cbn [users pending app].
  all: try (destruct (is_sqlite_error e); cbn [draise];
            rewrite ?rollback_run;
            try (destruct (rollback_raises W))).
  all: rewrite close_run; destruct (close_raises W) as [x|] eqn:Hx;
         cbn [users pending]; try (intros; congruence).
  all: try reflexivity.
  exists id. cbn [app]. auto 10.
Qed.

(** The [with] block of [login] on a database in good health. *)
Lemma login_block (W : db_oracle) (username : pystr) (s : tables) :
  connect_raises W = None ->
  pragma_raises W PRAGMA_JOURNAL = None ->
  pragma_raises W PRAGMA_TIMEOUT = None ->
  pragma_raises W PRAGMA_SYNCHRONOUS = None ->
  select_raises W = None ->
  close_raises W = None ->
  get_db_connection W (select_user W username) s
  = (inr (find (fun a => eqb (account_username a) username) (users s)),
     mkTables (users s) [],
     [OConnect; OPragma PRAGMA_JOURNAL; OPragma PRAGMA_TIMEOUT;
      OPragma PRAGMA_SYNCHRONOUS; OSelectUser username; OClose]).
Proof.
  intros Hc H1 H2 H3 Hs Hx.
  unfold get_db_connection.
  unfold dbind at 1. rewrite connect_run, Hc.
  unfold dtry_finally, dtry_except.
  rewrite pragmas_run
    by (intros st [<-|[<-|[<-|[]]]]; assumption).
  unfold select_user, dbind, dop, dget. rewrite Hs.
  cbn [draise_if dret users pending]. rewrite close_run, Hx.
  cbn [users app]. now rewrite app_nil_r.
Qed.

(** Whatever happens in the [with] block of [login], the table stays. *)
Lemma login_block_reads (W : db_oracle) (username : pystr) (s : tables) :
  let '(r, s', _) := get_db_connection W (select_user W username) s in
  users s' = users s
  /\ match r with
     | inr user =>
         user = find (fun a => eqb (account_username a) username) (users s)
     | inl _ => True
     end.
Proof.
  unfold get_db_connection.
  unfold dbind at 1. rewrite connect_run.
  destruct (connect_raises W) as [e|] eqn:Hc; [auto|].
  unfold dtry_finally, dtry_except, execute_pragma.
  unfold dbind, dop.
  destruct (pragma_raises W PRAGMA_JOURNAL) as [e|] eqn:H1;
    cbn [draise_if draise dret].
  2: destruct (pragma_raises W PRAGMA_TIMEOUT) as [e|] eqn:H2;
       cbn [draise_if draise dret].
  3: destruct (pragma_raises W PRAGMA_SYNCHRONOUS) as [e|] eqn:H3;
       cbn [draise_if draise dret].
  4: unfold select_user, dbind, dop, dget;
       destruct (select_raises W) as [e|];
       cbn [draise_if draise dret users pending]; rewrite ?app_nil_r.
  all: try (destruct (is_sqlite_error e); cbn [draise];
            rewrite ?rollback_run;
            try (destruct (rollback_raises W))).
  all: rewrite close_run; destruct (close_raises W) as [x|] eqn:Hx;
         cbn [users pending]; auto.
Qed.

(** X18. [register] answers 201 only after it has added one row to [users]:
    the username and the email of the row are the trimmed fields of the
    request, the username has at least three code points, the email is
    not empty, the password of the request, which is not trimmed, has at
    least six, and the row holds its hash. Every other answer has status
    400 or 500 and, unless the closing of the connection has failed,
    leaves the table as it was. *)
Theorem register_creates (W : db_oracle) (req : request) (s : tables) :
  let '(r, s', _) := register W req s in
  (exists data u e p hashed id,
     json req = Some data
     /\ get_field data (lit "username") = JString u
     /\ get_field data (lit "email") = JString e
     /\ get_field data (lit "password") = JString p
     /\ 3 <= length (strip u)
     /\ strip e <> []
     /\ 6 <= length p
     /\ hashpw W p = inr hashed
     /\ r = USER_CREATED
     /\ users s' = users s ++ [mkAccount id (strip u) (strip e) hashed])
  \/ (exists body code,
        r = JsonResponse body code
        /\ In code [400; 500]%Z
        /\ (close_raises W = None -> users s' = users s)).
Proof.
  set (Good := fun (r : response) (s' : tables) =>
    (exists data u e p hashed id,
       json req = Some data
       /\ get_field data (lit "username") = JString u
       /\ get_field data (lit "email") = JString e
       /\ get_field data (lit "password") = JString p
       /\ 3 <= length (strip u)
       /\ strip e <> []
       /\ 6 <= length p
       /\ hashpw W p = inr hashed
       /\ r = USER_CREATED
       /\ users s' = users s ++ [mkAccount id (strip u) (strip e) hashed])
    \/ (exists body code,
          r = JsonResponse body code
          /\ In code [400; 500]%Z
          /\ (close_raises W = None -> users s' = users s))).
  change (let '(r, s', _) := register W req s in Good r s').
  assert (Herr : forall (body : list (pystr * pystr)) (code : Z) (s0 : tables),
            In code [400; 500]%Z ->
            (close_raises W = None -> users s0 = users s) ->
            Good (JsonResponse body code) s0).
  { intros body code s0 Hc Hdb. right. eauto. }
  assert (Hok : forall data u e p hashed id s0,
            json req = Some data ->
            get_field data (lit "username") = JString u ->
            get_field data (lit "email") = JString e ->
            get_field data (lit "password") = JString p ->
            3 <= length (strip u) ->
            strip e <> [] ->
            6 <= length p ->
            hashpw W p = inr hashed ->
            users s0 = users s ++ [mkAccount id (strip u) (strip e) hashed] ->
            Good USER_CREATED s0).
  { intros. left. do 6 eexists. repeat split; eauto. }
  clearbody Good.
  unfold register, register_try, json_error.
  destruct (json req) as [[|kv data]|] eqn:Hjson;
    [apply Herr; cbn; auto| |apply Herr; cbn; auto].
  set (d := kv :: data) in *.
  unfold dbind at 1.
  destruct (get_field d (lit "username")) as [u|n|b|] eqn:Hu;
    cbn [strip_value dret draise]; try (apply Herr; cbn; auto; fail).
  unfold dbind at 1.
  destruct (get_field d (lit "email")) as [e|n|b|] eqn:He;
    cbn [strip_value dret draise]; try (apply Herr; cbn; auto; fail).
  destruct (strip u) as [|c0 u'] eqn:Hsu; cbn [truthy negb orb];
    [apply Herr; cbn; auto|].
  destruct (strip e) as [|c1 e'] eqn:Hse; cbn [truthy negb orb];
    [apply Herr; cbn; auto|].
  destruct (jtruthy (get_field d (lit "password"))) eqn:Htp; cbn [negb];
    [|apply Herr; cbn; auto].
  rewrite <- Hsu, <- Hse.
  destruct (Nat.ltb_spec (length (strip u)) 3) as [|Hlu];
    [apply Herr; cbn; auto|].
  unfold dbind at 1.
  destruct (get_field d (lit "password")) as [p|n|b|] eqn:Hp;
    cbn [len_value encode_value dret draise];
    try (apply Herr; cbn; auto; fail).
  destruct (Nat.ltb_spec (length p) 6) as [|Hlp];
    [apply Herr; cbn; auto|].
  unfold dbind at 1. cbn [dret]. unfold dbind at 1.
  destruct (hashpw W p) as [x|hashed] eqn:Hh; cbn [dlift dret draise];
    [destruct x;
     repeat match goal with
            | |- context [if ?c then _ else _] => destruct c
            end; apply Herr; cbn; auto|].
  unfold dbind at 1.
  pose proof (register_block W (strip u) (strip e) hashed s) as Hblock.
  destruct (get_db_connection W
              (insert_account W (strip u) (strip e) hashed ;; commit W)%db s)
    as [[[x|[]] s1] o1].
  - destruct x;
      repeat match goal with
             | |- context [if ?c then _ else _] => destruct c
             end; apply Herr; cbn; auto.
  - destruct Hblock as [id [_ [-> _]]]. cbn [dret].
    apply (Hok d u e p hashed id); auto.
    rewrite Hse. discriminate.
Qed.

Lemma find_fresh (rows : list account) (row : account) :
  (forall a, In a rows -> account_username a <> account_username row) ->
  find (fun a => eqb (account_username a) (account_username row))
    (rows ++ [row])
  = Some row.
Proof.
  induction rows as [|a rows IH]; intros Hfresh; cbn [app find].
  - now rewrite eqb_refl.
  - destruct (eqb (account_username a) (account_username row)) eqn:Hab.
    + apply eqb_eq in Hab. exfalso. apply (Hfresh a); [now left | exact Hab].
    + apply IH. intros a' Ha'. apply Hfresh. now right.
Qed.

(** X19. Who has registered can log in. Let the INSERT refuse a username
    that the table already holds, let [bcrypt.checkpw] accept a password
    against its own hash, let [jwt.encode] give a token and the SELECT not
    raise. Then after [register] has answered 201, [login] with the same
    body answers 200, and its token is the one for the id of the new row,
    the last of the table. *)
Theorem register_then_login (W : db_oracle) (req : request)
  (s s' : tables) (o : list db_op) :
  (forall rows username email hashed id,
     insert_user W rows username email hashed = inr id ->
     forall a, In a rows -> account_username a <> username) ->
  (forall password hashed,
     hashpw W password = inr hashed -> checkpw W password hashed = inr true) ->
  (forall id, exists token, jwt_encode W id = inr token) ->
  select_raises W = None ->
  register W req s = (USER_CREATED, s', o) ->
  exists row token o',
    users s' = users s ++ [row]
    /\ jwt_encode W (account_id row) = inr token
    /\ login W req s'
       = (JsonResponse
            [(lit "token", token); (lit "message", lit "Login successful")]
            200,
          s', o').
Proof.
  intros Huniq Hcheck Hjwt Hsel.
  unfold register, register_try, login, login_try, json_error, USER_CREATED.
  destruct (json req) as [[|kv data]|] eqn:Hjson; try discriminate.
  set (d := kv :: data) in *.
  unfold dbind at 1.
  destruct (get_field d (lit "username")) as [u|n|b|] eqn:Hu;
    cbn [strip_value dret draise]; try discriminate.
  unfold dbind at 1.
  destruct (get_field d (lit "email")) as [e|n|b|] eqn:He;
    cbn [strip_value dret draise]; try discriminate.
  destruct (strip u) as [|c0 u'] eqn:Hsu; cbn [truthy negb orb];
    [discriminate|].
  destruct (strip e) as [|c1 e'] eqn:Hse; cbn [truthy negb orb];
    [discriminate|].
  destruct (jtruthy (get_field d (lit "password"))) eqn:Htp; cbn [negb];
    [|discriminate].
  rewrite <- Hsu, <- Hse.
  destruct (Nat.ltb_spec (length (strip u)) 3) as [|Hlu]; [discriminate|].
  unfold dbind at 1.
  destruct (get_field d (lit "password")) as [p|n|b|] eqn:Hp;
    cbn [len_value encode_value dret draise]; try discriminate.
  destruct (Nat.ltb_spec (length p) 6) as [|Hlp]; [discriminate|].
  unfold dbind at 1. cbn [dret]. unfold dbind at 1.
  destruct (hashpw W p) as [x|hashed] eqn:Hh; cbn [dlift dret draise];
    [destruct x;
     repeat match goal with
            | |- context [if ?c then _ else _] => destruct c
            end; discriminate|].
  unfold dbind at 1.
  pose proof (register_block W (strip u) (strip e) hashed s) as Hblock.
  destruct (get_db_connection W
              (insert_account W (strip u) (strip e) hashed ;; commit W)%db s)
    as [[[x|[]] s1] o1].
  { destruct x;
      repeat match goal with
             | |- context [if ?c then _ else _] => destruct c
             end; discriminate. }
  destruct Hblock as [id [Hins [-> [Hc [H1 [H2 [H3 Hx]]]]]]].
  cbn [dret]. intros Hreg. injection Hreg as <- <-.
  destruct (Hjwt id) as [token Htoken].
  exists (mkAccount id (strip u) (strip e) hashed), token.
  eexists. split; [reflexivity|]. split; [exact Htoken|].
  unfold dbind at 1. cbn [dret]. rewrite Hsu. cbn [truthy negb orb].
  rewrite <- Hsu. unfold dbind at 1.
  rewrite (login_block W (strip u) _ Hc H1 H2 H3 Hsel Hx).
  cbn [users].
  pose proof (find_fresh (users s)
                (mkAccount id (strip u) (strip e) hashed)
                (Huniq _ _ _ _ _ Hins)) as Hfind.
  cbn [account_username] in Hfind. rewrite Hfind.
 unfold dbind at 1. cbn [dret]. unfold dbind at 1.
  cbn [account_password account_id].
  rewrite (Hcheck _ _ Hh). cbn [dlift dret]. unfold dbind.
  rewrite Htoken. cbn [dlift dret app]. reflexivity.
Qed.

Lemma unique_insert_fresh (rows : list account)
  (username email hashed : pystr) (id : Z) :
  unique_insert rows username email hashed = inr id ->
  forall a, In a rows -> account_username a <> username.
Proof.
  unfold unique_insert.
  destruct (existsb (fun a => eqb (account_username a) username) rows)
    eqn:Hex; [discriminate|].
  intros _ a Ha Heq.
  assert (Htrue : existsb (fun a => eqb (account_username a) username) rows
                  = true).
  { apply existsb_exists. exists a. split; [exact Ha | now apply eqb_eq]. }
  congruence.
Qed.

Lemma register_then_login_witness :
  exists row token o',
    users (snd (fst (register healthy_db SIGNUP no_tables)))
    = users no_tables ++ [row]
    /\ jwt_encode healthy_db (account_id row) = inr token
    /\ login healthy_db SIGNUP (snd (fst (register healthy_db SIGNUP no_tables)))
       = (JsonResponse
            [(lit "token", token); (lit "message", lit "Login successful")]
            200,
          snd (fst (register healthy_db SIGNUP no_tables)), o').
Proof.
  apply (@register_then_login healthy_db SIGNUP no_tables
           (snd (fst (register healthy_db SIGNUP no_tables)))
           (snd (register healthy_db SIGNUP no_tables))).
  - exact unique_insert_fresh.
  - intros password hashed H. cbn in H. injection H as <-.
    cbn [checkpw healthy_db]. now rewrite eqb_refl.
  - intros id. now exists (lit "token").
  - reflexivity.
  - vm_compute. reflexivity.
Defined.

(** X20. [login] gives a token only to who knows the password of an
    account: it answers 200 only when the table holds a row with the
    trimmed username of the request and [bcrypt.checkpw] accepts the
    password of the request against the hash of that row, and the token is
    the one that [jwt.encode] makes for the id of the row. Every other
    answer has status 400, 401 or 500. No request changes the table. *)
Theorem login_grants (W : db_oracle) (req : request) (s : tables) :
  let '(r, s', _) := login W req s in
  users s' = users s
  /\ ((exists data u p a token,
         json req = Some data
         /\ get_field data (lit "username") = JString u
         /\ get_field data (lit "password") = JString p
         /\ In a (users s)
         /\ account_username a = strip u
         /\ checkpw W p (account_password a) = inr true
         /\ jwt_encode W (account_id a) = inr token
         /\ r = JsonResponse
                  [(lit "token", token);
                   (lit "message", lit "Login successful")] 200)
      \/ (exists body code,
            r = JsonResponse body code /\ In code [400; 401; 500]%Z)).
Proof.
  set (Good := fun (r : response) =>
    (exists data u p a token,
       json req = Some data
       /\ get_field data (lit "username") = JString u
       /\ get_field data (lit "password") = JString p
       /\ In a (users s)
       /\ account_username a = strip u
       /\ checkpw W p (account_password a) = inr true
       /\ jwt_encode W (account_id a) = inr token
       /\ r = JsonResponse
                [(lit "token", token);
                 (lit "message", lit "Login successful")] 200)
    \/ (exists body code,
          r = JsonResponse body code /\ In code [400; 401; 500]%Z)).
  change (let '(r, s', _) := login W req s in users s' = users s /\ Good r).
  assert (Herr : forall (body : list (pystr * pystr)) (code : Z),
            In code [400; 401; 500]%Z -> Good (JsonResponse body code)).
  { intros body code Hc. right. eauto. }
  assert (Hok : forall data u p a token,
            json req = Some data ->
            get_field data (lit "username") = JString u ->
            get_field data (lit "password") = JString p ->
            In a (users s) ->
            account_username a = strip u ->
            checkpw W p (account_password a) = inr true ->
            jwt_encode W (account_id a) = inr token ->
            Good (JsonResponse
                    [(lit "token", token);
                     (lit "message", lit "Login successful")] 200)).
  { intros. left. do 5 eexists. repeat split; eauto. }
  clearbody Good.
  unfold login, login_try, json_error, INVALID_LOGIN, json_error.
  destruct (json req) as [[|kv data]|] eqn:Hjson;
    [split; [reflexivity | apply Herr; cbn; auto]|
    |split; [reflexivity | apply Herr; cbn; auto]].
  set (d := kv :: data) in *.
  unfold dbind at 1.
  destruct (get_field d (lit "username")) as [u|n|b|] eqn:Hu;
    cbn [strip_value dret draise is_sqlite_error];
    try (split; [reflexivity | apply Herr; cbn; auto]; fail).
  destruct (strip u) as [|c0 u'] eqn:Hsu; cbn [truthy negb orb];
    [split; [reflexivity | apply Herr; cbn; auto]|].
  destruct (jtruthy (get_field d (lit "password"))) eqn:Htp; cbn [negb];
    [|split; [reflexivity | apply Herr; cbn; auto]].
  rewrite <- Hsu. unfold dbind at 1.
  pose proof (login_block_reads W (strip u) s) as Hblock.
  destruct (get_db_connection W (select_user W (strip u)) s)
    as [[[x|user] s1] o1]; destruct Hblock as [Hdb Huser].
  { split; [exact Hdb|].
    destruct (is_sqlite_error x); apply Herr; cbn; auto. }
  destruct user as [a|]; cbn [dret];
    [|split; [exact Hdb | apply Herr; cbn; auto]].
  symmetry in Huser. apply find_some in Huser as [Hin Hname].
  apply eqb_eq in Hname.
  unfold dbind at 1.
  destruct (get_field d (lit "password")) as [p|n|b|] eqn:Hp;
    cbn [encode_value dret draise is_sqlite_error];
    try (split; [exact Hdb | apply Herr; cbn; auto]; fail).
  unfold dbind at 1.
  destruct (checkpw W p (account_password a)) as [x|[|]] eqn:Hcheck;
    cbn [dlift dret draise].
  - split; [exact Hdb|].
    destruct (is_sqlite_error x); apply Herr; cbn; auto.
  - unfold dbind.
    destruct (jwt_encode W (account_id a)) as [x|token] eqn:Htoken;
      cbn [dlift dret draise]; (split; [exact Hdb|]).
    + destruct (is_sqlite_error x); apply Herr; cbn; auto.
    + apply (Hok d u p a token); auto.
  - split; [exact Hdb | apply Herr; cbn; auto].
Qed.

(** ** The Authorization header *)

Lemma startswith_bearer_space (s : pystr) :
  startswith (lit "Bearer ") s = true -> In 32%N s.
Proof.
  intros H. apply startswith_spec in H as [r ->].
  cbn. auto 10.
Qed.

Lemma replace_fuel_absent (fuel : nat) (s : pystr) :
  ~ In 32%N s -> replace_fuel fuel (lit "Bearer ") [] s = s.
Proof.
  revert s. induction fuel as [|k IH]; intros s Hs; [reflexivity|].
  cbn [replace_fuel]. destruct s as [|c r]; [reflexivity|].
  destruct (startswith (lit "Bearer ") (c :: r)) eqn:Hsw.
  - exfalso. apply Hs. now apply startswith_bearer_space.
  - f_equal. apply IH. intros Hin. apply Hs. now right.
Qed.

Lemma replace_fuel_prefix (k : nat) (old new t : pystr) :
  old <> [] ->
  replace_fuel (S k) old new (old ++ t) = new ++ replace_fuel k old new t.
Proof.
  intros Hold.
  assert (Hsw : startswith old (old ++ t) = true)
    by (apply startswith_spec; now exists t).
  assert (Hskip : skipn (length old) (old ++ t) = t).
  { rewrite skipn_app, skipn_all, Nat.sub_diag. reflexivity. }
  destruct old as [|c r]; [congruence|].
  cbn [replace_fuel]. change ((c :: r) ++ t) with (c :: (r ++ t)) in *.
  cbv iota beta. rewrite Hsw, Hskip. reflexivity.
Qed.

Lemma replace_bearer (t : pystr) :
  ~ In 32%N t ->
  replace (lit "Bearer ") [] (lit "Bearer " ++ t) = t
  /\ replace (lit "Bearer ") [] t = t.
Proof.
  intros Ht. split.
  - unfold replace. rewrite length_app.
    change (length (lit "Bearer ") + length t) with (S (6 + length t)).
    rewrite replace_fuel_prefix by discriminate.
    now apply replace_fuel_absent.
  - now apply replace_fuel_absent.
Qed.

(** X21. The prefix Bearer of the Authorization header is optional: for a
    token that is not empty and holds no space, both endpoints treat the
    header with the bare token exactly as the header with the prefix, and
    in both cases [get_user_by_token] receives the bare token. *)
Theorem bearer_prefix_optional (E : env) (t : pystr)
  (body : option (list (pystr * jvalue))) (s : store) :
  t <> [] ->
  ~ In 32%N t ->
  process_video_stream E (mkRequest (Some (lit "Bearer " ++ t)) body) s
  = process_video_stream E (mkRequest (Some t) body) s
  /\ process_video_route E (mkRequest (Some (lit "Bearer " ++ t)) body) s
     = process_video_route E (mkRequest (Some t) body) s
  /\ caller E (mkRequest (Some t) body)
     = match get_user_by_token E t with
       | Some user_id => if (user_id =? 0)%Z then None else Some user_id
       | None => None
       end.
Proof.
  intros Hne Hsp. destruct (@replace_bearer t Hsp) as [H1 H2].
  unfold process_video_stream, process_video_route, caller.
  cbn [authorization json]. rewrite H1, H2.
  destruct t as [|c t]; [congruence|].
  cbn [truthy negb app lit]. auto.
Qed.

Lemma bearer_prefix_optional_witness :
  process_video_stream scenario_env
    (mkRequest (Some (lit "Bearer " ++ lit "token")) None) empty_store
  = process_video_stream scenario_env
      (mkRequest (Some (lit "token")) None) empty_store
  /\ process_video_route scenario_env
       (mkRequest (Some (lit "Bearer " ++ lit "token")) None) empty_store
     = process_video_route scenario_env
         (mkRequest (Some (lit "token")) None) empty_store
  /\ caller scenario_env (mkRequest (Some (lit "token")) None)
     = match get_user_by_token scenario_env (lit "token") with
       | Some user_id => if (user_id =? 0)%Z then None else Some user_id
       | None => None
       end.
Proof.
  apply (@bearer_prefix_optional scenario_env (lit "token") None empty_store).
  - discriminate.
  - cbn. intros H. repeat (destruct H as [H|H]; [discriminate|]). exact H.
Defined.

(** ** What the cleanup attempts *)

Lemma os_remove_refused (o : os_oracle) (f : pystr) (e : exn) (s : store) :
  In f (fs s) -> remove_raises o f = Some e ->
  os_remove o f s = (inl e, s, [Act (ARemove f)]).
Proof.
  intros Hin Hr. apply mem_In in Hin.
  unfold os_remove, bind, act, get_store, raise_if, modify.
  cbn. rewrite Hin, Hr. reflexivity.
Qed.

Lemma release_audio_file_run (E : env) (s : store) :
  exists s',
    release_audio_file E s
    = (inr tt, s',
       match release_target s with
       | Some file => [Act (ARemove file)]
       | None => []
       end)
    /\ fs s' = after_release (cleanup_os E) s
    /\ audio_file s' = audio_file s.
Proof.
  unfold release_audio_file, release_target, after_release, release_target.
  unfold bind at 1. cbn [get_store].
  destruct (audio_file s) as [file|] eqn:Haf;
    [|exists s; cbn; rewrite Haf; auto].
  destruct (truthy file); cbn [andb];
    [|exists s; cbn; rewrite Haf; auto].
  unfold os_path_exists. unfold bind. cbn [get_store ret].
  destruct (mem file (fs s)) eqn:Hmem; cbn [ret];
    [|exists s; cbn; rewrite Haf; auto].
  apply mem_In in Hmem. unfold remove_quietly, try_except, after_remove.
  destruct (remove_raises (cleanup_os E) file) as [e|] eqn:Hr.
  - rewrite (@os_remove_refused _ _ _ _ Hmem Hr). cbn [ret app].
    exists s. auto.
  - rewrite (@os_remove_run _ _ _ Hmem Hr). cbn [app].
    eexists. split; [reflexivity|]. cbn. auto.
Qed.

Lemma sweep_loop_run (o : os_oracle) (names : list pystr) (s : store) :
  NoDup names ->
  (forall f, In f names -> In f (fs s)) ->
  exists r s',
    for_each names (fun file =>
      if startswith TEMP_AUDIO file then os_remove o file else ret tt) s
    = (r, s', map (fun f => Act (ARemove f)) (attempts o names))
    /\ audio_file s' = audio_file s
    /\ forall f, In f (fs s') <->
         In f (fs s)
         /\ ~ (In f (attempts o names) /\ remove_raises o f = None).
Proof.
  revert s. induction names as [|x r IH]; intros s Hnd Hin.
  - exists (inr tt), s. split; [reflexivity|]. split; [reflexivity|].
    intros f. cbn. tauto.
  - inversion Hnd as [|? ? Hx Hr]; subst.
    cbn [for_each attempts]. unfold bind at 1.
    destruct (startswith TEMP_AUDIO x) eqn:Hpre.
    + destruct (remove_raises o x) as [e|] eqn:Hrm.
      * rewrite (@os_remove_refused _ _ _ _ (Hin x (in_eq _ _)) Hrm).
        exists (inl e), s. split; [reflexivity|]. split; [reflexivity|].
        intros f. cbn [In]. split.
        -- intros Hf. split; [exact Hf|].
           intros [[<-|[]] Hnone]. congruence.
        -- tauto.
      * rewrite (@os_remove_run _ _ _ (Hin x (in_eq _ _)) Hrm).
        destruct (IH (set_fs (remove x (fs s)) s) Hr)
          as [r' [s' [Hrun [Haf Hfs]]]].
        { intros f Hf. cbn. apply In_remove. split.
          - apply Hin. now right.
          - intros ->. contradiction. }
        rewrite Hrun. exists r', s'. split; [reflexivity|].
        split; [exact Haf|].
        intros f. rewrite Hfs. cbn [fs set_fs In]. rewrite In_remove.
        split.
        -- intros [[Hf Hne] Hno]. split; [exact Hf|].
           intros [[Heq|Hat] Hnone]; [congruence | tauto].
        -- intros [Hf Hno]. split; [split; [exact Hf|]|].
           ++ intros ->. apply Hno. auto.
           ++ intros [Hat Hnone]. apply Hno. auto.
    + cbn [ret].
      destruct (IH s Hr) as [r' [s' [Hrun [Haf Hfs]]]].
      { intros f Hf. apply Hin. now right. }
      rewrite Hrun. exists r', s'. split; [reflexivity|].
      split; [exact Haf | exact Hfs].
Qed.

(** The [finally] block, statement by statement: what it logs and what it
    leaves in the directory. *)
Lemma generate_finally_run (E : env) (s : store) :
  exists s',
    generate_finally E s = (inr tt, s', cleanup_log (cleanup_os E) s)
    /\ forall f, In f (fs s') <->
         In f (after_release (cleanup_os E) s)
         /\ ~ (listdir_raises (cleanup_os E) = None
               /\ In f (attempts (cleanup_os E)
                          (dedup (after_release (cleanup_os E) s)))
               /\ remove_raises (cleanup_os E) f = None).
Proof.
  unfold generate_finally, cleanup_log. unfold bind at 1.
  destruct (release_audio_file_run E s) as [s1 [-> [Hfs1 _]]].
  unfold sweep_temp_audio, try_except. unfold bind at 1.
  rewrite os_listdir_run.
  destruct (listdir_raises (cleanup_os E)) as [e|].
  - cbn [ret app]. exists s1. split; [rewrite ?app_nil_r; reflexivity|].
    intros f. rewrite Hfs1. split; [|tauto].
    intros Hf. split; [exact Hf|]. intros [H _]. discriminate.
  - destruct (@sweep_loop_run (cleanup_os E) (dedup (fs s1)) s1
                (NoDup_dedup _)) as [r [s' [Hrun [_ Hfs]]]].
    { intros g. apply In_dedup. }
    rewrite Hrun, Hfs1.
    exists s'. split.
    + destruct r as [e|[]]; cbn [ret app]; rewrite ?app_nil_r; reflexivity.
    + intros f.
      destruct r as [e|[]]; cbn [fst snd ret];
        rewrite Hfs, Hfs1; tauto.
Qed.

Lemma In_after_remove (o : os_oracle) (f g : pystr) (files : list pystr) :
  In f files -> remove_raises o f <> None -> In f (after_remove o g files).
Proof.
  intros Hin Hr. unfold after_remove.
  destruct (remove_raises o g) eqn:Hg; [exact Hin|].
  apply In_remove. split; [exact Hin|]. intros ->. contradiction.
Qed.

(** A file whose removal the operating system refuses outlives the
    [finally] block. *)
Lemma generate_finally_refused (E : env) (s : store) (f : pystr) :
  In f (fs s) -> remove_raises (cleanup_os E) f <> None ->
  In f (fs (snd (fst (generate_finally E s)))).
Proof.
  intros Hin Hr.
  destruct (generate_finally_run E s) as [s' [-> Hfs]]. cbn [fst snd].
  apply Hfs. split.
  - unfold after_release. destruct (release_target s);
      [now apply In_after_remove | exact Hin].
  - intros [_ [_ Hnone]]. contradiction.
Qed.

(** ** The variable [audio_file] when the [try] block stops *)

Lemma gtriple_ret {A} (P : store -> list item -> Prop) (a : A)
  (Q : A -> store -> list item -> Prop) (X : store -> list item -> Prop) :
  (forall s l, P s l -> Q a s l) -> gtriple P (gret a) Q X.
Proof. intros H b s pre Hp. cbn. rewrite app_nil_r. now apply H. Qed.

Lemma gtriple_yield (P : store -> list item -> Prop) (e : event) :
  (forall s l, P s l -> P s (l ++ [Yield e])) ->
  gtriple P (gyield e) (fun _ => P) P.
Proof.
  intros H b s pre Hp. unfold gyield.
  destruct b as [[|[|n]]|]; cbn; rewrite ?app_nil_r; auto.
Qed.

Lemma gtriple_lift {A} (P : store -> list item -> Prop) (m : M A)
  (Q : A -> store -> list item -> Prop) (X : store -> list item -> Prop) :
  (forall s pre, P s pre ->
     match m s with
     | (inr a, s', o) => Q a s' (pre ++ o)
     | (inl _, s', o) => X s' (pre ++ o)
     end) ->
  gtriple P (glift m) Q X.
Proof.
  intros H b s pre Hp. specialize (H s pre Hp). unfold glift.
  now destruct (m s) as [[[e|a] s1] o1].
Qed.

Lemma gtriple_bind {A B} (P : store -> list item -> Prop) (g : G A)
  (k : A -> G B) (R : A -> store -> list item -> Prop)
  (Q : B -> store -> list item -> Prop) (X : store -> list item -> Prop) :
  gtriple P g R X -> (forall a, gtriple (R a) (k a) Q X) ->
  gtriple P (gbind g k) Q X.
Proof.
  intros Hg Hk b s pre Hp. specialize (Hg b s pre Hp). unfold gbind.
  destruct (g b s) as [[[[x|a] b1] s1] o1]; [exact Hg|].
  specialize (Hk a b1 s1 (pre ++ o1) Hg).
  destruct (k a b1 s1) as [[[r b2] s2] o2]. now rewrite app_assoc.
Qed.

Lemma gtriple_try_except {A} (P : store -> list item -> Prop) (g : G A)
  (h : exn -> G A) (Q : A -> store -> list item -> Prop)
  (R X : store -> list item -> Prop) :
  gtriple P g Q R -> (forall e, gtriple R (h e) Q X) ->
  (forall s l, R s l -> X s l) ->
  gtriple P (gtry_except g h) Q X.
Proof.
  intros Hg Hh Hrx b s pre Hp. specialize (Hg b s pre Hp).
  unfold gtry_except.
  destruct (g b s) as [[[[[e|]|a] b1] s1] o1]; [| now apply Hrx | exact Hg].
  specialize (Hh e b1 s1 (pre ++ o1) Hg).
  destruct (h e b1 s1) as [[[r b2] s2] o2]. now rewrite app_assoc.
Qed.

Lemma gtriple_conseq {A} (P P' : store -> list item -> Prop) (g : G A)
  (Q Q' : A -> store -> list item -> Prop)
  (X X' : store -> list item -> Prop) :
  gtriple P' g Q' X' ->
  (forall s l, P s l -> P' s l) ->
  (forall a s l, Q' a s l -> Q a s l) ->
  (forall s l, X' s l -> X s l) ->
  gtriple P g Q X.
Proof.
  intros H Hp Hq Hx b s pre Hs. specialize (H b s pre (Hp _ _ Hs)).
  destruct (g b s) as [[[[x|a] b1] s1] o1]; auto.
Qed.

Lemma download_audio_lists (E : env) (video_url : pystr) (s : store) :
  In (Act AListdir) (snd (download_audio E video_url s))
  /\ audio_file (snd (fst (download_audio E video_url s))) = audio_file s.
Proof.
  destruct (listdir_raises (download_os E)) as [e|] eqn:Hls.
  - assert (Hrun : download_audio E video_url s = (inl e, s, [Act AListdir])).
    { unfold download_audio. unfold bind at 1.
      now rewrite os_listdir_run, Hls. }
    rewrite Hrun. cbn [fst snd]. split; [now left | reflexivity].
  - destruct (download_audio_listed E video_url s Hls)
      as [s' [swept [-> [_ [_ [Haf _]]]]]].
    cbn [fst snd]. split; [now left | exact Haf].
Qed.

Section AudioFile.

Variable E : env.
Variable user_id : Z.
Variable video_url : pystr.
Variable s0 : store.

Let A := before_download s0.
Let B := after_download E video_url s0.

Lemma before_yield (e : event) (s : store) (l : list item) :
  A s l -> A s (l ++ [Yield e]).
Proof.
  intros [H1 H2]. split; [|exact H2]. intros Hin.
  apply in_app_or in Hin as [Hin|[Hin|[]]]; [tauto | discriminate].
Qed.

Lemma after_yield (e : event) (s : store) (l : list item) :
  B s l -> B s (l ++ [Yield e]).
Proof. intros [H1 H2]. split; [apply in_or_app; now left | exact H2]. Qed.

(** A statement that keeps the variable keeps the later assertion. *)
Lemma after_lift {T} (m : M T) :
  (forall s, audio_file (snd (fst (m s))) = audio_file s) ->
  gtriple B (glift m) (fun _ => B) B.
Proof.
  intros H. apply gtriple_lift. intros s pre [H1 H2]. specialize (H s).
  destruct (m s) as [[[e|a] s1] o1]; cbn [fst snd] in H;
    (split; [apply in_or_app; now left | now rewrite H]).
Qed.

Lemma after_stream_loop (chunks : list pystr) (summary : pystr) :
  gtriple B (Gen.stream_loop chunks summary) (fun _ => B) B.
Proof.
  revert summary. induction chunks as [|c r IH]; intros summary.
  - now apply gtriple_ret.
  - cbn [Gen.stream_loop]. eapply gtriple_bind.
    + apply gtriple_yield, after_yield.
    + intros ?. apply IH.
Qed.

Lemma audio_file_try :
  gtriple A (Gen.generate_try E user_id video_url) (fun _ => B)
    (fun s l => A s l \/ B s l).
Proof.
  unfold Gen.generate_try.
  assert (HA : forall e,
            gtriple A (gyield e) (fun _ => A) (fun s l => A s l \/ B s l)).
  { intros e. eapply gtriple_conseq;
      [apply gtriple_yield, before_yield | auto | auto | auto]. }
  assert (HB : forall e,
            gtriple B (gyield e) (fun _ => B) (fun s l => A s l \/ B s l)).
  { intros e. eapply gtriple_conseq;
      [apply gtriple_yield, after_yield | auto | auto | auto]. }
  assert (HL : forall T (m : M T),
            (forall s, audio_file (snd (fst (m s))) = audio_file s) ->
            gtriple B (glift m) (fun _ => B) (fun s l => A s l \/ B s l)).
  { intros T m H. eapply gtriple_conseq;
      [apply after_lift, H | auto | auto | auto]. }
  eapply gtriple_bind; [apply HA|]. intros ?.
  eapply gtriple_bind with (R := fun _ => A).
  { apply gtriple_lift. intros s pre [H1 H2]. rewrite new_converter_run.
    assert (HA' : A s (pre ++ [Act AInit])).
    { split; [|exact H2]. intros Hin.
      apply in_app_or in Hin as [Hin|[Hin|[]]]; [tauto | discriminate]. }
    destruct (init_converter E); [now left | exact HA']. }
  intros ?.
  eapply gtriple_bind; [apply HA|]. intros ?.
  eapply gtriple_bind with (R := fun _ => A).
  { apply gtriple_lift. intros s pre [H1 H2]. rewrite get_video_info_run.
    split; [|exact H2]. intros Hin.
    apply in_app_or in Hin as [Hin|[Hin|[]]]; [tauto | discriminate]. }
  intros [video_title video_id].
  eapply gtriple_bind; [apply HA|]. intros ?.
  eapply gtriple_bind; [apply HA|]. intros ?.
  eapply gtriple_bind with (R := fun _ => B).
  { apply gtriple_lift. intros s pre [H1 ->]. unfold bind.
    pose proof (download_audio_lists E video_url (set_audio_file None s0))
      as [Hls Haf].
    unfold B, after_download, downloaded.
    destruct (download_audio E video_url (set_audio_file None s0))
      as [[[e|file] s1] o1]; cbn [fst snd modify ret] in *.
    - right. split; [apply in_or_app; now right | exact Haf].
    - split; [rewrite !app_nil_r; apply in_or_app; now right | reflexivity]. }
  intros file.
  eapply gtriple_bind; [apply HB|]. intros ?.
  eapply gtriple_bind with (R := fun _ => B).
  { apply HL. intros s. now rewrite transcribe_audio_run. }
  intros transcript.
  eapply gtriple_bind; [apply HB|]. intros ?.
  eapply gtriple_bind; [apply HB|]. intros ?.
  cbv zeta.
  eapply gtriple_bind with (R := fun _ => B).
  { eapply gtriple_conseq with (P' := B) (Q' := fun _ => B) (X' := B);
      [|auto|auto|auto].
    apply gtriple_try_except with (R := B); [| |auto].
    - unfold Gen.stream_summary.
      eapply gtriple_bind; [apply after_lift; reflexivity|]. intros ?.
      destruct (llm_stream E _) as [chunks failure].
      eapply gtriple_bind; [apply after_stream_loop|]. intros summary.
      destruct failure; [apply after_lift; reflexivity|now apply gtriple_ret].
    - intros ?.
      eapply gtriple_bind; [apply gtriple_yield, after_yield|]. intros ?.
      eapply gtriple_bind.
      { apply after_lift. intros s. now rewrite generate_summary_run. }
      intros summary.
      eapply gtriple_bind; [apply gtriple_yield, after_yield|]. intros ?.
      now apply gtriple_ret. }
  intros summary.
  eapply gtriple_bind; [apply HB|]. intros ?.
  eapply gtriple_bind with (R := fun _ => B).
  { apply HL. intros s. rewrite insert_job_run.
    destruct (db_insert E _); [|reflexivity].
    destruct (db_committed E _); reflexivity. }
  intros ?. apply HB.
Qed.

(** When the [try] block of the generator stops, for whatever reason, the
    variable [audio_file] holds a file exactly when the block has called
    [download_audio], which lists the directory first, and the call has
    returned that file. *)
Lemma audio_file_stopped (b : budget) :
  match
    gtry_except (Gen.generate_try E user_id video_url)
      (fun e => gyield (Error e)) b (set_audio_file None s0)
  with
  | (_, _, s1, tried) =>
      forall file,
        audio_file s1 = Some file
        <-> In (Act AListdir) tried
            /\ downloaded E video_url s0 = inr file
  end.
Proof.
  assert (H : gtriple A
                (gtry_except (Gen.generate_try E user_id video_url)
                   (fun e => gyield (Error e)))
                (fun _ s l => A s l \/ B s l) (fun s l => A s l \/ B s l)).
  { apply gtriple_try_except with (R := fun s l => A s l \/ B s l);
      [| |auto].
    - eapply gtriple_conseq; [apply audio_file_try | auto | auto | auto].
    - intros e. eapply gtriple_conseq;
        [apply gtriple_yield with (P := fun s l => A s l \/ B s l)
        | auto | auto | auto].
      intros s l [Ha|Hb];
        [left; now apply before_yield | right; now apply after_yield]. }
  specialize (H b (set_audio_file None s0) []).
  cbn [app] in H.
  assert (H0 : A (set_audio_file None s0) []) by (split; [tauto | reflexivity]).
  specialize (H H0).
  destruct (gtry_except _ _ b (set_audio_file None s0))
    as [[[r b1] s1] tried].
  assert (Hinv : A s1 tried \/ B s1 tried) by (destruct r; exact H).
  intros file. destruct Hinv as [[Hno ->]|[Hin Haf]].
  - cbn. split; [discriminate | tauto].
  - rewrite Haf. unfold B, after_download in *.
    destruct (downloaded E video_url s0) as [e|f].
    + split; [discriminate | intros [_ Hd]; discriminate].
    + split; [intros Heq; injection Heq as ->; auto
             | intros [_ Heq]; injection Heq as ->; reflexivity].
Qed.

End AudioFile.

(** The generator is its [try] block, with its handler, and then the
    [finally] block, once, from the store in which the block stopped. *)
Lemma consume_generate_run (E : env) (user_id : Z) (video_url : pystr)
  (s : store) (b : budget) :
  b <> Some 0 ->
  exists r b1 s1 tried s',
    gtry_except (Gen.generate_try E user_id video_url)
      (fun e => gyield (Error e)) b (set_audio_file None s)
    = (r, b1, s1, tried)
    /\ generate_finally E s1 = (inr tt, s', cleanup_log (cleanup_os E) s1)
    /\ consume b (Gen.generate E user_id video_url) s
       = (r, s', tried ++ cleanup_log (cleanup_os E) s1).
Proof.
  intros Hb.
  destruct (gtry_except (Gen.generate_try E user_id video_url)
              (fun e => gyield (Error e)) b (set_audio_file None s))
    as [[[r b1] s1] tried] eqn:Htry.
  destruct (generate_finally_run E s1) as [s' [Hfin _]].
  exists r, b1, s1, tried, s'.
  split; [reflexivity|]. split; [exact Hfin|].
  assert (Hrun : Gen.generate E user_id video_url b s
                 = (r, b1, s', tried ++ cleanup_log (cleanup_os E) s1)).
  { unfold Gen.generate, gbind, glift, gtry_finally. cbn [modify].
    rewrite Htry, Hfin. reflexivity. }
  unfold consume. rewrite Hrun.
  destruct b as [[|n]|]; [congruence | reflexivity | reflexivity].
Qed.

Lemma events_of_cleanup_log (E : env) (s : store) :
  events_of (cleanup_log (cleanup_os E) s) = [].
Proof.
  destruct (generate_finally_run E s) as [s' [Hfin _]].
  pose proof (backstage_generate_finally E s) as [_ H].
  now rewrite Hfin in H.
Qed.

(** C5, as the code has it, for the streaming run and every consumer that
    takes at least one event. The generator ends without an exception:
    it returns when the consumer reads to the end, and is closed
    otherwise. Its log is the log of the [try] block and its handler,
    which holds all the events of the run, followed by the log of the
    [finally] block, which runs once, after the last event: first the
    removal of the audio file, attempted exactly when the variable holds
    a file that exists, and the variable holds a file exactly when the
    block has called [download_audio] and the call has returned it; then
    one listing of the directory; then, if the listing has not raised, the
    removals of the listed files whose name starts with temp_audio, in
    order, up to the first one that raises. The events do not depend on
    how the operating system answers during the cleanup. When the listing
    and the removals do not raise, no file whose name starts with
    temp_audio is left; a file whose removal raises is still there. *)
Theorem cleanup_after_terminal (E : env) (user_id : Z) (video_url : pystr)
  (s : store) (b : budget) :
  b <> Some 0 ->
  let full := events_of (snd (generate E user_id video_url s)) in
  exists r b1 s1 tried s',
    gtry_except (Gen.generate_try E user_id video_url)
      (fun e => gyield (Error e)) b (set_audio_file None s)
    = (r, b1, s1, tried)
    /\ consume b (Gen.generate E user_id video_url) s
       = (r, s',
          tried
          ++ match release_target s1 with
             | Some file => [Act (ARemove file)]
             | None => []
             end
          ++ [Act AListdir]
          ++ match listdir_raises (cleanup_os E) with
             | Some _ => []
             | None =>
                 map (fun f => Act (ARemove f))
                   (attempts (cleanup_os E)
                      (dedup (after_release (cleanup_os E) s1)))
             end)
    /\ r = match b with
           | None => inr tt
           | Some n => if n <=? length full then inl Closed else inr tt
           end
    /\ events_of tried = taken b full
    /\ (forall file,
          audio_file s1 = Some file
          <-> In (Act AListdir) tried
              /\ downloaded E video_url s = inr file)
    /\ (forall o,
          events_of
            (snd (consume b
                    (Gen.generate (with_cleanup_os o E) user_id video_url) s))
          = events_of tried)
    /\ (listdir_raises (cleanup_os E) = None ->
        (forall f, remove_raises (cleanup_os E) f = None) ->
        forall f, In f (fs s') -> startswith TEMP_AUDIO f = false)
    /\ (forall f,
          In f (fs s1) -> remove_raises (cleanup_os E) f <> None ->
          In f (fs s')).
Proof.
  intros Hb full.
  destruct (consume_generate_run E user_id video_url s Hb)
    as [r [b1 [s1 [tried [s' [Htry [Hfin Hrun]]]]]]].
  destruct (consume_generate E user_id video_url s b) as [Hev Hres].
  fold full in Hev, Hres. rewrite Hrun in Hev, Hres. cbn [fst snd] in *.
  rewrite events_of_app, events_of_cleanup_log, app_nil_r in Hev.
  exists r, b1, s1, tried, s'.
  split; [exact Htry|]. split; [exact Hrun|]. split; [exact Hres|].
  split; [exact Hev|]. split; [|split; [|split]].
  - pose proof (audio_file_stopped E user_id video_url s b) as H.
    now rewrite Htry in H.
  - intros o.
    destruct (consume_generate (with_cleanup_os o E) user_id video_url s b)
      as [Hev' _].
    rewrite Hev', generate_ignores_cleanup_os. now rewrite Hev.
  - intros Hls Hrm f Hf.
    apply (@generate_finally_calm E s1 Hls Hrm f). now rewrite Hfin.
  - intros f Hin Hr.
    pose proof (@generate_finally_refused E s1 f Hin Hr) as H.
    now rewrite Hfin in H.
Qed.

Lemma cleanup_after_terminal_witness :
  exists r s1 tried s',
    consume (Some 5) (Gen.generate stubborn_env 1 SCENARIO_URL) empty_store
    = (r, s',
       tried
       ++ match release_target s1 with
          | Some file => [Act (ARemove file)]
          | None => []
          end
       ++ [Act AListdir]
       ++ match listdir_raises (cleanup_os stubborn_env) with
          | Some _ => []
          | None =>
              map (fun f => Act (ARemove f))
                (attempts (cleanup_os stubborn_env)
                   (dedup (after_release (cleanup_os stubborn_env) s1)))
          end)
    /\ events_of tried
       = taken (Some 5)
           (events_of (snd (generate stubborn_env 1 SCENARIO_URL empty_store)))
    /\ (forall f,
          In f (fs s1) -> remove_raises (cleanup_os stubborn_env) f <> None ->
          In f (fs s')).
Proof.
  destruct (@cleanup_after_terminal stubborn_env 1 SCENARIO_URL empty_store
              (Some 5) ltac:(discriminate))
    as [r [b1 [s1 [tried [s' [_ [Hrun [_ [Hev [_ [_ [_ Hkeep]]]]]]]]]]]].
  exists r, s1, tried, s'. auto.
Defined.
